(** * custom_langchain: the multi-GPU PDF OCR pipeline

    A shallow embedding of [chat_pdf.py] (dispatcher and device workers) and
    of [Pix2TextParser.lazy_parse] from
    [langchain/document_loaders/parsers/pdf.py], with the properties the
    specification states about them.

    Python values are modelled as follows.
    - [str] is a sequence of Unicode code points: [list N].
    - [None] on a channel is [None : option (list N)]; a path is [Some p].
    - A [multiprocessing.Queue] is an index into a store of queues; the store
      holds, per queue, the sequence of messages put on it so far.  The
      consumer of a queue is a separate process that reads this sequence in
      FIFO order.
    - The file system is a finite map from path strings to file contents.
    - [os.environ] is a finite map from names to values.
    - A raised exception is a [Raise] result.
    - What the code calls but the repository does not define ([fitz],
      [Pix2Text], [Pix2TextLoader], the builtin [int]) is a parameter: a
      function that returns [None] when the call raises.  The constructor
      and the [load] of [Pix2TextLoader] see the environment and the files
      and return the files as they leave them, whether they raise or not.
      Such calls are taken to leave [os.environ] as it is.
    - An assignment to [os.environ] raises for a value that cannot be
      encoded or that holds a NUL.
    - Writes to standard output, imports and readings of the clock are left
      out. *)

From Stdlib Require Import ZArith NArith Ascii String DecimalString DecimalZ.
From stdpp Require Import base tactics option list gmap strings.

Open Scope N_scope.
Open Scope nat_scope.

(** ** Python strings *)

Module Py.

(** A string literal, as its code points. *)
Definition lit (s : string) : list N :=
  N_of_ascii <$> list_ascii_of_string s.

(** The two-character string ['\n\n']. *)
Definition nlnl : list N := [10%N; 10%N].

Definition slash : N := 47%N.
Definition dot : N := 46%N.
Definition comma : N := 44%N.

(** [s.startswith(p)] and [s.endswith(p)]. *)
Definition startswith (s p : list N) : bool := bool_decide (p `prefix_of` s).
Definition endswith (s p : list N) : bool := bool_decide (p `suffix_of` s).

(** [s.split(sep)] for a one-character separator. *)
Fixpoint split (sep : N) (s : list N) : list (list N) :=
  match s with
  | [] => [[]]
  | c :: s' =>
      if decide (c = sep) then [] :: split sep s'
      else match split sep s' with
           | w :: ws => (c :: w) :: ws
           | [] => [[c]]
           end
  end.

(** [s.rfind(c)], with [None] for [-1]. *)
Fixpoint rfind (c : N) (s : list N) : option nat :=
  match s with
  | [] => None
  | x :: s' =>
      match rfind c s' with
      | Some i => Some (S i)
      | None => if decide (x = c) then Some 0 else None
      end
  end.

(** [s.rfind(c) + 1]. *)
Definition rfind1 (c : N) (s : list N) : nat :=
  match rfind c s with Some i => S i | None => 0 end.

(** [s.rstrip(c)]. *)
Fixpoint rstrip (c : N) (s : list N) : list N :=
  match s with
  | [] => []
  | x :: s' =>
      match rstrip c s' with
      | [] => if decide (x = c) then [] else [x]
      | r => x :: r
      end
  end.

(** [str(z)] for an integer. *)
Definition str_int (z : Z) : list N :=
  lit (NilZero.string_of_int (Z.to_int z)).

(** [posixpath.split]. *)
Definition path_split (p : list N) : list N * list N :=
  let i := rfind1 slash p in
  let head := take i p in
  let tail := drop i p in
  let head :=
    if bool_decide (head ≠ [] ∧ head ≠ replicate (length head) slash)
    then rstrip slash head else head in
  (head, tail).

(** [posixpath.basename]. *)
Definition basename (p : list N) : list N := drop (rfind1 slash p) p.

(** [posixpath.join] of two components. *)
Definition path_join (a b : list N) : list N :=
  if startswith b [slash] then b
  else if bool_decide (a = []) || endswith a [slash] then a ++ b
  else a ++ slash :: b.

(** The [while] loop of [genericpath._splitext]: is there a character other
    than the dot among the first [n] characters of [s]? *)
Fixpoint has_nondot (n : nat) (s : list N) : bool :=
  match n, s with
  | S n', c :: s' => if decide (c = dot) then has_nondot n' s' else true
  | _, _ => false
  end.

(** [posixpath.splitext]. *)
Definition splitext (p : list N) : list N * list N :=
  let sepIndex1 := rfind1 slash p in
  match rfind dot p with
  | Some dotIndex =>
      if bool_decide (sepIndex1 ≤ dotIndex)
         && has_nondot (dotIndex - sepIndex1) (drop sepIndex1 p)
      then (take dotIndex p, drop dotIndex p)
      else (p, [])
  | None => (p, [])
  end.

End Py.


(** ** JSON text of a string: [json.dumps] and [json.loads]

    The encoder is [json.encoder.py_encode_basestring_ascii] (the default
    [ensure_ascii=True]); the decoder is [json.decoder.py_scanstring] in
    strict mode, between the optional white space [json.loads] skips. *)

Module Json.

(** One lower-case hexadecimal digit. *)
Definition hexdigit (d : N) : N :=
  (if d <? 10 then 48 + d else 87 + d)%N.

(** ['{0:04x}'.format(n)] for [n < 0x10000]. *)
Definition hex4 (n : N) : list N :=
  [hexdigit (n / 4096 mod 16); hexdigit (n / 256 mod 16);
   hexdigit (n / 16 mod 16); hexdigit (n mod 16)]%N.

(** The replacement of one character. *)
Definition escape (c : N) : list N :=
  (if c =? 92 then [92; 92]
   else if c =? 34 then [92; 34]
   else if c =? 8 then [92; 98]
   else if c =? 12 then [92; 102]
   else if c =? 10 then [92; 110]
   else if c =? 13 then [92; 114]
   else if c =? 9 then [92; 116]
   else if (32 <=? c) && (c <=? 126) then [c]
   else if c <? 0x10000 then 92 :: 117 :: hex4 c
   else
     let n := c - 0x10000 in
     let s1 := N.lor 0xd800 (N.land (N.shiftr n 10) 0x3ff) in
     let s2 := N.lor 0xdc00 (N.land n 0x3ff) in
     (92 :: 117 :: hex4 s1) ++ (92 :: 117 :: hex4 s2))%N.

Definition dumps (s : list N) : list N :=
  34%N :: concat (escape <$> s) ++ [34%N].

(** The value of a hexadecimal digit of either case. *)
Definition hexval (c : N) : option N :=
  (if (48 <=? c) && (c <=? 57) then Some (c - 48)
   else if (97 <=? c) && (c <=? 102) then Some (c - 87)
   else if (65 <=? c) && (c <=? 70) then Some (c - 55)
   else None)%N.

(** [_decode_uXXXX]: four hexadecimal digits. *)
Definition unhex4 (a b c d : N) : option N :=
  x ← hexval a; y ← hexval b; z ← hexval c; w ← hexval d;
  Some (x * 4096 + y * 256 + z * 16 + w)%N.

(** The table [BACKSLASH] of one-character escapes. *)
Definition unescape (e : N) : option N :=
  (if e =? 34 then Some 34
   else if e =? 92 then Some 92
   else if e =? 47 then Some 47
   else if e =? 98 then Some 8
   else if e =? 102 then Some 12
   else if e =? 110 then Some 10
   else if e =? 114 then Some 13
   else if e =? 116 then Some 9
   else None)%N.

Definition is_high (u : N) : bool := ((0xd800 <=? u) && (u <=? 0xdbff))%N.
Definition is_low (u : N) : bool := ((0xdc00 <=? u) && (u <=? 0xdfff))%N.

(** [py_scanstring] after the opening quote: the decoded string and what
    follows the closing quote; [None] when a [JSONDecodeError] is raised. *)
Fixpoint scanstring (s : list N) : option (list N * list N) :=
  match s with
  | [] => None
  | c :: s1 =>
      if (c =? 34)%N then Some ([], s1)
      else if (c <? 32)%N then None
      else if (c =? 92)%N then
        match s1 with
        | [] => None
        | e :: s2 =>
            if (e =? 117)%N then
              match s2 with
              | h1 :: h2 :: h3 :: h4 :: s3 =>
                  match unhex4 h1 h2 h3 h4 with
                  | None => None
                  | Some uni =>
                      let single := prod_map (cons uni) id <$> scanstring s3 in
                      if is_high uni then
                        match s3 with
                        | b :: u :: l1 :: l2 :: l3 :: l4 :: s4 =>
                            if (b =? 92)%N && (u =? 117)%N then
                              match unhex4 l1 l2 l3 l4 with
                              | None => None
                              | Some uni2 =>
                                  if is_low uni2 then
                                    let ch :=
                                      (0x10000 +
                                       N.lor (N.shiftl (uni - 0xd800) 10)
                                             (uni2 - 0xdc00))%N in
                                    prod_map (cons ch) id <$> scanstring s4
                                  else single
                              end
                            else single
                        | b :: u :: _ =>
                            if (b =? 92)%N && (u =? 117)%N then None
                            else single
                        | _ => single
                        end
                      else single
                  end
              | _ => None
              end
            else
              match unescape e with
              | Some ch => prod_map (cons ch) id <$> scanstring s2
              | None => None
              end
        end
      else prod_map (cons c) id <$> scanstring s1
  end.

(** The white space [json] skips: space, tab, line feed, carriage return. *)
Definition is_ws (c : N) : bool :=
  ((c =? 32) || (c =? 9) || (c =? 10) || (c =? 13))%N.

Fixpoint skip_ws (s : list N) : list N :=
  match s with
  | c :: s' => if is_ws c then skip_ws s' else s
  | [] => []
  end.

(** A Unicode scalar value: a code point that is not a surrogate. *)
Definition scalar (c : N) : Prop :=
  ((c < 0xd800 ∨ 0xdfff < c) ∧ c < 0x110000)%N.

(** [json.loads] of a document whose value is a string; [None] for any
    other document and for a malformed one. *)
Definition loads (doc : list N) : option (list N) :=
  match skip_ws doc with
  | q :: s =>
      if (q =? 34)%N then
        match scanstring s with
        | Some (v, rest) =>
            match skip_ws rest with [] => Some v | _ => None end
        | None => None
        end
      else None
  | [] => None
  end.

End Json.

(** ** Shared data *)

(** Python exceptions that the modelled code can raise or let through. *)
Inductive exn :=
| OSError            (* a failed file-system call *)
| FileNotFoundError
| SystemExit         (* [argparse] rejecting the command line *)
| TypeError
| IndexError
| ValueError
| UnicodeEncodeError (* in Python a subclass of [ValueError] *)
| BackendError.      (* raised inside an external collaborator *)

Inductive res (A : Type) :=
| Ok (a : A)
| Raise (e : exn).
Arguments Ok {A} a.
Arguments Raise {A} e.

(** A [Document]: the page text and the metadata the parser sets. *)
Record Document := mkDocument {
  page_content : list N;
  meta_source : list N;
  meta_page : nat;
}.

(** A [Blob], as far as [lazy_parse] reads it. *)
Record Blob := mkBlob {
  blob_path : list N;
  blob_source : list N;
}.

(** One element of the recogniser's result, a dict with the keys ['type']
    and ['text']. *)
Record Out := mkOut {
  out_type : list N;
  out_text : list N;
}.

(** ** [Pix2TextParser.lazy_parse] *)

Module Pix2Text.

(** The libraries the parser calls: [fitz] and the [Pix2Text] recogniser,
    and whether the operating system lets a file be created.  When it does
    not, [pix.save] raises an exception of the [fitz] library. *)
Record Libs := {
  Page : Type;
  Pixmap : Type;
  fitz_open : list N → option (list Page);
  get_pixmap : Page → option Pixmap;
  p2t : Pixmap → option (list Out);
  can_create : list N → bool;
}.

(** File contents: text, or a rendered page image. *)
Inductive fdata (P : Type) :=
| FText (s : list N)
| FPng (pix : P).
Arguments FText {P} s.
Arguments FPng {P} pix.

(** The three accumulators [header_text], [body_text], [footer_text] after
    one more element of [outs]. *)
Definition classify (acc : list N * list N * list N) (out : Out)
  : list N * list N * list N :=
  let '(header_text, body_text, footer_text) := acc in
  if decide (out_type out = Py.lit "Footer")
  then (header_text, body_text, footer_text ++ out_text out)
  else if decide (out_type out = Py.lit "Header")
  then (header_text ++ out_text out, body_text, footer_text)
  else if decide (out_type out = Py.lit "Reference")
  then (header_text, body_text, footer_text)
  else (header_text, body_text ++ out_text out, footer_text).

(** The text of one page, from the recogniser's result for it. *)
Definition only_text (outs : list Out) : list N :=
  let '(header_text, body_text, footer_text) :=
    foldl classify ([], [], []) outs in
  ((((header_text ++ Py.nlnl) ++ body_text) ++ Py.nlnl) ++ footer_text)
  ++ Py.nlnl.

(** [pdf_name + '_page_' + str(idx) + '.png']. *)
Definition png_name (pdf_name : list N) (idx : nat) : list N :=
  ((pdf_name ++ Py.lit "_page_") ++ Py.str_int (Z.of_nat idx))
  ++ Py.lit ".png".

(** [os.path.splitext(os.path.basename(file_path))[0]]. *)
Definition pdf_name_of (file_path : list N) : list N :=
  (Py.splitext (Py.basename file_path)).1.

Section Parser.
Context (L : Libs).

(** The body of the [for] loop up to its [yield], on the file system. *)
Definition page_step (blob : Blob) (pdf_name : list N) (idx : nat)
    (page : Page L) (fs : gmap (list N) (fdata (Pixmap L)))
  : res Document * gmap (list N) (fdata (Pixmap L)) :=
  match get_pixmap L page with
  | None => (Raise BackendError, fs)
  | Some pix =>
      let name := png_name pdf_name idx in
      if can_create L name then
        let fs := <[name := FPng pix]> fs in
        match fs !! name with
        | Some (FPng img) =>
            match p2t L img with
            | None => (Raise BackendError, fs)
            | Some outs =>
                let text := only_text outs in
                match fs !! name with
                | Some _ =>
                    (Ok (mkDocument text (blob_source blob) (idx + 1)),
                     delete name fs)
                | None => (Raise FileNotFoundError, fs)
                end
            end
        | _ => (Raise BackendError, fs)
        end
      else (Raise BackendError, fs)
  end.

(** The generator object: not yet started, suspended at the [yield] of page
    [idx - 1] with the pages still to come, or finished. *)
Inductive gen :=
| GStart (blob : Blob)
| GPages (blob : Blob) (pdf_name : list N) (idx : nat) (pages : list (Page L))
| GDone.

(** What one [next(gen)] gives. *)
Inductive signal :=
| Yield (d : Document)
| StopIteration
| Raised (e : exn).

Definition resume (blob : Blob) (pdf_name : list N) (idx : nat)
    (pages : list (Page L)) (fs : gmap (list N) (fdata (Pixmap L)))
  : signal * gen * gmap (list N) (fdata (Pixmap L)) :=
  match pages with
  | [] => (StopIteration, GDone, fs)
  | page :: rest =>
      match page_step blob pdf_name idx page fs with
      | (Ok d, fs') => (Yield d, GPages blob pdf_name (S idx) rest, fs')
      | (Raise e, fs') => (Raised e, GDone, fs')
      end
  end.

(** [next(gen)]. *)
Definition next (g : gen) (fs : gmap (list N) (fdata (Pixmap L)))
  : signal * gen * gmap (list N) (fdata (Pixmap L)) :=
  match g with
  | GStart blob =>
      match fitz_open L (blob_path blob) with
      | None => (Raised BackendError, GDone, fs)
      | Some pages => resume blob (pdf_name_of (blob_path blob)) 0 pages fs
      end
  | GPages blob pdf_name idx pages => resume blob pdf_name idx pages fs
  | GDone => (StopIteration, GDone, fs)
  end.

Definition lazy_parse (blob : Blob) : gen := GStart blob.

(** The [for] loop run to its end: every page in turn. *)
Fixpoint run_pages (blob : Blob) (pdf_name : list N) (idx : nat)
    (pages : list (Page L)) (fs : gmap (list N) (fdata (Pixmap L)))
  : res (list Document) * gmap (list N) (fdata (Pixmap L)) :=
  match pages with
  | [] => (Ok [], fs)
  | page :: rest =>
      match page_step blob pdf_name idx page fs with
      | (Ok d, fs') =>
          match run_pages blob pdf_name (S idx) rest fs' with
          | (Ok ds, fs'') => (Ok (d :: ds), fs'')
          | (Raise e, fs'') => (Raise e, fs'')
          end
      | (Raise e, fs') => (Raise e, fs')
      end
  end.

(** [list(gen)]: the generator consumed to exhaustion. *)
Definition to_list (g : gen) (fs : gmap (list N) (fdata (Pixmap L)))
  : res (list Document) * gmap (list N) (fdata (Pixmap L)) :=
  match g with
  | GStart blob =>
      match fitz_open L (blob_path blob) with
      | None => (Raise BackendError, fs)
      | Some pages =>
          run_pages blob (pdf_name_of (blob_path blob)) 0 pages fs
      end
  | GPages blob pdf_name idx pages => run_pages blob pdf_name idx pages fs
  | GDone => (Ok [], fs)
  end.

(** The page the next [next(gen)] works on, if there is one. *)
Definition current_page (g : gen) : option (Page L) :=
  match g with
  | GStart blob => fitz_open L (blob_path blob) ≫= head
  | GPages _ _ _ pages => head pages
  | GDone => None
  end.

(** [k] calls of [next(gen)] that each yield a document: the documents, the
    generator and the file system after them. *)
Fixpoint nexts (k : nat) (g : gen) (fs : gmap (list N) (fdata (Pixmap L)))
  : option (list Document * gen * gmap (list N) (fdata (Pixmap L))) :=
  match k with
  | 0 => Some ([], g, fs)
  | S k' =>
      match next g fs with
      | (Yield d, g', fs') =>
          match nexts k' g' fs' with
          | Some (ds, g'', fs'') => Some (d :: ds, g'', fs'')
          | None => None
          end
      | _ => None
      end
  end.

End Parser.

(** The names of the page images of the pages [idx], ..., [idx + k - 1]. *)
Definition temps (pdf_name : list N) (idx k : nat) : list (list N) :=
  png_name pdf_name <$> seq idx k.

(** The classes of the elements of a recogniser result. *)
Definition is_header (o : Out) : Prop := out_type o = Py.lit "Header".
Definition is_footer (o : Out) : Prop := out_type o = Py.lit "Footer".
Definition is_reference (o : Out) : Prop := out_type o = Py.lit "Reference".
Definition is_body (o : Out) : Prop :=
  ¬ is_header o ∧ ¬ is_footer o ∧ ¬ is_reference o.

#[export] Instance is_header_dec o : Decision (is_header o).
Proof. unfold is_header. apply _. Defined.
#[export] Instance is_footer_dec o : Decision (is_footer o).
Proof. unfold is_footer. apply _. Defined.
#[export] Instance is_reference_dec o : Decision (is_reference o).
Proof. unfold is_reference. apply _. Defined.
#[export] Instance is_body_dec o : Decision (is_body o).
Proof. unfold is_body. apply _. Defined.

(** The texts of the elements of one class, joined in the order of [outs]. *)
Definition texts (P : Out → Prop) `{∀ o, Decision (P o)} (outs : list Out)
  : list N :=
  concat (out_text <$> filter P outs).

End Pix2Text.

(** ** The device worker: [process_pdf] *)

Module Worker.

(** The external collaborators of a worker: the [Pix2TextLoader] class (its
    constructor and its [load], both of which see the process environment
    and the files, may change the files and may raise), and whether a file
    can be created for writing.  [construct env file_path device fs] gives
    the loader, or [None] when the constructor raises, and the files it
    leaves; [load env loader file_path fs] gives the documents, or [None]
    when it raises, the loader as the call leaves it and the files it
    leaves. *)
Record Backend := {
  Loader : Type;
  construct : gmap (list N) (list N) → list N → list N
              → gmap (list N) (list N)
              → option Loader * gmap (list N) (list N);
  load : gmap (list N) (list N) → Loader → list N
         → gmap (list N) (list N)
         → option (list Document) * Loader * gmap (list N) (list N);
  can_create : list N → bool;
}.

(** The backend [B] with a loader that also keeps the environments it was
    called in, the one of its construction first. *)
Definition observed (B : Backend) : Backend := {|
  Loader := Loader B * list (gmap (list N) (list N));
  construct := λ env file_path device fs,
    match construct B env file_path device fs with
    | (Some loader, fs') => (Some (loader, [env]), fs')
    | (None, fs') => (None, fs')
    end;
  load := λ env loader file_path fs,
    match load B env loader.1 file_path fs with
    | (documents, loader', fs') =>
        (documents, (loader', loader.2 ++ [env]), fs')
    end;
  can_create := can_create B;
|}.

(** What a worker does, in the order it does it.  [EvConstruct] and [EvLoad]
    carry the value of [CUDA_VISIBLE_DEVICES] in force at the call. *)
Inductive event :=
| EvSetenv (name value : list N)
| EvConstruct (visible : option (list N))
| EvGet (msg : option (list N))
| EvLoad (file_path : list N) (visible : option (list N))
| EvDump (path content : list N).

(** How a worker ends: it returns, an exception ends it, or it waits for ever
    on a queue that stays empty. *)
Inductive outcome :=
| Returned
| Died (e : exn)
| Blocked.

Definition CUDA_VISIBLE_DEVICES : list N := Py.lit "CUDA_VISIBLE_DEVICES".

(** A surrogate code point that the [surrogateescape] error handler does not
    encode: one outside U+DC80..U+DCFF. *)
Definition unencodable (c : N) : Prop :=
  (55296 ≤ c ≤ 57343)%N ∧ ¬ (56448 ≤ c ≤ 56575)%N.

#[export] Instance unencodable_dec c : Decision (unencodable c).
Proof. unfold unencodable. apply _. Defined.

(** The exception [os.environ[name] = value] raises, if any, for a name
    that is accepted: the value is encoded as UTF-8 with the
    [surrogateescape] error handler, and the encoded value must hold no
    NUL. *)
Definition environ_error (value : list N) : option exn :=
  if decide (Exists unencodable value) then Some UnicodeEncodeError
  else if decide (0%N ∈ value) then Some ValueError
  else None.

(** The path the loader is constructed with, before the first message. *)
Definition first_file_path : list N :=
  Py.lit "./1685435898.9404118_herd-scharfstein.pdf".

(** The path of the result file of [file_path]. *)
Definition result_path (file_path : list N) : list N :=
  Py.path_join (Py.lit "ocr_results")
               ((Py.path_split file_path).2 ++ Py.lit ".json").

(** The string the [for doc in documents] loop builds. *)
Definition joined (documents : list Document) : list N :=
  foldl (λ s doc, (s ++ page_content doc) ++ Py.nlnl) [] documents.

Section Process.
Context (B : Backend).

(** A run of a worker, or of a part of it. *)
Record run := mkRun {
  r_outcome : outcome;
  r_loader : option (Loader B);
  r_fs : gmap (list N) (list N);
  r_rest : list (option (list N));
  r_events : list event;
}.

Definition prepend (evs : list event) (r : run) : run :=
  mkRun (r_outcome r) (r_loader r) (r_fs r) (r_rest r) (evs ++ r_events r).

(** A run as the tuple of its parts. *)
Definition components (r : run)
  : outcome * option (Loader B) * gmap (list N) (list N)
    * list (option (list N)) * list event :=
  (r_outcome r, r_loader r, r_fs r, r_rest r, r_events r).

(** One turn of the [while] loop after [q.get()] returned the path
    [file_path]: load, open the result file, build the string, dump it.
    The result is how the turn ends, the loader and the files as the turn
    leaves them, and what the turn did. *)
Definition process_item (env : gmap (list N) (list N)) (loader : Loader B)
    (fs : gmap (list N) (list N)) (file_path : list N)
  : res unit * Loader B * gmap (list N) (list N) * list event :=
  let visible := env !! CUDA_VISIBLE_DEVICES in
  match load B env loader file_path fs with
  | (None, loader, fs) =>
      (Raise BackendError, loader, fs, [EvLoad file_path visible])
  | (Some documents, loader, fs) =>
      let path := result_path file_path in
      if can_create B path then
        let fs := <[path := []]> fs in
        let s := joined documents in
        let fs := <[path := Json.dumps s]> fs in
        (Ok (), loader, fs,
         [EvLoad file_path visible; EvDump path (Json.dumps s)])
      else (Raise OSError, loader, fs, [EvLoad file_path visible])
  end.

(** The [while True] loop, on the sequence of messages the queue delivers. *)
Fixpoint loop (env : gmap (list N) (list N)) (loader : Loader B)
    (fs : gmap (list N) (list N)) (q : list (option (list N))) : run :=
  match q with
  | [] => mkRun Blocked (Some loader) fs [] []
  | None :: rest => mkRun Returned (Some loader) fs rest [EvGet None]
  | Some file_path :: rest =>
      match process_item env loader fs file_path with
      | (Ok _, loader', fs', evs) =>
          prepend (EvGet (Some file_path) :: evs) (loop env loader' fs' rest)
      | (Raise e, loader', fs', evs) =>
          mkRun (Died e) (Some loader') fs' rest
                (EvGet (Some file_path) :: evs)
      end
  end.

(** [process_pdf(device, q)], started in a process whose environment is
    [env] and which sees the files [fs]. *)
Definition process_pdf (device : list N) (q : list (option (list N)))
    (env : gmap (list N) (list N)) (fs : gmap (list N) (list N)) : run :=
  match environ_error device with
  | Some e => mkRun (Died e) None fs q []
  | None =>
      let env := <[CUDA_VISIBLE_DEVICES := device]> env in
      let start :=
        [EvSetenv CUDA_VISIBLE_DEVICES device;
         EvConstruct (env !! CUDA_VISIBLE_DEVICES)] in
      match construct B env first_file_path device fs with
      | (None, fs) => mkRun (Died BackendError) None fs q start
      | (Some loader, fs) => prepend start (loop env loader fs q)
      end
  end.

End Process.

(** The messages a run took from its queue, in order. *)
Definition gets (evs : list event) : list (option (list N)) :=
  omap (λ e, match e with EvGet m => Some m | _ => None end) evs.

(** The paths a run called [load] on, in order. *)
Definition loads_of (evs : list event) : list (list N) :=
  omap (λ e, match e with EvLoad p _ => Some p | _ => None end) evs.

(** The result files a run wrote, in order. *)
Definition dumps_of (evs : list event) : list (list N * list N) :=
  omap (λ e, match e with EvDump p c => Some (p, c) | _ => None end) evs.


(** The device visibility in force at each call into the backend. *)
Definition visibles (evs : list event) : list (option (list N)) :=
  omap (λ e, match e with
             | EvConstruct v | EvLoad _ v => Some v
             | _ => None
             end) evs.

(** The assignments to the environment a run made. *)
Definition setenvs (evs : list event) : list (list N * list N) :=
  omap (λ e, match e with EvSetenv k v => Some (k, v) | _ => None end) evs.

End Worker.

(** ** The dispatcher: [parse_command] and the main program *)

Module Dispatcher.

(** The state of the main program: the list [devices], the store of queues
    (a queue is its index in the store; the store holds the messages put on
    it, oldest first), the list [q_list] of queues and the list [workers] of
    started processes, each with its two arguments. *)
Record state := mkState {
  devices : list (list N);
  store : list (list (option (list N)));
  q_list : list nat;
  workers : list (list N * nat);
}.

(** [parse_command()], given the value of [--on] when the option is there and
    the builtin [int] on strings.  The result is [None] when [--on] is
    absent. *)
Definition parse_command (int : list N → option Z) (on : option (list N))
  : res (option (list (list N))) :=
  match on with
  | None => Ok None
  | Some s =>
      match mapM (λ item, Py.str_int <$> int item) (Py.split Py.comma s) with
      | Some l => Ok (Some l)
      | None => Raise SystemExit
      end
  end.

(** [l.pop()]: the last element and the list without it. *)
Definition pop {A} (l : list A) : option (A * list A) :=
  match last l with
  | Some x => Some (x, take (length l - 1) l)
  | None => None
  end.

(** [queue.put(m)]. *)
Definition put (h : list (list (option (list N)))) (queue : nat)
    (m : option (list N)) : list (list (option (list N))) :=
  alter (λ c, c ++ [m]) queue h.

(** The [for i in range(procs)] loop with [n] turns left. *)
Fixpoint spawn (n : nat) (st : state) : res unit * state :=
  match n with
  | 0 => (Ok (), st)
  | S n' =>
      let q := length (store st) in
      let st := mkState (devices st) (store st ++ [[]]) (q_list st ++ [q])
                        (workers st) in
      match pop (devices st) with
      | None => (Raise IndexError, st)
      | Some (device, devices') =>
          spawn n' (mkState devices' (store st) (q_list st)
                            (workers st ++ [(device, q)]))
      end
  end.

(** The iterator [itertools.cycle(l)]: the saved elements and the position of
    the next one. *)
Record cycle_it := mkCycle {
  saved : list nat;
  pos : nat;
}.

Definition cycle (l : list nat) : cycle_it := mkCycle l 0.

Definition cycle_next (it : cycle_it) : option (nat * cycle_it) :=
  match saved it !! pos it with
  | Some x =>
      Some (x, mkCycle (saved it)
                       (if decide (S (pos it) < length (saved it))
                        then S (pos it) else 0))
  | None => None
  end.

(** [for file_path, queue in zip(pdf_files, it): queue.put(file_path)]. *)
Fixpoint distribute (h : list (list (option (list N)))) (it : cycle_it)
    (pdf_files : list (list N)) : list (list (option (list N))) :=
  match pdf_files with
  | [] => h
  | file_path :: rest =>
      match cycle_next it with
      | Some (queue, it') => distribute (put h queue (Some file_path)) it' rest
      | None => h
      end
  end.

(** [for queue in q_list: queue.put(None)]. *)
Definition close (h : list (list (option (list N)))) (q_list : list nat)
  : list (list (option (list N))) :=
  foldl (λ h queue, put h queue None) h q_list.

Definition pdf_directory : list N := Py.lit "/pdfs/".

(** The two list comprehensions that select the files to process, from the
    names [os.listdir] returned and [os.path.exists]. *)
Definition select (exists_ : list N → bool) (names : list (list N))
  : list (list N) :=
  let pdf_files :=
    Py.path_join pdf_directory
    <$> filter (λ f, Py.endswith f (Py.lit ".pdf")) names in
  filter (λ f, ¬ exists_ (Worker.result_path f)) pdf_files.

(** What the main program reads from outside. *)
Record input := mkInput {
  listdir : option (list (list N));
  exists_ : list N → bool;
  on : option (list N);
  int : list N → option Z;
}.

Definition initial : state := mkState [] [] [] [].

(** The main program up to the [join] loop. *)
Definition main (inp : input) : res unit * state :=
  match listdir inp with
  | None => (Raise OSError, initial)
  | Some names =>
      let pdf_files := select (exists_ inp) names in
      match parse_command (int inp) (on inp) with
      | Raise e => (Raise e, initial)
      | Ok None => (Raise TypeError, initial)
      | Ok (Some parsed) =>
          let procs := length parsed in
          match spawn procs (mkState parsed [] [] []) with
          | (Raise e, st) => (Raise e, st)
          | (Ok _, st) =>
              let h := distribute (store st) (cycle (q_list st)) pdf_files in
              let h := close h (q_list st) in
              (Ok (), mkState (devices st) h (q_list st) (workers st))
          end
      end
  end.

(** The result of the main program with its workers and queues. *)
Definition main_result_of (inp : input)
  : res unit * list (list N * nat) * list (list (option (list N))) :=
  let '(r, st) := main inp in (r, workers st, store st).

(** The runs of the workers the main program started, each on the messages
    its queue receives. *)
Definition runs (B : Worker.Backend) (env : gmap (list N) (list N))
    (fs : gmap (list N) (list N)) (st : state) : list (Worker.run B) :=
  (λ w, Worker.process_pdf B w.1 (default [] (store st !! w.2)) env fs)
  <$> workers st.

(** A name of the input directory is eligible when it ends in [.pdf] and
    no result file [ocr_results/<name>.json] exists. *)
Definition eligible (exists_ : list N → bool) (f : list N) : Prop :=
  Py.endswith f (Py.lit ".pdf")
  ∧ ¬ exists_ (Py.lit "ocr_results/" ++ f ++ Py.lit ".json").

#[export] Instance eligible_dec exists_ f : Decision (eligible exists_ f).
Proof. unfold eligible. apply _. Defined.

(** The elements of [l] at the positions [i] with [(s + i) mod n = j], in
    the order of [l]: what round-robin over [n] channels, the next of which
    is channel [s mod n], hands to channel [j]. *)
Fixpoint lane_from (n j s : nat) (l : list (list N)) : list (list N) :=
  match l with
  | [] => []
  | x :: l' =>
      (if decide (s mod n = j) then [x] else []) ++ lane_from n j (S s) l'
  end.

Definition lane (n j : nat) (l : list (list N)) : list (list N) :=
  lane_from n j 0 l.

End Dispatcher.

(** ** Stand-ins for the external collaborators, for the examples *)

Module Demo.

(** A document of two pages; a page and its image are the list of elements
    the recogniser finds on it. *)
Definition page0 : list Out :=
  [mkOut (Py.lit "Footer") (Py.lit "3");
   mkOut (Py.lit "Text") (Py.lit "Body");
   mkOut (Py.lit "Reference") (Py.lit "[1]");
   mkOut (Py.lit "Header") (Py.lit "Title");
   mkOut (Py.lit "Text") (Py.lit "More")].

Definition libs : Pix2Text.Libs := {|
  Pix2Text.Page := list Out;
  Pix2Text.Pixmap := list Out;
  Pix2Text.fitz_open := λ _, Some [page0; []];
  Pix2Text.get_pixmap := Some;
  Pix2Text.p2t := Some;
  Pix2Text.can_create := λ _, true;
|}.

Definition blob : Blob := mkBlob (Py.lit "/pdfs/a.pdf") (Py.lit "/pdfs/a.pdf").

(** A file system with one unrelated file and a stale page image. *)
Definition files : gmap (list N) (Pix2Text.fdata (list Out)) :=
  <[Py.lit "notes.txt" := Pix2Text.FText (Py.lit "keep")]>
  (<[Py.lit "a_page_1.png" := Pix2Text.FPng []]> ∅).

Definition doc0 : Document :=
  mkDocument (Py.lit "Title" ++ Py.nlnl ++ Py.lit "BodyMore" ++ Py.nlnl
              ++ Py.lit "3" ++ Py.nlnl)
             (Py.lit "/pdfs/a.pdf") 1.

Definition doc1 : Document :=
  mkDocument (Py.nlnl ++ Py.nlnl ++ Py.nlnl) (Py.lit "/pdfs/a.pdf") 2.

(** A stand-in for the builtin [int] on strings: it reads a non-empty string
    of ASCII digits, which is all the examples give it. *)
Fixpoint digits (acc : Z) (s : list N) : option Z :=
  match s with
  | [] => Some acc
  | c :: s' =>
      if ((48 <=? c) && (c <=? 57))%N
      then digits (acc * 10 + Z.of_N (c - 48)) s'
      else None
  end.

Definition int_ascii (s : list N) : option Z :=
  match s with
  | [] => None
  | _ => digits 0 s
  end.

(** The input directory holds [a.pdf], [b.pdf] and [notes.txt], the result of
    [a.pdf] exists, and the devices are [2,7]. *)
Definition input : Dispatcher.input := {|
  Dispatcher.listdir := Some [Py.lit "a.pdf"; Py.lit "b.pdf"; Py.lit "notes.txt"];
  Dispatcher.exists_ := λ p, bool_decide (p = Py.lit "ocr_results/a.pdf.json");
  Dispatcher.on := Some (Py.lit "2,7");
  Dispatcher.int := int_ascii;
|}.

(** The input directory holds [x.pdf], [y.pdf] and [z.pdf], no result exists,
    and the devices are [0,1]. *)
Definition scenario : Dispatcher.input := {|
  Dispatcher.listdir := Some [Py.lit "x.pdf"; Py.lit "y.pdf"; Py.lit "z.pdf"];
  Dispatcher.exists_ := λ _, false;
  Dispatcher.on := Some (Py.lit "0,1");
  Dispatcher.int := int_ascii;
|}.

(** A backend that cannot read [/pdfs/bad.pdf], refuses to be constructed
    when the visible device is not the one it is given, and for any other
    path returns the two pages [Hello] and [World]; its loader counts the
    calls of [load].  Like the Pix2Text parser it works on an image of the
    first page in the working directory, which a [load] that returns has
    removed and a [load] that raises leaves behind. *)
Definition backend : Worker.Backend := {|
  Worker.Loader := nat;
  Worker.construct := λ env _ device fs,
    if decide (env !! Worker.CUDA_VISIBLE_DEVICES = Some device)
    then (Some 0, fs) else (None, fs);
  Worker.load := λ _ n p fs,
    let image := Pix2Text.png_name (Pix2Text.pdf_name_of p) 0 in
    if decide (p = Py.lit "/pdfs/bad.pdf")
    then (None, S n, <[image := Py.lit "PNG"]> fs)
    else (Some [mkDocument (Py.lit "Hello") p 1;
                mkDocument (Py.lit "World") p 2], S n, delete image fs);
  Worker.can_create := λ _, true;
|}.

End Demo.

(** ** Further vocabulary for strings *)

Module PyStr.

(** [sep.join(l)] for a one-character separator. *)
Fixpoint join (sep : N) (l : list (list N)) : list N :=
  match l with
  | [] => []
  | x :: rest =>
      match rest with
      | [] => x
      | _ :: _ => x ++ sep :: join sep rest
      end
  end.

(** [s.count(c)]. *)
Definition count (c : N) (s : list N) : nat := length (filter (c =.) s).

(** A printable ASCII character. *)
Definition printable (c : N) : Prop := (32 ≤ c ≤ 126)%N.

End PyStr.

(** ** The file system as the main program sees it *)

(** [os.path.exists(p)] on the files [fs]. *)
Definition path_exists (fs : gmap (list N) (list N)) (p : list N) : bool :=
  bool_decide (is_Some (fs !! p)).

(** ** More stand-ins for the examples *)

Module Demo2.

(** The backend of [Demo], on a disk where [ocr_results/b.pdf.json] cannot
    be created. *)
Definition no_room : Worker.Backend := {|
  Worker.Loader := nat;
  Worker.construct := Worker.construct Demo.backend;
  Worker.load := Worker.load Demo.backend;
  Worker.can_create := λ p,
    negb (bool_decide (p = Py.lit "ocr_results/b.pdf.json"));
|}.

(** The libraries of [Demo] with a recogniser that raises on a page on
    which it finds nothing: the second page of the document. *)
Definition flaky : Pix2Text.Libs := {|
  Pix2Text.Page := list Out;
  Pix2Text.Pixmap := list Out;
  Pix2Text.fitz_open := λ _, Some [Demo.page0; []];
  Pix2Text.get_pixmap := Some;
  Pix2Text.p2t := λ outs, match outs with [] => None | _ => Some outs end;
  Pix2Text.can_create := λ _, true;
|}.

End Demo2.

(** ** The other parsers of [parsers/pdf.py] *)

Module Parsers.

(** A Python value as metadata holds it: a string, an integer, or a value of
    another type (told apart by a tag). *)
Inductive pyval :=
| VStr (s : list N)
| VInt (z : Z)
| VOther (tag : N).

(** A [Document] with its metadata dict. *)
Record Doc := mkDoc {
  doc_content : list N;
  doc_metadata : gmap (list N) pyval;
}.

(** [type(v) in [str, int]]. *)
Definition str_or_int (v : pyval) : bool :=
  match v with
  | VStr _ | VInt _ => true
  | VOther _ => false
  end.

(** What [next(gen)] gives. *)
Inductive signal :=
| Yield (d : Doc)
| StopIteration
| Raised (e : exn).

(** *** Parsers that [yield from] a list

    [PyPDFParser], [PyMuPDFParser] and [PDFPlumberParser] build the list of
    all their documents and then [yield from] it.  [build] is that list, or
    [None] when building it raises. *)

(** The generator: not started, yielding from the rest of the list, or
    finished. *)
Inductive egen :=
| EStart
| ERest (rest : list Doc)
| EDone.

Definition eager_from (rest : list Doc) : signal * egen :=
  match rest with
  | [] => (StopIteration, EDone)
  | d :: rest' => (Yield d, ERest rest')
  end.

(** [next(gen)]. *)
Definition eager_next (build : option (list Doc)) (g : egen)
  : signal * egen :=
  match g with
  | EStart =>
      match build with
      | None => (Raised BackendError, EDone)
      | Some ds => eager_from ds
      end
  | ERest rest => eager_from rest
  | EDone => (StopIteration, EDone)
  end.

(** [k] calls of [next(gen)] that each yield a document. *)
Fixpoint eager_nexts (build : option (list Doc)) (k : nat) (g : egen)
  : option (list Doc * egen) :=
  match k with
  | 0 => Some ([], g)
  | S k' =>
      match eager_next build g with
      | (Yield d, g') =>
          match eager_nexts build k' g' with
          | Some (ds, g'') => Some (d :: ds, g'')
          | None => None
          end
      | _ => None
      end
  end.

(** [PyPDFParser]: [open_pdf] is [pypdf.PdfReader(...).pages], [extract] is
    [page.extract_text()]; either may raise. *)
Definition pypdf_doc {Page} (extract : Page → option (list N))
    (source : pyval) (page_number : nat) (page : Page) : option Doc :=
  text ← extract page;
  Some (mkDoc text
          (<[Py.lit "source" := source]>
           (<[Py.lit "page" := VInt (Z.of_nat page_number)]> ∅))).

Definition pypdf_build {Page} (open_pdf : option (list Page))
    (extract : Page → option (list N)) (source : pyval)
  : option (list Doc) :=
  pages ← open_pdf;
  mapM id (imap (pypdf_doc extract source) pages).

(** [PyMuPDFParser] and [PDFPlumberParser]: a document with its pages and
    its metadata dict; a page with its number and its text.  [dict(base,
    **extra)] is [base] updated with [extra]. *)
Record PdfDoc (Page : Type) := mkPdfDoc {
  pdf_pages : list Page;
  pdf_metadata : gmap (list N) pyval;
}.
Arguments pdf_pages {Page} _.
Arguments pdf_metadata {Page} _.

Definition merged_metadata (source : pyval) (page_no : Z) (total : nat)
    (meta : gmap (list N) pyval) : gmap (list N) pyval :=
  filter (λ kv, str_or_int kv.2) meta
  ∪ (<[Py.lit "source" := source]>
     (<[Py.lit "file_path" := source]>
      (<[Py.lit "page" := VInt page_no]>
       (<[Py.lit "total_pages" := VInt (Z.of_nat total)]> ∅)))).

Definition mupdf_doc {Page} (number : Page → Z)
    (get_text : Page → option (list N)) (source : pyval)
    (doc : PdfDoc Page) (page : Page) : option Doc :=
  text ← get_text page;
  Some (mkDoc text
          (merged_metadata source (number page) (length (pdf_pages doc))
                           (pdf_metadata doc))).

Definition mupdf_build {Page} (open_pdf : option (PdfDoc Page))
    (number : Page → Z) (get_text : Page → option (list N))
    (source : pyval) : option (list Doc) :=
  doc ← open_pdf;
  mapM (mupdf_doc number get_text source doc) (pdf_pages doc).

End Parsers.

(** ** [PyPDFium2Parser.lazy_parse] *)

Module Pdfium.

(** What the library does on one page of the document: everything returns
    and [get_text_range] gives the text, or loading the page raises, or
    [page.get_textpage()] raises, or [text_page.get_text_range()] raises. *)
Inductive page_behaviour :=
| Good (text : list N)
| NoPage
| NoTextPage
| NoRange.

(** The handles the generator opens and closes: the [with] block around
    [blob.as_bytes_io()], the document, and per page index the page and its
    text page. *)
Inductive event :=
| EvEnter
| EvExit
| EvOpenDoc
| EvCloseDoc
| EvOpenPage (i : nat)
| EvClosePage (i : nat)
| EvOpenTextPage (i : nat)
| EvCloseTextPage (i : nat).

(** The generator: not started, suspended at the [yield] before page [idx]
    with the pages still to come, or finished. *)
Inductive gen :=
| GStart
| GSuspended (idx : nat) (rest : list page_behaviour)
| GDone.

(** The [finally] clause and the end of the [with] block. *)
Definition finish : list event := [EvCloseDoc; EvExit].

Definition page_doc (source : Parsers.pyval) (idx : nat) (text : list N)
  : Parsers.Doc :=
  Parsers.mkDoc text
    (<[Py.lit "source" := source]>
     (<[Py.lit "page" := Parsers.VInt (Z.of_nat idx)]> ∅)).

(** The [for] loop from page [idx] on, up to its next [yield] or its end. *)
Definition resume (source : Parsers.pyval) (idx : nat)
    (rest : list page_behaviour) : Parsers.signal * gen * list event :=
  match rest with
  | [] => (Parsers.StopIteration, GDone, finish)
  | NoPage :: _ => (Parsers.Raised BackendError, GDone, finish)
  | NoTextPage :: _ =>
      (Parsers.Raised BackendError, GDone, EvOpenPage idx :: finish)
  | NoRange :: _ =>
      (Parsers.Raised BackendError, GDone,
       EvOpenPage idx :: EvOpenTextPage idx :: finish)
  | Good text :: rest' =>
      (Parsers.Yield (page_doc source idx text), GSuspended (S idx) rest',
       [EvOpenPage idx; EvOpenTextPage idx; EvCloseTextPage idx;
        EvClosePage idx])
  end.

(** [next(gen)]; [open_pdf] is [pypdfium2.PdfDocument(...)], [None] when it
    raises. *)
Definition next (open_pdf : option (list page_behaviour))
    (source : Parsers.pyval) (g : gen) : Parsers.signal * gen * list event :=
  match g with
  | GStart =>
      match open_pdf with
      | None => (Parsers.Raised BackendError, GDone, [EvEnter; EvExit])
      | Some pages =>
          let '(s, g', evs) := resume source 0 pages in
          (s, g', EvEnter :: EvOpenDoc :: evs)
      end
  | GSuspended idx rest => resume source idx rest
  | GDone => (Parsers.StopIteration, GDone, [])
  end.

(** [gen.close()]: a generator suspended at its [yield] runs its [finally]
    clause; one that was never started runs nothing. *)
Definition close (g : gen) : gen * list event :=
  match g with
  | GStart => (GDone, [])
  | GSuspended _ _ => (GDone, finish)
  | GDone => (GDone, [])
  end.

(** What a consumer does with the generator. *)
Inductive op :=
| Next
| Close.

(** The generator, the events and the signals after the operations [ops]. *)
Fixpoint run (open_pdf : option (list page_behaviour))
    (source : Parsers.pyval) (ops : list op) (g : gen)
  : gen * list event * list Parsers.signal :=
  match ops with
  | [] => (g, [], [])
  | Next :: ops' =>
      let '(s, g', evs) := next open_pdf source g in
      let '(g'', evs', sigs) := run open_pdf source ops' g' in
      (g'', evs ++ evs', s :: sigs)
  | Close :: ops' =>
      let '(g', evs) := close g in
      let '(g'', evs', sigs) := run open_pdf source ops' g' in
      (g'', evs ++ evs', sigs)
  end.

(** The handles that are open. *)
Record handles := mkHandles {
  in_with : bool;
  doc_open : bool;
  pages_open : gset nat;
  text_pages_open : gset nat;
}.

Definition none_open : handles := mkHandles false false ∅ ∅.

(** The effect of an event on the open handles; [None] when the event is
    out of order: a handle opened twice or closed when not open, a page or
    text page used when the document is closed, a page closed before its
    text page, the [with] block left before the document is closed. *)
Definition step (h : handles) (e : event) : option handles :=
  match e with
  | EvEnter =>
      if in_with h then None
      else Some (mkHandles true (doc_open h) (pages_open h)
                           (text_pages_open h))
  | EvExit =>
      if in_with h && negb (doc_open h)
      then Some (mkHandles false false (pages_open h) (text_pages_open h))
      else None
  | EvOpenDoc =>
      if in_with h && negb (doc_open h)
      then Some (mkHandles true true (pages_open h) (text_pages_open h))
      else None
  | EvCloseDoc =>
      if doc_open h
      then Some (mkHandles (in_with h) false (pages_open h)
                           (text_pages_open h))
      else None
  | EvOpenPage i =>
      if doc_open h && bool_decide (i ∉ pages_open h)
      then Some (mkHandles (in_with h) true ({[i]} ∪ pages_open h)
                           (text_pages_open h))
      else None
  | EvClosePage i =>
      if doc_open h && bool_decide (i ∈ pages_open h)
         && bool_decide (i ∉ text_pages_open h)
      then Some (mkHandles (in_with h) true (pages_open h ∖ {[i]})
                           (text_pages_open h))
      else None
  | EvOpenTextPage i =>
      if doc_open h && bool_decide (i ∈ pages_open h)
         && bool_decide (i ∉ text_pages_open h)
      then Some (mkHandles (in_with h) true (pages_open h)
                           ({[i]} ∪ text_pages_open h))
      else None
  | EvCloseTextPage i =>
      if doc_open h && bool_decide (i ∈ text_pages_open h)
      then Some (mkHandles (in_with h) true (pages_open h)
                           (text_pages_open h ∖ {[i]}))
      else None
  end.

(** The open handles after a sequence of events, if all are in order. *)
Definition after (h : handles) (evs : list event) : option handles :=
  foldl (λ oh e, oh ≫= λ h, step h e) (Some h) evs.

(** No signal is an exception. *)
Definition no_raise (sigs : list Parsers.signal) : Prop :=
  ∀ e, Parsers.Raised e ∉ sigs.

End Pdfium.

(** ** Stand-ins for the other parsers *)

Module Demo3.

(** A PDF of two pages whose metadata has a title, a string under the key
    [page] and an entry that is neither a string nor an integer. *)
Definition titled : Parsers.PdfDoc (list N) :=
  Parsers.mkPdfDoc (list N) [Py.lit "first"; Py.lit "second"]
    (<[Py.lit "title" := Parsers.VStr (Py.lit "T")]>
     (<[Py.lit "page" := Parsers.VStr (Py.lit "cover")]>
      (<[Py.lit "encryption" := Parsers.VOther 0]> ∅))).

End Demo3.

(** * Properties *)

Example split_devices :
  Py.split Py.comma (Py.lit "0,1,2") = [Py.lit "0"; Py.lit "1"; Py.lit "2"].
Proof. reflexivity. Qed.

Example split_empty : Py.split Py.comma [] = [[]].
Proof. reflexivity. Qed.

Example path_split_pdf :
  Py.path_split (Py.lit "/pdfs/a.pdf") = (Py.lit "/pdfs", Py.lit "a.pdf").
Proof. vm_compute. reflexivity. Qed.

Example splitext_pdf :
  Py.splitext (Py.lit "a.b.pdf") = (Py.lit "a.b", Py.lit ".pdf").
Proof. vm_compute. reflexivity. Qed.

Example splitext_hidden :
  Py.splitext (Py.lit "/x/.bashrc") = (Py.lit "/x/.bashrc", []).
Proof. vm_compute. reflexivity. Qed.

Example str_int_12 : Py.str_int 12 = Py.lit "12".
Proof. reflexivity. Qed.

Example str_int_0 : Py.str_int 0 = Py.lit "0".
Proof. reflexivity. Qed.

(** The scenario of the specification: devices [0,1] and the files [x.pdf],
    [y.pdf], [z.pdf].  The first worker, on the first queue, holds device 1. *)
Example main_scenario :
  Dispatcher.main_result_of Demo.scenario =
  (Ok (),
   [(Py.lit "1", 0); (Py.lit "0", 1)],
   [[Some (Py.lit "/pdfs/x.pdf"); Some (Py.lit "/pdfs/z.pdf"); None];
    [Some (Py.lit "/pdfs/y.pdf"); None]]).
Proof. vm_compute. reflexivity. Qed.

(** A run of a worker over two good files and the sentinel. *)
Example worker_scenario :
  let r := Worker.process_pdf Demo.backend (Py.lit "1")
             [Some (Py.lit "/pdfs/x.pdf"); Some (Py.lit "/pdfs/z.pdf"); None]
             ∅ ∅ in
  Worker.r_outcome _ r = Worker.Returned
  ∧ Worker.r_loader _ r = Some 2
  ∧ dom (Worker.r_fs _ r) =
    {[Py.lit "ocr_results/x.pdf.json"; Py.lit "ocr_results/z.pdf.json"]}
  ∧ Worker.gets (Worker.r_events _ r) =
    [Some (Py.lit "/pdfs/x.pdf"); Some (Py.lit "/pdfs/z.pdf"); None].
Proof. cbn zeta. split; [|split; [|split]]; vm_compute; reflexivity. Qed.

Example dumps_hello :
  Json.dumps (Py.lit "Hello" ++ Py.nlnl) =
  34%N :: Py.lit "Hello\n\n" ++ [34%N].
Proof. vm_compute. reflexivity. Qed.

Example loads_hello :
  Json.loads (Json.dumps (Py.lit "Hello" ++ Py.nlnl ++ [233; 0x1F600; 34; 92; 0xd800]%N)) =
  Some (Py.lit "Hello" ++ Py.nlnl ++ [233; 0x1F600; 34; 92; 0xd800]%N).
Proof. vm_compute. reflexivity. Qed.

(** ** Paths *)

Module PyFacts.
Import Py.

Lemma rfind_None c s : rfind c s = None ↔ c ∉ s.
Proof.
  induction s as [|x s IH]; simpl.
  - split; [intros _; apply not_elem_of_nil|done].
  - destruct (rfind c s) as [i|].
    + split; [done|]. intros Hn. apply not_elem_of_cons in Hn as [_ Hn].
      by apply IH in Hn.
    + destruct (decide (x = c)) as [->|Hne].
      * split; [done|]. intros Hn. apply not_elem_of_cons in Hn as [Hn _].
        done.
      * split; [|done]. intros _. apply not_elem_of_cons. split; [done|].
        by apply IH.
Qed.

Lemma rfind_Some c s i :
  rfind c s = Some i → s !! i = Some c ∧ c ∉ drop (S i) s.
Proof.
  revert i. induction s as [|x s IH]; intros i; simpl; [done|].
  destruct (rfind c s) as [k|] eqn:Hk.
  - intros [= <-]. simpl. by apply IH.
  - destruct (decide (x = c)) as [->|Hne]; [|done].
    intros [= <-]. simpl. split; [done|]. rewrite drop_0.
    by apply rfind_None.
Qed.

Lemma rfind_app c a b :
  rfind c (a ++ b) =
  match rfind c b with
  | Some i => Some (length a + i)
  | None => rfind c a
  end.
Proof.
  induction a as [|x a IH]; simpl.
  - by destruct (rfind c b).
  - rewrite IH. by destruct (rfind c b).
Qed.

(** The last component of a path has no slash in it. *)
Lemma basename_no_slash p : slash ∉ basename p.
Proof.
  unfold basename, rfind1. destruct (rfind slash p) as [i|] eqn:Hi.
  - by apply rfind_Some in Hi as [_ Hi].
  - rewrite drop_0. by apply rfind_None.
Qed.

Lemma path_split_2 p : (path_split p).2 = basename p.
Proof. reflexivity. Qed.

(** After a directory that ends in a slash, a name without a slash is the
    last component. *)
Lemma basename_app d f : slash ∉ f → basename ((d ++ [slash]) ++ f) = f.
Proof.
  intros Hf. unfold basename, rfind1. rewrite rfind_app.
  rewrite (proj2 (rfind_None slash f) Hf). rewrite rfind_app. simpl.
  rewrite drop_app_length'; [done|].
  rewrite length_app. simpl. lia.
Qed.

Lemma startswith_slash_false b :
  (∀ k, b ≠ slash :: k) → startswith b [slash] = false.
Proof.
  intros H. unfold startswith. apply bool_decide_eq_false.
  intros [k Hk]. by apply (H k).
Qed.

Lemma path_join_dir d f :
  slash ∉ f → path_join (d ++ [slash]) f = (d ++ [slash]) ++ f.
Proof.
  intros Hf. unfold path_join. rewrite startswith_slash_false.
  2:{ intros k ->. apply Hf. apply elem_of_cons. by left. }
  replace (endswith (d ++ [slash]) [slash]) with true.
  - by rewrite orb_true_r.
  - symmetry. unfold endswith. apply bool_decide_eq_true. by exists d.
Qed.

Lemma path_join_name d b :
  d ≠ [] → endswith d [slash] = false → (∀ k, b ≠ slash :: k) →
  path_join d b = d ++ slash :: b.
Proof.
  intros Hd He Hb. unfold path_join.
  rewrite startswith_slash_false by done.
  rewrite He. by rewrite bool_decide_eq_false_2.
Qed.

End PyFacts.

(** ** The characters of a printed integer *)

Module IntFacts.
Import Py.

Lemma string_of_uint_chars (d : Decimal.uint) :
  Forall (λ c, (c = 45 ∨ 48 ≤ c ≤ 57)%N) (lit (NilEmpty.string_of_uint d)).
Proof.
  induction d; cbn [NilEmpty.string_of_uint];
    try apply Forall_nil_2;
    (apply Forall_cons; split; [right; vm_compute; split; discriminate|done]).
Qed.

Lemma str_int_chars z : Forall (λ c, (c = 45 ∨ 48 ≤ c ≤ 57)%N) (str_int z).
Proof.
  unfold str_int. destruct (Z.to_int z) as [d|d]; cbn [NilZero.string_of_int].
  - destruct d; try apply string_of_uint_chars.
    apply Forall_singleton. right. vm_compute. split; discriminate.
  - apply Forall_cons. split; [by left|].
    destruct d; try apply string_of_uint_chars.
    apply Forall_singleton. right. vm_compute. split; discriminate.
Qed.

End IntFacts.

(** ** The page text of the Pix2Text parser *)

Module Pix2TextFacts.
Import Pix2Text.

Lemma texts_cons P `{∀ o, Decision (P o)} o outs :
  texts P (o :: outs) = (if decide (P o) then out_text o else []) ++ texts P outs.
Proof.
  unfold texts. rewrite filter_cons. destruct (decide (P o)); reflexivity.
Qed.

Lemma header_not_footer o : is_header o → ¬ is_footer o.
Proof. unfold is_header, is_footer. intros -> E. vm_compute in E. discriminate. Qed.

Lemma reference_not_header o : is_reference o → ¬ is_header o.
Proof. unfold is_header, is_reference. intros -> E. vm_compute in E. discriminate. Qed.

Lemma reference_not_footer o : is_reference o → ¬ is_footer o.
Proof. unfold is_footer, is_reference. intros -> E. vm_compute in E. discriminate. Qed.

Lemma reference_not_footer_inv o : is_footer o → ¬ is_reference o.
Proof. intros Hf Hr. by apply (reference_not_footer o). Qed.

(** The loop over [outs] appends to each accumulator the texts of its class. *)
Lemma foldl_classify outs h b f :
  foldl classify (h, b, f) outs =
  (h ++ texts is_header outs, b ++ texts is_body outs,
   f ++ texts is_footer outs).
Proof.
  revert h b f. induction outs as [|o outs IH]; intros h b f.
  - unfold texts. simpl. by rewrite !app_nil_r.
  - simpl. rewrite !texts_cons.
    destruct (decide (out_type o = Py.lit "Footer")) as [Hf|Hf].
    { rewrite IH.
      rewrite (decide_True (P := is_footer o)) by exact Hf.
      rewrite (decide_False (P := is_header o)).
      2:{ intros Hh. by apply (header_not_footer o). }
      rewrite (decide_False (P := is_body o)).
      2:{ intros (_ & Hn & _). by apply Hn. }
      simpl. by rewrite <- ?app_assoc. }
    destruct (decide (out_type o = Py.lit "Header")) as [Hh|Hh].
    { rewrite IH.
      rewrite (decide_True (P := is_header o)) by exact Hh.
      rewrite (decide_False (P := is_footer o)) by exact Hf.
      rewrite (decide_False (P := is_body o)).
      2:{ intros (Hn & _). by apply Hn. }
      simpl. by rewrite <- ?app_assoc. }
    destruct (decide (out_type o = Py.lit "Reference")) as [Hr|Hr].
    { rewrite IH.
      rewrite (decide_False (P := is_header o)) by exact Hh.
      rewrite (decide_False (P := is_footer o)) by exact Hf.
      rewrite (decide_False (P := is_body o)).
      2:{ intros (_ & _ & Hn). by apply Hn. }
      done. }
    rewrite IH.
    rewrite (decide_False (P := is_header o)) by exact Hh.
    rewrite (decide_False (P := is_footer o)) by exact Hf.
    rewrite (decide_True (P := is_body o)) by done.
    simpl. by rewrite <- ?app_assoc.
Qed.

Lemma only_text_eq outs :
  only_text outs =
  texts is_header outs ++ Py.nlnl ++ texts is_body outs ++ Py.nlnl
  ++ texts is_footer outs ++ Py.nlnl.
Proof.
  unfold only_text. rewrite foldl_classify. simpl.
  by rewrite <- !app_assoc.
Qed.

Lemma texts_app P `{∀ o, Decision (P o)} (a b : list Out) :
  texts P (a ++ b) = texts P a ++ texts P b.
Proof. unfold texts. by rewrite filter_app, fmap_app, concat_app. Qed.

Lemma texts_filter_incl P Q `{∀ o, Decision (P o)} `{∀ o, Decision (Q o)}
    (outs : list Out) :
  (∀ o, P o → Q o) → texts P (filter Q outs) = texts P outs.
Proof.
  intros HPQ. induction outs as [|o outs IH]; [done|].
  rewrite filter_cons. destruct (decide (Q o)) as [HQ|HQ].
  - by rewrite !texts_cons, IH.
  - rewrite texts_cons, IH. rewrite decide_False; [done|]. naive_solver.
Qed.

Lemma texts_filter_disj P Q `{∀ o, Decision (P o)} `{∀ o, Decision (Q o)}
    (outs : list Out) :
  (∀ o, P o → Q o → False) → texts P (filter Q outs) = [].
Proof.
  intros HPQ. induction outs as [|o outs IH]; [done|].
  rewrite filter_cons. destruct (decide (Q o)) as [HQ|HQ]; [|done].
  rewrite texts_cons, IH. rewrite decide_False; [done|]. naive_solver.
Qed.

(** Elements of type ['Reference'] do not reach the page text. *)
Lemma only_text_drop_references (outs : list Out) :
  only_text (filter (λ o, ¬ is_reference o) outs) = only_text outs.
Proof.
  rewrite !only_text_eq. rewrite !texts_filter_incl; [done|..].
  - intros o Hf. by apply reference_not_footer_inv.
  - intros o (_ & _ & Hb). exact Hb.
  - intros o Hh Hr. by apply (reference_not_header o).
Qed.

(** The page text depends only on the elements of each class in their order,
    not on how the classes are interleaved in [outs]. *)
Lemma only_text_grouped (outs : list Out) :
  only_text (filter is_header outs ++ filter is_body outs
             ++ filter is_footer outs) = only_text outs.
Proof.
  rewrite !only_text_eq, !texts_app.
  rewrite (texts_filter_incl is_header is_header) by done.
  rewrite (texts_filter_incl is_body is_body) by done.
  rewrite (texts_filter_incl is_footer is_footer) by done.
  rewrite (texts_filter_disj is_header is_body) by (intros o Hh (Hn & _); done).
  rewrite (texts_filter_disj is_header is_footer)
    by (intros o Hh Hf; by apply (header_not_footer o)).
  rewrite (texts_filter_disj is_body is_header) by (intros o (Hn & _) Hh; done).
  rewrite (texts_filter_disj is_body is_footer)
    by (intros o (_ & Hn & _) Hf; done).
  rewrite (texts_filter_disj is_footer is_header)
    by (intros o Hf Hh; by apply (header_not_footer o)).
  rewrite (texts_filter_disj is_footer is_body)
    by (intros o Hf (_ & Hn & _); done).
  simpl. by rewrite !app_nil_r.
Qed.

End Pix2TextFacts.

(** ** The page images of the Pix2Text parser *)

Module TempFiles.
Import Pix2Text.

Section WithLibs.
Context (L : Libs).

(** What a turn of the loop that reaches its [yield] has done. *)
Lemma page_step_ok (blob : Blob) (pdf_name : list N) (idx : nat)
    (page : Page L) (fs fs' : gmap (list N) (fdata (Pixmap L)))
    (d : Document) :
  page_step L blob pdf_name idx page fs = (Ok d, fs') →
  fs' = delete (png_name pdf_name idx) fs
  ∧ meta_page d = idx + 1
  ∧ meta_source d = blob_source blob
  ∧ ∃ pix outs, get_pixmap L page = Some pix ∧ p2t L pix = Some outs
                ∧ page_content d = only_text outs.
Proof.
  unfold page_step. intros H.
  destruct (get_pixmap L page) as [pix|]; [|discriminate].
  destruct (can_create L (png_name pdf_name idx)); [|discriminate].
  rewrite lookup_insert_eq in H.
  destruct (p2t L pix) as [outs|] eqn:Hp; [|discriminate].
  inversion H; subst; clear H. rewrite delete_insert_eq.
  repeat split. by exists pix, outs.
Qed.

(** A turn of the loop that raises leaves the page image behind when the
    recogniser is what failed. *)
Lemma page_step_recogniser_fails (blob : Blob) (pdf_name : list N)
    (idx : nat) (page : Page L) (pix : Pixmap L)
    (fs : gmap (list N) (fdata (Pixmap L))) :
  get_pixmap L page = Some pix →
  can_create L (png_name pdf_name idx) = true →
  p2t L pix = None →
  page_step L blob pdf_name idx page fs =
  (Raise BackendError, <[png_name pdf_name idx := FPng pix]> fs).
Proof.
  intros H1 H2 H3. unfold page_step. rewrite H1, H2.
  rewrite lookup_insert_eq. by rewrite H3.
Qed.

Lemma nexts_pages (k : nat) : ∀ (blob : Blob) (pdf_name : list N) (idx : nat)
    (pages : list (Page L)) (fs fs' : gmap (list N) (fdata (Pixmap L)))
    (ds : list Document) (g' : gen L),
  nexts L k (GPages L blob pdf_name idx pages) fs = Some (ds, g', fs') →
  length ds = k
  ∧ g' = GPages L blob pdf_name (idx + k) (drop k pages)
  ∧ (∀ p, p ∈ temps pdf_name idx k → fs' !! p = None)
  ∧ (∀ p, p ∉ temps pdf_name idx k → fs' !! p = fs !! p)
  ∧ (∀ i d, ds !! i = Some d → meta_page d = idx + i + 1).
Proof.
  induction k as [|k IH]; intros blob pdf_name idx pages fs fs' ds g' H.
  - simpl in H. inversion H; subst; clear H.
    rewrite Nat.add_0_r, drop_0. repeat split; try done.
    intros p Hp. unfold temps in Hp. simpl in Hp. by apply elem_of_nil in Hp.
  - simpl in H. destruct pages as [|page rest]; [discriminate|].
    simpl in H.
    destruct (page_step L blob pdf_name idx page fs) as [[d|e] fs1] eqn:Hs;
      [|discriminate].
    destruct (nexts L k (GPages L blob pdf_name (S idx) rest) fs1)
      as [[[ds1 g1] fs2]|] eqn:Hn; [|discriminate].
    inversion H; subst; clear H.
    apply page_step_ok in Hs as (Hfs & Hpage & _).
    apply IH in Hn as (Hlen & Hg & Hin & Hout & Hmeta).
    unfold temps in *. simpl.
    repeat split.
    + by rewrite Hlen.
    + rewrite Hg. f_equal. lia.
    + intros p Hp. apply elem_of_cons in Hp as [->|Hp].
      * destruct (decide (png_name pdf_name idx
                          ∈ png_name pdf_name <$> seq (S idx) k)) as [Hi|Hi].
        { by apply Hin. }
        rewrite (Hout _ Hi), Hfs. apply lookup_delete_eq.
      * by apply Hin.
    + intros p Hp. apply not_elem_of_cons in Hp as [Hne Hp].
      rewrite (Hout _ Hp), Hfs. by apply lookup_delete_ne.
    + intros [|i] d' Hd; simpl in Hd.
      * inversion Hd; subst. lia.
      * apply Hmeta in Hd. lia.
Qed.

Lemma run_pages_nexts : ∀ (pages : list (Page L)) (blob : Blob)
    (pdf_name : list N) (idx : nat)
    (fs fs' : gmap (list N) (fdata (Pixmap L))) (ds : list Document),
  run_pages L blob pdf_name idx pages fs = (Ok ds, fs') →
  nexts L (length pages) (GPages L blob pdf_name idx pages) fs =
  Some (ds, GPages L blob pdf_name (idx + length pages) [], fs')
  ∧ length ds = length pages.
Proof.
  induction pages as [|page rest IH]; intros blob pdf_name idx fs fs' ds H.
  - simpl in *. inversion H; subst. by rewrite Nat.add_0_r.
  - simpl in *.
    destruct (page_step L blob pdf_name idx page fs) as [[d|e] fs1] eqn:Hs;
      [|discriminate].
    destruct (run_pages L blob pdf_name (S idx) rest fs1)
      as [[ds1|e] fs2] eqn:Hr; [|discriminate].
    inversion H; subst; clear H.
    apply IH in Hr as [-> Hlen]. simpl. split; [|by rewrite Hlen].
    by rewrite Nat.add_succ_r.
Qed.

(** The first [next] of a fresh generator opens the document. *)
Lemma nexts_start (k : nat) (blob : Blob)
    (fs : gmap (list N) (fdata (Pixmap L))) (pages : list (Page L)) :
  fitz_open L (blob_path blob) = Some pages →
  nexts L (S k) (lazy_parse L blob) fs =
  nexts L (S k) (GPages L blob (pdf_name_of (blob_path blob)) 0 pages) fs.
Proof. intros H. simpl. by rewrite H. Qed.

Lemma nexts_lazy_parse (k : nat) (blob : Blob)
    (fs fs' : gmap (list N) (fdata (Pixmap L))) (ds : list Document)
    (g' : gen L) :
  nexts L k (lazy_parse L blob) fs = Some (ds, g', fs') →
  length ds = k
  ∧ (∀ i, i < k →
       fs' !! png_name (pdf_name_of (blob_path blob)) i = None)
  ∧ (∀ p, p ∉ temps (pdf_name_of (blob_path blob)) 0 k → fs' !! p = fs !! p)
  ∧ (∀ i d, ds !! i = Some d → meta_page d = i + 1).
Proof.
  destruct k as [|k].
  - simpl. intros H. inversion H; subst. repeat split; try done. lia.
  - intros H.
    destruct (fitz_open L (blob_path blob)) as [pages|] eqn:Ho.
    2:{ simpl in H. by rewrite Ho in H. }
    rewrite (nexts_start _ _ _ _ Ho) in H.
    apply nexts_pages in H as (Hlen & _ & Hin & Hout & Hmeta).
    repeat split; try done.
    intros i Hi. apply Hin. unfold temps.
    apply list_elem_of_fmap. exists i. split; [done|].
    apply elem_of_seq. lia.
Qed.

Lemma to_list_lazy_parse (blob : Blob)
    (fs fs' : gmap (list N) (fdata (Pixmap L))) (ds : list Document) :
  to_list L (lazy_parse L blob) fs = (Ok ds, fs') →
  ∃ g', nexts L (length ds) (lazy_parse L blob) fs = Some (ds, g', fs').
Proof.
  simpl. intros H.
  destruct (fitz_open L (blob_path blob)) as [pages|] eqn:Ho; [|discriminate].
  apply run_pages_nexts in H as [H Hlen]. rewrite Hlen.
  destruct pages as [|page rest].
  - simpl in *. inversion H; subst. eauto.
  - simpl length in *. rewrite (nexts_start _ _ _ _ Ho). eauto.
Qed.

End WithLibs.

End TempFiles.

(** * The claims about the Pix2Text parser *)

Section Pix2TextClaims.
Import Pix2Text.

(** C9.  The text of every page the Pix2Text parser yields is the texts of
    the elements of type Header, then a blank line, then the texts of the
    elements that are neither Header, Footer nor Reference, then a blank
    line, then the texts of the elements of type Footer, then a blank line,
    each group in the order of the recogniser's result.  Elements of type
    Reference contribute nothing, and the text is the same as for the result
    regrouped with all headers first and all footers last. *)
Theorem pix2text_page_content (L : Libs) (g g' : gen L)
    (fs fs' : gmap (list N) (fdata (Pixmap L))) (d : Document) :
  next L g fs = (Yield d, g', fs') →
  ∃ page pix outs,
    current_page L g = Some page
    ∧ get_pixmap L page = Some pix
    ∧ p2t L pix = Some outs
    ∧ page_content d =
        texts is_header outs ++ Py.nlnl ++ texts is_body outs ++ Py.nlnl
        ++ texts is_footer outs ++ Py.nlnl
    ∧ page_content d = only_text (filter (λ o, ¬ is_reference o) outs)
    ∧ page_content d =
        only_text (filter is_header outs ++ filter is_body outs
                   ++ filter is_footer outs).
Proof.
  intros H.
  assert (∃ blob pdf_name idx page fs0,
            current_page L g = Some page
            ∧ page_step L blob pdf_name idx page fs0 = (Ok d, fs'))
    as (blob & pdf_name & idx & page & fs0 & Hcur & Hstep).
  { destruct g as [blob|blob pdf_name idx pages|]; simpl in *.
    - destruct (fitz_open L (blob_path blob)) as [[|page rest]|];
        simpl in *; try discriminate.
      destruct (page_step L blob (pdf_name_of (blob_path blob)) 0 page fs)
        as [[d0|e] fs1] eqn:Hs; inversion H; subst.
      by exists blob, (pdf_name_of (blob_path blob)), 0, page, fs.
    - destruct pages as [|page rest]; simpl in *; try discriminate.
      destruct (page_step L blob pdf_name idx page fs)
        as [[d0|e] fs1] eqn:Hs; inversion H; subst.
      by exists blob, pdf_name, idx, page, fs.
    - discriminate. }
  apply TempFiles.page_step_ok in Hstep
    as (_ & _ & _ & pix & outs & Hpix & Houts & Htext).
  exists page, pix, outs. rewrite Htext.
  repeat split; try done.
  - apply Pix2TextFacts.only_text_eq.
  - symmetry. apply Pix2TextFacts.only_text_drop_references.
  - symmetry. apply Pix2TextFacts.only_text_grouped.
Qed.

Lemma pix2text_page_content_witness :
  ∃ page pix outs,
    current_page Demo.libs (lazy_parse Demo.libs Demo.blob) = Some page
    ∧ get_pixmap Demo.libs page = Some pix
    ∧ p2t Demo.libs pix = Some outs
    ∧ page_content Demo.doc0 =
        texts is_header outs ++ Py.nlnl ++ texts is_body outs ++ Py.nlnl
        ++ texts is_footer outs ++ Py.nlnl
    ∧ page_content Demo.doc0 = only_text (filter (λ o, ¬ is_reference o) outs)
    ∧ page_content Demo.doc0 =
        only_text (filter is_header outs ++ filter is_body outs
                   ++ filter is_footer outs).
Proof.
  eapply (pix2text_page_content Demo.libs (lazy_parse Demo.libs Demo.blob) _
            Demo.files _ Demo.doc0).
  vm_compute. reflexivity.
Defined.

(** C10.  Whenever [lazy_parse] has yielded the documents of the first [k]
    pages, none of the page images [<pdf_name>_page_<i>.png] of these pages
    is on disk and every other file is as it was: the image of a page is
    removed before the page's document is yielded.  In particular, after a
    parse that ran to its end without an exception no page image is left. *)
Theorem pix2text_temp_files_removed (L : Libs) (blob : Blob)
    (fs : gmap (list N) (fdata (Pixmap L))) :
  (∀ k ds g' fs',
     nexts L k (lazy_parse L blob) fs = Some (ds, g', fs') →
     length ds = k
     ∧ (∀ i, i < k → fs' !! png_name (pdf_name_of (blob_path blob)) i = None)
     ∧ (∀ p, p ∉ temps (pdf_name_of (blob_path blob)) 0 k →
             fs' !! p = fs !! p)
     ∧ (∀ i d, ds !! i = Some d → meta_page d = i + 1))
  ∧ (∀ ds fs',
       to_list L (lazy_parse L blob) fs = (Ok ds, fs') →
       (∀ i, i < length ds →
          fs' !! png_name (pdf_name_of (blob_path blob)) i = None)
       ∧ (∀ p, p ∉ temps (pdf_name_of (blob_path blob)) 0 (length ds) →
               fs' !! p = fs !! p)).
Proof.
  split.
  - intros k ds g' fs' H. by apply (TempFiles.nexts_lazy_parse L) in H.
  - intros ds fs' H.
    apply TempFiles.to_list_lazy_parse in H as [g' H].
    apply TempFiles.nexts_lazy_parse in H as (_ & H1 & H2 & _). done.
Qed.

Lemma pix2text_temp_files_removed_witness :
  to_list Demo.libs (lazy_parse Demo.libs Demo.blob) Demo.files =
    (Ok [Demo.doc0; Demo.doc1],
     <[Py.lit "notes.txt" := FText (Py.lit "keep")]> ∅)
  ∧ (∀ i, i < 2 →
       (<[Py.lit "notes.txt" := FText (Py.lit "keep")]> ∅
         : gmap (list N) (fdata (Pixmap Demo.libs)))
       !! png_name (pdf_name_of (blob_path Demo.blob)) i = None).
Proof.
  assert (to_list Demo.libs (lazy_parse Demo.libs Demo.blob) Demo.files =
          (Ok [Demo.doc0; Demo.doc1],
           <[Py.lit "notes.txt" := FText (Py.lit "keep")]> ∅)) as H.
  { vm_compute. reflexivity. }
  split; [exact H|].
  exact (proj1 (proj2 (pix2text_temp_files_removed Demo.libs Demo.blob
                         Demo.files) _ _ H)).
Defined.

End Pix2TextClaims.

(** * The dispatcher *)

Module DispatcherFacts.
Import Dispatcher.

(** ** Selecting the files *)

Lemma result_path_eq p :
  Worker.result_path p =
  Py.lit "ocr_results/" ++ Py.basename p ++ Py.lit ".json".
Proof.
  unfold Worker.result_path. rewrite PyFacts.path_split_2.
  rewrite PyFacts.path_join_name.
  - reflexivity.
  - discriminate.
  - reflexivity.
  - intros k Hk. pose proof (PyFacts.basename_no_slash p) as Hp.
    destruct (Py.basename p) as [|c r].
    + discriminate.
    + simpl in Hk. injection Hk as -> _. apply Hp. apply elem_of_cons.
      by left.
Qed.

Lemma join_pdf_directory f :
  Py.slash ∉ f →
  Py.path_join pdf_directory f = pdf_directory ++ f
  ∧ Worker.result_path (pdf_directory ++ f) =
    Py.lit "ocr_results/" ++ f ++ Py.lit ".json".
Proof.
  intros Hf.
  change pdf_directory with (Py.lit "/pdfs" ++ [Py.slash]).
  split.
  - by apply PyFacts.path_join_dir.
  - rewrite result_path_eq. by rewrite PyFacts.basename_app.
Qed.

Lemma select_eq exists_ names :
  Forall (λ f, Py.slash ∉ f) names →
  select exists_ names = (pdf_directory ++.) <$> filter (eligible exists_) names.
Proof.
  unfold select. induction 1 as [|f names Hf _ IH]; [done|].
  destruct (join_pdf_directory f Hf) as [Hj Hr].
  rewrite !filter_cons. unfold eligible at 1.
  destruct (decide (Py.endswith f (Py.lit ".pdf"))) as [He|He].
  - rewrite fmap_cons, filter_cons, Hj, Hr.
    destruct (decide (¬ exists_ (Py.lit "ocr_results/" ++ f ++ Py.lit ".json")))
      as [Hx|Hx].
    + rewrite decide_True by done. rewrite fmap_cons. by rewrite IH.
    + rewrite decide_False by (intros [_ ?]; done). exact IH.
  - rewrite decide_False by (intros [? _]; done). exact IH.
Qed.

(** ** Round-robin lanes *)

Lemma lane_from_period n j s l :
  lane_from n j (s + n) l = lane_from n j s l.
Proof.
  revert s. induction l as [|x l IH]; intros s; [done|].
  simpl. rewrite <- (IH (S s)). simpl.
  destruct (decide (n = 0)) as [->|Hn].
  - by rewrite Nat.add_0_r.
  - replace ((s + n) mod n) with (s mod n); [done|].
    rewrite <- (Nat.Div0.add_mod_idemp_r s n n).
    by rewrite Nat.Div0.mod_same, Nat.add_0_r.
Qed.

Lemma lane_from_sublist n j s l : lane_from n j s l `sublist_of` l.
Proof.
  revert s. induction l as [|x l IH]; intros s; [done|].
  simpl. destruct (decide (s mod n = j)); simpl.
  - by apply sublist_skip.
  - by apply sublist_cons.
Qed.

Lemma elem_of_lane_from n j s l x :
  x ∈ lane_from n j s l ↔ ∃ i, l !! i = Some x ∧ (s + i) mod n = j.
Proof.
  revert s. induction l as [|y l IH]; intros s.
  - simpl. split; [by intros ?%elem_of_nil|by intros (i & ? & _)].
  - simpl. rewrite elem_of_app, IH. split.
    + intros [Hx|(i & Hi & Hm)].
      * destruct (decide (s mod n = j)) as [Hj|Hj].
        -- apply list_elem_of_singleton in Hx as ->. exists 0.
           by rewrite Nat.add_0_r.
        -- by apply elem_of_nil in Hx.
      * exists (S i). split; [done|]. by rewrite Nat.add_succ_r.
    + intros ([|i] & Hi & Hm).
      * left. simpl in Hi. injection Hi as ->.
        rewrite Nat.add_0_r in Hm. rewrite decide_True by done.
        by apply list_elem_of_singleton.
      * right. exists i. split; [done|]. by rewrite Nat.add_succ_r in Hm.
Qed.

(** Positions that are not of lane [j] are skipped. *)
Lemma lane_from_skip n j m : ∀ s l,
  (∀ i, i < m → (s + i) mod n ≠ j) →
  lane_from n j s l = lane_from n j (s + m) (drop m l).
Proof.
  induction m as [|m IH]; intros s l H.
  - by rewrite Nat.add_0_r, drop_0.
  - destruct l as [|x l]; [done|].
    simpl. rewrite decide_False.
    2:{ specialize (H 0). rewrite Nat.add_0_r in H. apply H. lia. }
    simpl. rewrite (IH (S s) l).
    + by rewrite Nat.add_succ_r.
    + intros i Hi. specialize (H (S i)). rewrite Nat.add_succ_r in H.
      apply H. lia.
Qed.

Lemma mod_between n a : n ≤ a → a < 2 * n → a mod n = a - n.
Proof.
  intros H1 H2. symmetry. apply (Nat.mod_unique a n 1); lia.
Qed.

(** From a position of lane [j], the lane takes every [n]-th element. *)
Lemma lane_from_hit_lookup n j : j < n → ∀ k l,
  lane_from n j j l !! k = l !! (k * n).
Proof.
  intros Hj. induction k as [|k IH]; intros l.
  - destruct l as [|x l]; [done|]. simpl.
    by rewrite Nat.mod_small, decide_True.
  - destruct l as [|x l]; [done|]. simpl.
    rewrite Nat.mod_small, decide_True by done. simpl.
    rewrite (lane_from_skip n j (n - 1)).
    + replace (S j + (n - 1)) with (j + n) by lia.
      rewrite lane_from_period, IH, lookup_drop.
      replace (n + k * n) with (S (n - 1 + k * n)) by lia. done.
    + intros i Hi. destruct (decide (S j + i < n)) as [Hlt|Hge].
      * rewrite Nat.mod_small by done. lia.
      * rewrite mod_between by lia. lia.
Qed.

Lemma lane_lookup n j k l : j < n → lane n j l !! k = l !! (j + k * n).
Proof.
  intros Hj. unfold lane. rewrite (lane_from_skip n j j).
  - simpl. rewrite lane_from_hit_lookup by done. by rewrite lookup_drop.
  - intros i Hi. simpl. rewrite Nat.mod_small by lia. lia.
Qed.

Lemma concat_insert_one {A} (x : A) (c : nat) (g : nat → list A)
    (js : list nat) :
  NoDup js → c ∈ js →
  concat ((λ j, (if decide (c = j) then [x] else []) ++ g j) <$> js)
  ≡ₚ x :: concat (g <$> js).
Proof.
  induction js as [|j js IH]; intros Hnd Hc.
  - by apply elem_of_nil in Hc.
  - apply NoDup_cons in Hnd as [Hj Hnd]. rewrite !fmap_cons, !concat_cons.
    destruct (decide (c = j)) as [->|Hne].
    + assert ((λ j0, (if decide (j = j0) then [x] else []) ++ g j0) <$> js
              = g <$> js) as ->; [|done].
      apply list_fmap_ext. intros i j' Hl.
      rewrite decide_False; [done|].
      intros <-. apply Hj. by eapply list_elem_of_lookup_2.
    + apply elem_of_cons in Hc as [->|Hc]; [done|].
      rewrite (IH Hnd Hc). simpl. by rewrite Permutation_middle.
Qed.

Lemma fmap_concat {A C} (f : A → C) (ls : list (list A)) :
  f <$> concat ls = concat ((λ l : list A, f <$> l) <$> ls).
Proof.
  induction ls as [|l ls IH]; [done|].
  rewrite fmap_cons, !concat_cons, fmap_app. by rewrite IH.
Qed.

(** The lanes together hold what the list holds. *)
Lemma lanes_plain_permutation n s l :
  0 < n → concat ((λ j, lane_from n j s l) <$> seq 0 n) ≡ₚ l.
Proof.
  intros Hn. revert s. induction l as [|x l IH]; intros s.
  - simpl. induction (seq 0 n) as [|j js IHj]; [done|]. simpl. done.
  - etrans; [|apply Permutation_skip, (IH (S s))].
    rewrite <- (concat_insert_one x (s mod n)).
    + done.
    + apply NoDup_seq.
    + apply elem_of_seq. pose proof (Nat.mod_upper_bound s n). lia.
Qed.

Lemma lanes_permutation n s l :
  0 < n →
  concat ((λ j, Some <$> lane_from n j s l) <$> seq 0 n) ≡ₚ Some <$> l.
Proof.
  intros Hn.
  etrans; [|apply fmap_Permutation, (lanes_plain_permutation n s l Hn)].
  rewrite fmap_concat, <- list_fmap_compose. done.
Qed.

(** ** The spawn loop *)

Lemma pop_snoc {A} (l : list A) (x : A) : pop (l ++ [x]) = Some (x, l).
Proof.
  unfold pop. rewrite last_snoc, length_app. simpl.
  replace (length l + 1 - 1) with (length l) by lia.
  by rewrite take_app_length.
Qed.

(** With as many turns as devices are left to take, the loop takes them from
    the end of the list, one per new queue. *)
Lemma spawn_reverse (tl : list (list N)) : ∀ pre h ql ws,
  spawn (length tl) (mkState (pre ++ reverse tl) h ql ws) =
  (Ok (),
   mkState pre (h ++ replicate (length tl) [])
           (ql ++ seq (length h) (length tl))
           (ws ++ zip tl (seq (length h) (length tl)))).
Proof.
  induction tl as [|x tl IH]; intros pre h ql ws.
  - simpl. by rewrite !app_nil_r.
  - simpl. rewrite reverse_cons, app_assoc, pop_snoc.
    rewrite IH. rewrite length_app. simpl.
    rewrite Nat.add_1_r. by rewrite <- !app_assoc.
Qed.

Lemma spawn_all (ds : list (list N)) :
  spawn (length ds) (mkState ds [] [] []) =
  (Ok (),
   mkState [] (replicate (length ds) []) (seq 0 (length ds))
           (zip (reverse ds) (seq 0 (length ds)))).
Proof.
  pose proof (spawn_reverse (reverse ds) [] [] [] []) as H.
  rewrite reverse_involutive, length_reverse in H. exact H.
Qed.

(** ** Distribution and closing *)

Lemma lookup_put h q m j :
  put h q m !! j =
  if decide (q = j) then (λ c, c ++ [m]) <$> h !! j else h !! j.
Proof.
  unfold put. rewrite list_lookup_alter.
  by destruct (decide (q = j)) as [->|Hne].
Qed.

Lemma length_put h q m : length (put h q m) = length h.
Proof. unfold put. apply length_alter. Qed.

Lemma cycle_next_seq n p :
  p < n →
  cycle_next (mkCycle (seq 0 n) p) =
  Some (p, mkCycle (seq 0 n) (if decide (S p < n) then S p else 0)).
Proof.
  intros Hp. unfold cycle_next. simpl.
  rewrite lookup_seq_lt by done. by rewrite length_seq.
Qed.

(** Channel [j] receives, after what it holds, the paths of its lane. *)
Lemma distribute_lookup n j : ∀ l h p,
  p < n →
  distribute h (mkCycle (seq 0 n) p) l !! j =
  (λ c, c ++ (Some <$> lane_from n j p l)) <$> h !! j.
Proof.
  induction l as [|x l IH]; intros h p Hp.
  - simpl. destruct (h !! j); simpl; [|done]. by rewrite app_nil_r.
  - simpl. rewrite cycle_next_seq by done.
    rewrite Nat.mod_small by done.
    assert (lane_from n j (S p) l
            = lane_from n j (if decide (S p < n) then S p else 0) l) as ->.
    { destruct (decide (S p < n)) as [|Hge]; [done|].
      replace (S p) with (0 + n) by lia. apply lane_from_period. }
    rewrite IH.
    2:{ destruct (decide (S p < n)); lia. }
    rewrite lookup_put. destruct (decide (p = j)) as [->|Hne].
    + destruct (h !! j); simpl; [|done]. by rewrite <- app_assoc.
    + done.
Qed.

Lemma length_distribute l : ∀ h it, length (distribute h it l) = length h.
Proof.
  induction l as [|x l IH]; intros h it; [done|].
  simpl. destruct (cycle_next it) as [[q it']|]; [|done].
  by rewrite IH, length_put.
Qed.

Lemma close_lookup n : ∀ h j,
  close h (seq 0 n) !! j =
  if decide (j < n) then (λ c, c ++ [None]) <$> h !! j else h !! j.
Proof.
  induction n as [|n IH]; intros h j.
  - unfold close. simpl foldl. case_decide; [lia|done].
  - unfold close in *. rewrite seq_S, foldl_snoc. simpl.
    rewrite lookup_put, IH.
    destruct (decide (n = j)) as [->|Hne].
    + rewrite decide_False by lia. by rewrite decide_True by lia.
    + destruct (decide (j < n)).
      * by rewrite decide_True by lia.
      * by rewrite decide_False by lia.
Qed.

(** The queues after [distribute] and after [close], from empty queues. *)
Lemma distribute_fresh n l :
  distribute (replicate n []) (cycle (seq 0 n)) l =
  (λ j, Some <$> lane n j l) <$> seq 0 n.
Proof.
  apply list_eq. intros j.
  destruct (decide (0 < n)) as [Hn|Hn].
  - unfold cycle. rewrite distribute_lookup by done.
    rewrite list_lookup_fmap.
    destruct (decide (j < n)) as [Hj|Hj].
    + rewrite lookup_replicate_2 by done. by rewrite lookup_seq_lt by done.
    + rewrite (proj1 (lookup_replicate_None n [] j)) by lia.
      by rewrite lookup_seq_ge by lia.
  - assert (n = 0) as -> by lia. by destruct l.
Qed.

Lemma close_fresh n l :
  close (distribute (replicate n []) (cycle (seq 0 n)) l) (seq 0 n) =
  (λ j, (Some <$> lane n j l) ++ [None]) <$> seq 0 n.
Proof.
  apply list_eq. intros j. rewrite close_lookup, distribute_fresh.
  rewrite !list_lookup_fmap.
  destruct (decide (j < n)) as [Hj|Hj].
  - by rewrite lookup_seq_lt by done.
  - by rewrite lookup_seq_ge by lia.
Qed.

(** ** The main program *)

Lemma split_not_nil sep s : Py.split sep s ≠ [].
Proof.
  destruct s as [|c s]; simpl; [done|].
  destruct (decide (c = sep)); [done|].
  by destruct (Py.split sep s).
Qed.

(** A device list that [parse_command] returns has one entry per
    comma-separated piece of [--on], so at least one. *)
Lemma parse_command_Some int on ds :
  parse_command int on = Ok (Some ds) →
  ∃ s, on = Some s
       ∧ length ds = length (Py.split Py.comma s)
       ∧ 0 < length ds.
Proof.
  unfold parse_command. destruct on as [s|]; [|done].
  destruct (mapM _ _) as [l|] eqn:Hl; [|done].
  intros [= <-]. exists s. split; [done|].
  apply length_mapM in Hl.
  pose proof (split_not_nil Py.comma s) as Hne.
  split; [done|]. rewrite <- Hl.
  destruct (Py.split Py.comma s); [done|simpl; lia].
Qed.

(** The devices are printed integers. *)
Lemma parse_command_devices int on ds :
  parse_command int on = Ok (Some ds) →
  Forall (λ d, ∃ z, d = Py.str_int z) ds.
Proof.
  unfold parse_command. destruct on as [s|]; [|done].
  destruct (mapM _ _) as [l|] eqn:Hm; [|done]. intros [= <-].
  apply mapM_Some_1 in Hm.
  induction Hm as [|piece d pieces l Hd _ IH]; [apply Forall_nil_2|].
  apply Forall_cons. split; [|exact IH].
  destruct (int piece) as [z|]; [|done]. exists z.
  simpl in Hd. by injection Hd as <-.
Qed.

Lemma main_ok inp names ds :
  listdir inp = Some names →
  parse_command (int inp) (on inp) = Ok (Some ds) →
  main inp =
  (Ok (),
   mkState []
     ((λ j, (Some <$> lane (length ds) j (select (exists_ inp) names))
            ++ [None]) <$> seq 0 (length ds))
     (seq 0 (length ds))
     (zip (reverse ds) (seq 0 (length ds)))).
Proof.
  intros Hl Hp. unfold main. rewrite Hl, Hp, spawn_all. simpl.
  by rewrite close_fresh.
Qed.

End DispatcherFacts.

(** * The claims about the dispatcher *)

Section DispatcherClaims.
Import Dispatcher DispatcherFacts.

(** C1.  For every list [L] of work items and every list of [n >= 1]
    devices, after the spawn loop the distribution loop puts the item at
    index [i] on the queue of worker [i mod n], at position [i / n]; queue
    [j] holds exactly the items of [L] at the indices congruent to [j], in
    the order of [L]; the queues together hold a permutation of [L]; and when
    the items of [L] are pairwise distinct no item is on two queues. *)
Theorem round_robin_partition (ds L : list (list N)) :
  1 ≤ length ds →
  let n := length ds in
  let st := (spawn n (mkState ds [] [] [])).2 in
  let h := distribute (store st) (cycle (q_list st)) L in
  length h = n
  ∧ (∀ j, j < n → ∃ device, workers st !! j = Some (device, j))
  ∧ (∀ i x, L !! i = Some x →
       ∃ ch, h !! (i mod n) = Some ch ∧ ch !! (i / n) = Some (Some x))
  ∧ (∀ j, j < n →
       h !! j = Some (Some <$> lane n j L) ∧ lane n j L `sublist_of` L)
  ∧ concat h ≡ₚ Some <$> L
  ∧ (NoDup L →
     ∀ x j j' ch ch', h !! j = Some ch → h !! j' = Some ch' →
                      Some x ∈ ch → Some x ∈ ch' → j = j').
Proof.
  intros Hn. simpl. rewrite spawn_all. simpl. rewrite distribute_fresh.
  set (n := length ds) in *.
  assert (∀ j ch,
            ((λ j, Some <$> lane n j L) <$> seq 0 n) !! j = Some ch →
            j < n ∧ ch = Some <$> lane n j L) as Hch.
  { intros j ch Hj. rewrite list_lookup_fmap in Hj.
    destruct (seq 0 n !! j) as [j0|] eqn:Hs; [|done].
    apply lookup_seq in Hs as [-> Hlt]. simpl in Hj. by injection Hj as <-. }
  assert (∀ j, j < n →
            ((λ j, Some <$> lane n j L) <$> seq 0 n) !! j =
            Some (Some <$> lane n j L)) as Hlane.
  { intros j Hj. rewrite list_lookup_fmap. by rewrite lookup_seq_lt by done. }
  split; [by rewrite length_fmap, length_seq|].
  split.
  { intros j Hj.
    destruct (reverse ds !! j) as [device|] eqn:Hd.
    - exists device. apply lookup_zip_Some. split; [done|].
      by apply lookup_seq_lt.
    - apply lookup_ge_None in Hd. rewrite length_reverse in Hd. lia. }
  split.
  { intros i x Hi. exists (Some <$> lane n (i mod n) L).
    assert (i mod n < n) as Hlt by (apply Nat.mod_upper_bound; lia).
    split; [by apply Hlane|].
    rewrite list_lookup_fmap, lane_lookup by done.
    replace (i mod n + i / n * n) with i; [by rewrite Hi|].
    rewrite (Nat.div_mod_eq i n) at 1. lia. }
  split.
  { intros j Hj. split; [by apply Hlane|]. apply lane_from_sublist. }
  split; [apply lanes_permutation; lia|].
  intros Hnd x j j' ch ch' Hj Hj' Hx Hx'.
  apply Hch in Hj as [_ ->]. apply Hch in Hj' as [_ ->].
  apply list_elem_of_fmap in Hx as (y & [= <-] & Hx).
  apply list_elem_of_fmap in Hx' as (y' & [= <-] & Hx').
  apply elem_of_lane_from in Hx as (i & Hi & <-).
  apply elem_of_lane_from in Hx' as (i' & Hi' & <-).
  by rewrite (NoDup_lookup L i i' x Hnd Hi Hi').
Qed.

Lemma round_robin_partition_witness :
  let ds := [Py.lit "0"; Py.lit "1"] in
  let L := [Py.lit "/pdfs/x.pdf"; Py.lit "/pdfs/y.pdf"; Py.lit "/pdfs/z.pdf"] in
  let st := (spawn 2 (mkState ds [] [] [])).2 in
  let h := distribute (store st) (cycle (q_list st)) L in
  h = [[Some (Py.lit "/pdfs/x.pdf"); Some (Py.lit "/pdfs/z.pdf")];
       [Some (Py.lit "/pdfs/y.pdf")]]
  ∧ concat h ≡ₚ Some <$> L.
Proof.
  split; [reflexivity|].
  refine (proj1 (proj2 (proj2 (proj2 (proj2
    (round_robin_partition [Py.lit "0"; Py.lit "1"]
       [Py.lit "/pdfs/x.pdf"; Py.lit "/pdfs/y.pdf"; Py.lit "/pdfs/z.pdf"]
       _)))))).
  simpl. lia.
Defined.

(** C2, as the code has it.  When [parse_command] returns a list of [n]
    devices (one per comma-separated entry of [--on]), the main program
    starts exactly [n] workers, one per device, each on its own queue, and
    takes the devices from the END of the list: the [i]-th worker started is
    bound to the device at index [n - 1 - i]. *)
Theorem workers_take_devices_from_the_end (inp : input)
    (names ds : list (list N)) :
  listdir inp = Some names →
  parse_command (int inp) (on inp) = Ok (Some ds) →
  ∃ st, main inp = (Ok (), st)
    ∧ length (workers st) = length ds
    ∧ (∃ s, on inp = Some s ∧ length ds = length (Py.split Py.comma s))
    ∧ (workers st).*1 = reverse ds
    ∧ (workers st).*2 = seq 0 (length ds)
    ∧ (∀ i, i < length ds →
         ∃ device, ds !! (length ds - 1 - i) = Some device
                   ∧ workers st !! i = Some (device, i)).
Proof.
  intros Hl Hp. eexists. split; [by apply main_ok|]. simpl.
  assert (length (reverse ds) = length (seq 0 (length ds))) as Hlen.
  { by rewrite length_reverse, length_seq. }
  split.
  { rewrite length_zip_with_l_eq by done. by rewrite length_reverse. }
  split.
  { apply parse_command_Some in Hp as (s & Hs & Hlen' & _). eauto. }
  split; [by apply fst_zip; lia|].
  split; [by apply snd_zip; lia|].
  intros i Hi.
  destruct (ds !! (length ds - 1 - i)) as [device|] eqn:Hd.
  - exists device. split; [done|]. apply lookup_zip_Some. split.
    + rewrite reverse_lookup by done.
      by replace (length ds - S i) with (length ds - 1 - i) by lia.
    + by apply lookup_seq_lt.
  - apply lookup_ge_None in Hd. lia.
Qed.

Lemma workers_take_devices_from_the_end_witness :
  ∃ st, main Demo.scenario = (Ok (), st)
    ∧ length (workers st) = 2
    ∧ (∃ s, on Demo.scenario = Some s
            ∧ 2 = length (Py.split Py.comma s))
    ∧ (workers st).*1 = reverse [Py.lit "0"; Py.lit "1"]
    ∧ (workers st).*2 = seq 0 2
    ∧ (∀ i, i < 2 →
         ∃ device, [Py.lit "0"; Py.lit "1"] !! (2 - 1 - i) = Some device
                   ∧ workers st !! i = Some (device, i)).
Proof.
  apply (workers_take_devices_from_the_end Demo.scenario
           [Py.lit "x.pdf"; Py.lit "y.pdf"; Py.lit "z.pdf"]
           [Py.lit "0"; Py.lit "1"]); reflexivity.
Defined.

(** C2, as the specification has it, fails: with the devices [0,1] the first
    worker started is bound to device 1, not to device 0. *)
Lemma devices_not_in_list_order :
  ∃ st, main Demo.scenario = (Ok (), st)
    ∧ parse_command (int Demo.scenario) (on Demo.scenario) =
      Ok (Some [Py.lit "0"; Py.lit "1"])
    ∧ workers st !! 0 = Some (Py.lit "1", 0)
    ∧ ¬ (∀ i device, [Py.lit "0"; Py.lit "1"] !! i = Some device →
                     ∃ q, workers st !! i = Some (device, q)).
Proof.
  eexists. split; [reflexivity|]. split; [reflexivity|].
  split; [reflexivity|].
  intros H. destruct (H 0 (Py.lit "0") eq_refl) as [q Hq].
  vm_compute in Hq. discriminate.
Qed.

(** C5.  Of the names in the input directory, exactly those that end in
    [.pdf] and have no result file [ocr_results/<name>.json] are selected, in
    the order of the listing; and the paths the main program puts on the
    queues are those of the selected names and no others. *)
Theorem eligible_files_selected (ex : list N → bool) (names : list (list N)) :
  Forall (λ f, Py.slash ∉ f) names →
  select ex names = (pdf_directory ++.) <$> filter (eligible ex) names
  ∧ (∀ f, f ∈ names → pdf_directory ++ f ∈ select ex names ↔ eligible ex f)
  ∧ (∀ inp ds,
       listdir inp = Some names → exists_ inp = ex →
       parse_command (int inp) (on inp) = Ok (Some ds) →
       ∃ st, main inp = (Ok (), st)
         ∧ ∀ p, (∃ j ch, store st !! j = Some ch ∧ Some p ∈ ch)
                ↔ (∃ f, f ∈ names ∧ eligible ex f ∧ p = pdf_directory ++ f)).
Proof.
  intros Hnames. pose proof (select_eq ex names Hnames) as Hsel.
  assert (∀ p, p ∈ select ex names
               ↔ ∃ f, f ∈ names ∧ eligible ex f ∧ p = pdf_directory ++ f)
    as Hmem.
  { intros p. rewrite Hsel, list_elem_of_fmap. split.
    - intros (f & -> & Hf). apply list_elem_of_filter in Hf as [He Hf].
      by exists f.
    - intros (f & Hf & He & ->). exists f. split; [done|].
      by apply list_elem_of_filter. }
  split; [done|]. split.
  { intros f Hf. rewrite Hmem. split.
    - intros (f' & _ & He & Heq). by apply app_inv_head in Heq as ->.
    - intros He. by exists f. }
  intros inp ds Hl Hex Hp. eexists. split; [by apply main_ok|].
  simpl. rewrite Hex. intros p. rewrite <- Hmem.
  apply parse_command_Some in Hp as (_ & _ & _ & Hpos).
  split.
  - intros (j & ch & Hj & Hin). rewrite list_lookup_fmap in Hj.
    destruct (seq 0 (length ds) !! j) as [j0|]; [|done].
    simpl in Hj. injection Hj as <-.
    apply elem_of_app in Hin as [Hin|Hin].
    + apply list_elem_of_fmap in Hin as (y & [= <-] & Hin).
      apply elem_of_lane_from in Hin as (i & Hi & _).
      by eapply list_elem_of_lookup_2.
    + by apply list_elem_of_singleton in Hin.
  - intros Hin. apply list_elem_of_lookup in Hin as [i Hi].
    assert (i mod length ds < length ds) as Hlt
      by (apply Nat.mod_upper_bound; lia).
    exists (i mod length ds). eexists. split.
    + rewrite list_lookup_fmap. by rewrite lookup_seq_lt by done.
    + apply elem_of_app. left. apply list_elem_of_fmap. exists p.
      split; [done|]. apply elem_of_lane_from. by exists i.
Qed.

Lemma eligible_files_selected_witness :
  select (exists_ Demo.input)
         [Py.lit "a.pdf"; Py.lit "b.pdf"; Py.lit "notes.txt"]
  = (pdf_directory ++.)
    <$> filter (eligible (exists_ Demo.input))
               [Py.lit "a.pdf"; Py.lit "b.pdf"; Py.lit "notes.txt"]
  ∧ select (exists_ Demo.input)
           [Py.lit "a.pdf"; Py.lit "b.pdf"; Py.lit "notes.txt"]
    = [Py.lit "/pdfs/b.pdf"].
Proof.
  split; [|vm_compute; reflexivity].
  refine (proj1 (eligible_files_selected (exists_ Demo.input)
            [Py.lit "a.pdf"; Py.lit "b.pdf"; Py.lit "notes.txt"] _)).
  assert (∀ f : list N, bool_decide (Py.slash ∉ f) = true → Py.slash ∉ f)
    as Hdec by (intros f; apply bool_decide_eq_true_1).
  apply Forall_cons; split; [apply Hdec; vm_compute; reflexivity|].
  apply Forall_cons; split; [apply Hdec; vm_compute; reflexivity|].
  apply Forall_cons; split; [apply Hdec; vm_compute; reflexivity|].
  apply Forall_nil_2.
Defined.

(** C8.  When listing the input directory raises, the main program ends with
    that exception before it has created a queue, started a worker or put
    anything on a queue. *)
Theorem listdir_failure_aborts_before_spawn (inp : input) :
  listdir inp = None →
  ∃ st, main inp = (Raise OSError, st)
    ∧ store st = [] ∧ q_list st = [] ∧ workers st = []
    ∧ ∀ B env fs, runs B env fs st = [].
Proof.
  intros H. exists initial. unfold main. rewrite H. done.
Qed.

Lemma listdir_failure_aborts_before_spawn_witness :
  ∃ st,
    main (mkInput None (λ _, false) (Some (Py.lit "0,1")) Demo.int_ascii) =
    (Raise OSError, st)
    ∧ store st = [] ∧ q_list st = [] ∧ workers st = []
    ∧ ∀ B env fs, runs B env fs st = [].
Proof.
  apply (listdir_failure_aborts_before_spawn
           (mkInput None (λ _, false) (Some (Py.lit "0,1")) Demo.int_ascii)).
  reflexivity.
Defined.

End DispatcherClaims.

(** * The device worker *)

Module WorkerFacts.
Import Worker.

Lemma foldl_joined (docs : list Document) (acc : list N) :
  foldl (λ s doc, (s ++ page_content doc) ++ Py.nlnl) acc docs =
  acc ++ concat ((λ d, page_content d ++ Py.nlnl) <$> docs).
Proof.
  revert acc. induction docs as [|d docs IH]; intros acc; simpl.
  - by rewrite app_nil_r.
  - rewrite IH. by rewrite <- !app_assoc.
Qed.

(** The string dumped: every page text followed by a blank line. *)
Lemma joined_eq (docs : list Document) :
  joined docs = concat ((λ d, page_content d ++ Py.nlnl) <$> docs).
Proof. unfold joined. by rewrite foldl_joined. Qed.

Section WithBackend.
Context (B : Backend).

Lemma process_item_ok (env : gmap (list N) (list N)) (loader loader' : Loader B)
    (fs fs1 : gmap (list N) (list N)) (file_path : list N)
    (docs : list Document) :
  load B env loader file_path fs = (Some docs, loader', fs1) →
  can_create B (result_path file_path) = true →
  process_item B env loader fs file_path =
  (Ok (), loader',
   <[result_path file_path := Json.dumps (joined docs)]> fs1,
   [EvLoad file_path (env !! CUDA_VISIBLE_DEVICES);
    EvDump (result_path file_path) (Json.dumps (joined docs))]).
Proof.
  intros Hl Hc. unfold process_item. rewrite Hl, Hc.
  by rewrite insert_insert_eq.
Qed.

Lemma process_item_load_fails (env : gmap (list N) (list N))
    (loader loader' : Loader B) (fs fs1 : gmap (list N) (list N))
    (file_path : list N) :
  load B env loader file_path fs = (None, loader', fs1) →
  process_item B env loader fs file_path =
  (Raise BackendError, loader', fs1,
   [EvLoad file_path (env !! CUDA_VISIBLE_DEVICES)]).
Proof. intros Hl. unfold process_item. by rewrite Hl. Qed.

(** What the events of one turn are, in any case; a turn that an exception
    ends leaves the files as its [load] left them. *)
Lemma process_item_events (env : gmap (list N) (list N))
    (loader loader' : Loader B)
    (fs fs' : gmap (list N) (list N)) (file_path : list N)
    (r : res unit) (evs : list event) :
  process_item B env loader fs file_path = (r, loader', fs', evs) →
  gets evs = [] ∧ setenvs evs = []
  ∧ loads_of evs = [file_path]
  ∧ visibles evs = [env !! CUDA_VISIBLE_DEVICES]
  ∧ loader' = (load B env loader file_path fs).1.2
  ∧ (∀ e, r = Raise e →
          fs' = (load B env loader file_path fs).2 ∧ dumps_of evs = []).
Proof.
  unfold process_item.
  destruct (load B env loader file_path fs) as [[[docs|] loader1] fs1].
  - destruct (can_create B (result_path file_path)).
    + intros [= <- <- <- <-]. repeat split; done.
    + intros [= <- <- <- <-]. repeat split; done.
  - intros [= <- <- <- <-]. repeat split; done.
Qed.

Lemma gets_app (a b : list event) : gets (a ++ b) = gets a ++ gets b.
Proof. unfold gets. apply omap_app. Qed.
Lemma loads_of_app (a b : list event) :
  loads_of (a ++ b) = loads_of a ++ loads_of b.
Proof. unfold loads_of. apply omap_app. Qed.
Lemma dumps_of_app (a b : list event) :
  dumps_of (a ++ b) = dumps_of a ++ dumps_of b.
Proof. unfold dumps_of. apply omap_app. Qed.
Lemma visibles_app (a b : list event) :
  visibles (a ++ b) = visibles a ++ visibles b.
Proof. unfold visibles. apply omap_app. Qed.
Lemma setenvs_app (a b : list event) :
  setenvs (a ++ b) = setenvs a ++ setenvs b.
Proof. unfold setenvs. apply omap_app. Qed.

Lemma gets_get (m : option (list N)) (evs : list event) :
  gets (EvGet m :: evs) = m :: gets evs.
Proof. reflexivity. Qed.
Lemma loads_of_get (m : option (list N)) (evs : list event) :
  loads_of (EvGet m :: evs) = loads_of evs.
Proof. reflexivity. Qed.

(** The loop over a queue that starts with messages the loop gets through
    goes on with what follows them. *)
Lemma loop_app (env : gmap (list N) (list N)) (q1 q2 : list (option (list N))) :
  ∀ (loader loader1 : Loader B) (fs fs1 : gmap (list N) (list N))
    (evs1 : list event),
  loop B env loader fs q1 = mkRun B Blocked (Some loader1) fs1 [] evs1 →
  loop B env loader fs (q1 ++ q2) = prepend B evs1 (loop B env loader1 fs1 q2).
Proof.
  induction q1 as [|m q1 IH]; intros loader loader1 fs fs1 evs1 H.
  - simpl in H. injection H as <- <- <-. simpl.
    by destruct (loop B env loader fs q2).
  - destruct m as [file_path|]; [|discriminate].
    simpl in *.
    destruct (process_item B env loader fs file_path)
      as [[[[[]|e] ld'] fs'] evs]; [|discriminate].
    destruct (loop B env ld' fs' q1) as [o l f rest evs'] eqn:Hloop.
    unfold prepend in H. simpl in H. injection H as -> -> -> -> <-.
    rewrite (IH _ _ _ _ _ Hloop).
    unfold prepend. simpl. by rewrite <- !app_assoc.
Qed.

(** The messages a run of the loop gets are the first messages of the queue,
    every one of them a path except the last one when the loop returns,
    which is then the sentinel. *)
Lemma loop_gets (env : gmap (list N) (list N)) (q : list (option (list N))) :
  ∀ (loader : Loader B) (fs : gmap (list N) (list N)),
  let r := loop B env loader fs q in
  q = gets (r_events B r) ++ r_rest B r
  ∧ ∃ taken,
      gets (r_events B r) =
      (Some <$> taken)
      ++ match r_outcome B r with Returned => [None] | _ => [] end
  ∧ (r_outcome B r = Blocked → r_rest B r = []).
Proof.
  induction q as [|m q IH]; intros loader fs; simpl.
  - split; [done|]. by exists [].
  - destruct m as [file_path|]; simpl.
    + destruct (process_item B env loader fs file_path)
        as [[[[[]|e] ld'] fs'] evs] eqn:Hp.
      * apply process_item_events in Hp as (Hg & _).
        destruct (IH ld' fs') as (Hq & taken & Ht & Hb).
        simpl. rewrite gets_app, Hg. simpl. split; [by rewrite <- Hq|].
        exists (file_path :: taken). by rewrite Ht.
      * apply process_item_events in Hp as (Hg & _). simpl.
        rewrite Hg. split; [done|]. by exists [file_path].
    + split; [done|]. by exists [].
Qed.

(** A queue whose first sentinel comes after the paths [pre]: the loop
    either returns at that sentinel, having got exactly [pre] and the
    sentinel and nothing of what follows it, or an exception has ended it at
    one of the paths of [pre].  It never blocks. *)
Lemma loop_sentinel (env : gmap (list N) (list N)) (pre : list (list N))
    (post : list (option (list N))) :
  ∀ (loader : Loader B) (fs : gmap (list N) (list N)),
  let r := loop B env loader fs ((Some <$> pre) ++ None :: post) in
  match r_outcome B r with
  | Returned =>
      gets (r_events B r) = (Some <$> pre) ++ [None]
      ∧ r_rest B r = post
      ∧ loads_of (r_events B r) = pre
  | Died e =>
      ∃ taken file_path later,
        pre = taken ++ file_path :: later
        ∧ gets (r_events B r) = Some <$> (taken ++ [file_path])
        ∧ r_rest B r = (Some <$> later) ++ None :: post
        ∧ loads_of (r_events B r) = taken ++ [file_path]
  | Blocked => False
  end.
Proof.
  induction pre as [|file_path pre IH]; intros loader fs; [by simpl|].
  rewrite fmap_cons.
  change ((Some file_path :: (Some <$> pre)) ++ None :: post)
    with (Some file_path :: ((Some <$> pre) ++ None :: post)).
  cbn [loop].
  destruct (process_item B env loader fs file_path)
    as [[[[[]|e] ld'] fs'] evs] eqn:Hp;
    apply process_item_events in Hp as (Hg & _ & Hl & _);
    unfold prepend; cbn [r_outcome r_events r_rest].
  - specialize (IH ld' fs'). cbn zeta in IH.
    destruct (r_outcome B (loop B env ld' fs' ((Some <$> pre) ++ None :: post))).
    + destruct IH as (H1 & H2 & H3).
      rewrite !gets_app, !loads_of_app, gets_get, loads_of_get.
      rewrite Hg, Hl, H1, H3. done.
    + destruct IH as (taken & p & later & -> & H1 & H2 & H3).
      exists (file_path :: taken), p, later.
      rewrite !gets_app, !loads_of_app, gets_get, loads_of_get.
      rewrite Hg, Hl, H1, H2, H3. done.
    + done.
  - exists [], file_path, pre.
    rewrite gets_get, loads_of_get, Hg, Hl. done.
Qed.

(** Every path the loop gets it passes to [load], once. *)
Lemma loop_loads_gets (env : gmap (list N) (list N))
    (q : list (option (list N))) :
  ∀ (loader : Loader B) (fs : gmap (list N) (list N)),
  loads_of (r_events B (loop B env loader fs q)) =
  omap id (gets (r_events B (loop B env loader fs q))).
Proof.
  induction q as [|m q IH]; intros loader fs; [done|].
  destruct m as [file_path|]; [|done]. cbn [loop].
  destruct (process_item B env loader fs file_path)
    as [[[[[]|e] ld'] fs'] evs] eqn:Hp;
    apply process_item_events in Hp as (Hg & _ & Hl & _);
    unfold prepend; cbn [r_events].
  - rewrite !gets_app, !loads_of_app, gets_get, loads_of_get, Hg, Hl.
    cbn [app omap id]. by rewrite IH.
  - rewrite gets_get, loads_of_get, Hg, Hl. done.
Qed.

(** A loop that got through all of its queue has got and loaded every
    message of it. *)
Lemma loop_blocked (env : gmap (list N) (list N)) (pre : list (list N))
    (loader loader1 : Loader B) (fs fs1 : gmap (list N) (list N))
    (evs1 : list event) :
  loop B env loader fs (Some <$> pre) =
    mkRun B Blocked (Some loader1) fs1 [] evs1 →
  gets evs1 = Some <$> pre ∧ loads_of evs1 = pre.
Proof.
  intros H.
  pose proof (loop_gets env (Some <$> pre) loader fs) as (Hq & _).
  pose proof (loop_loads_gets env (Some <$> pre) loader fs) as Hl.
  rewrite H in Hq, Hl. cbn [r_events r_rest] in Hq, Hl.
  rewrite app_nil_r in Hq. rewrite <- Hq in Hl. split; [done|].
  rewrite Hl. clear. induction pre as [|x pre IH]; [done|].
  simpl in *. by f_equal.
Qed.

(** The loop never assigns to the environment, and every call into the
    backend is made with the visibility the loop was entered with. *)
Lemma loop_env (env : gmap (list N) (list N)) (q : list (option (list N))) :
  ∀ (loader : Loader B) (fs : gmap (list N) (list N)),
  setenvs (r_events B (loop B env loader fs q)) = []
  ∧ Forall (λ v, v = env !! CUDA_VISIBLE_DEVICES)
           (visibles (r_events B (loop B env loader fs q))).
Proof.
  induction q as [|m q IH]; intros loader fs; simpl; [done|].
  destruct m as [file_path|]; simpl; [|done].
  destruct (process_item B env loader fs file_path)
    as [[[[[]|e] ld'] fs'] evs] eqn:Hp;
    apply process_item_events in Hp as (_ & Hs & _ & Hv & _); simpl.
  - destruct (IH ld' fs') as [IH1 IH2].
    rewrite setenvs_app, visibles_app, Hs, Hv, IH1. split; [done|].
    apply Forall_app. split; [|done]. by apply Forall_singleton.
  - rewrite Hs, Hv. split; [done|]. by apply Forall_singleton.
Qed.

(** What the loop loads is among the paths of its queue, in their order. *)
Lemma loop_loads_sublist (env : gmap (list N) (list N))
    (q : list (option (list N))) :
  ∀ (loader : Loader B) (fs : gmap (list N) (list N)),
  loads_of (r_events B (loop B env loader fs q)) `sublist_of` omap id q.
Proof.
  induction q as [|m q IH]; intros loader fs; simpl; [done|].
  destruct m as [file_path|]; simpl.
  - destruct (process_item B env loader fs file_path)
      as [[[[[]|e] ld'] fs'] evs] eqn:Hp;
      apply process_item_events in Hp as (_ & _ & Hl & _); simpl.
    + rewrite loads_of_app, Hl. simpl. apply sublist_skip, IH.
    + rewrite Hl. apply sublist_skip, sublist_nil_l.
  - apply sublist_nil_l.
Qed.

Lemma process_pdf_loads_sublist (device : list N)
    (q : list (option (list N))) (env : gmap (list N) (list N))
    (fs : gmap (list N) (list N)) :
  loads_of (r_events B (process_pdf B device q env fs))
  `sublist_of` omap id q.
Proof.
  unfold process_pdf. destruct (environ_error device); [apply sublist_nil_l|].
  destruct (construct B _ _ _ _) as [[loader|] fs0]; simpl.
  - apply loop_loads_sublist.
  - apply sublist_nil_l.
Qed.

(** The loop always leaves a loader. *)
Lemma loop_loader (env : gmap (list N) (list N))
    (q : list (option (list N))) :
  ∀ (loader : Loader B) (fs : gmap (list N) (list N)),
  is_Some (r_loader B (loop B env loader fs q)).
Proof.
  induction q as [|[p|] q IH]; intros loader fs; cbn [loop];
    [by eexists| |by eexists].
  destruct (process_item B env loader fs p) as [[[[[]|e] ld'] fs'] evs].
  - unfold prepend. cbn [r_loader]. apply IH.
  - by eexists.
Qed.

(** The loop returns exactly when it has got a sentinel. *)
Lemma loop_returned_iff (env : gmap (list N) (list N))
    (q : list (option (list N))) (loader : Loader B)
    (fs : gmap (list N) (list N)) :
  r_outcome B (loop B env loader fs q) = Returned
  ↔ None ∈ gets (r_events B (loop B env loader fs q)).
Proof.
  destruct (loop_gets env q loader fs) as (_ & taken & Ht & _).
  cbn zeta in Ht. rewrite Ht.
  destruct (r_outcome B (loop B env loader fs q)).
  - split; [|done]. intros _. apply elem_of_app. right. apply elem_of_cons.
    by left.
  - rewrite app_nil_r. split; [done|].
    by intros (x & ? & _)%list_elem_of_fmap.
  - rewrite app_nil_r. split; [done|].
    by intros (x & ? & _)%list_elem_of_fmap.
Qed.

(** A loop that gets through the paths [pre] returns at a sentinel that
    follows them, and leaves what follows the sentinel. *)
Lemma loop_through (env : gmap (list N) (list N)) (pre : list (list N))
    (post : list (option (list N))) (loader loader1 : Loader B)
    (fs fs1 : gmap (list N) (list N)) (evs1 : list event) :
  loop B env loader fs (Some <$> pre) =
    mkRun B Blocked (Some loader1) fs1 [] evs1 →
  loop B env loader fs ((Some <$> pre) ++ None :: post) =
    mkRun B Returned (Some loader1) fs1 post (evs1 ++ [EvGet None]).
Proof. intros H. by rewrite (loop_app _ _ _ _ _ _ _ _ H). Qed.

End WithBackend.

(** [os.environ] accepts a printed integer. *)
Lemma environ_error_str_int (z : Z) : environ_error (Py.str_int z) = None.
Proof.
  unfold environ_error. pose proof (IntFacts.str_int_chars z) as Hc.
  rewrite Forall_forall in Hc.
  rewrite decide_False.
  - rewrite decide_False; [done|]. intros H0. apply Hc in H0. lia.
  - intros (c & Hin & [Hs _])%Exists_exists. apply Hc in Hin. lia.
Qed.

(** ** The observed backend *)

Lemma process_item_observed (B : Backend) (env : gmap (list N) (list N))
    (ld : Loader B) (log : list (gmap (list N) (list N)))
    (fs : gmap (list N) (list N)) (p : list N) :
  process_item (observed B) env (ld, log) fs p =
  (let '(r, ld', fs', evs) := process_item B env ld fs p in
   (r, (ld', log ++ [env]), fs', evs)).
Proof.
  unfold process_item. cbn [load observed can_create fst snd].
  destruct (load B env ld p fs) as [[[docs|] ld'] fs']; [|done].
  by destruct (can_create B (result_path p)).
Qed.

(** The loop on the observed backend does what the loop on the backend
    does, and the loader has recorded the environment once per [load]. *)
Lemma loop_observed (B : Backend) (env : gmap (list N) (list N))
    (q : list (option (list N))) :
  ∀ (ld : Loader B) (log : list (gmap (list N) (list N)))
    (fs : gmap (list N) (list N)),
  let ro := loop (observed B) env (ld, log) fs q in
  let r := loop B env ld fs q in
  r_outcome _ ro = r_outcome B r
  ∧ r_fs _ ro = r_fs B r
  ∧ r_rest _ ro = r_rest B r
  ∧ r_events _ ro = r_events B r
  ∧ r_loader _ ro =
    (λ l, (l, log ++ replicate (length (loads_of (r_events B r))) env))
    <$> r_loader B r.
Proof.
  induction q as [|m q IH]; intros ld log fs; cbn zeta.
  - cbn. by rewrite app_nil_r.
  - destruct m as [p|]; [|cbn; by rewrite app_nil_r].
    cbn [loop]. rewrite process_item_observed.
    destruct (process_item B env ld fs p) as [[[[[]|e] ld'] fs'] evs] eqn:Hp;
      apply process_item_events in Hp as (_ & _ & Hl & _).
    + destruct (IH ld' (log ++ [env]) fs') as (H1 & H2 & H3 & H4 & H5).
      unfold prepend.
      cbn [r_outcome r_fs r_rest r_events r_loader].
      rewrite H1, H2, H3, H4, H5.
      repeat split.
      change ((EvGet (Some p) :: evs) ++ ?l) with (EvGet (Some p) :: evs ++ l).
      rewrite loads_of_get, loads_of_app, Hl. cbn [app length replicate].
      destruct (r_loader B (loop B env ld' fs' q)); [|done].
      cbn. by rewrite <- app_assoc.
    + cbn [r_outcome r_fs r_rest r_events r_loader].
      repeat split. by rewrite loads_of_get, Hl.
Qed.

(** The loop depends on the [load] of the backend in the environment of the
    loop only. *)
Lemma loop_env_only (B : Backend) (env : gmap (list N) (list N))
    (construct2 : gmap (list N) (list N) → list N → list N
                  → gmap (list N) (list N)
                  → option (Loader B) * gmap (list N) (list N))
    (load2 : gmap (list N) (list N) → Loader B → list N
             → gmap (list N) (list N)
             → option (list Document) * Loader B * gmap (list N) (list N))
    (q : list (option (list N))) :
  (∀ ld p f, load2 env ld p f = load B env ld p f) →
  ∀ (ld : Loader B) (fs : gmap (list N) (list N)),
  components _ (loop (Build_Backend (Loader B) construct2 load2
                                    (can_create B)) env ld fs q)
  = components B (loop B env ld fs q).
Proof.
  intros Hload. induction q as [|m q IH]; intros ld fs; [done|].
  destruct m as [p|]; [|done]. cbn [loop].
  unfold process_item. cbn [load can_create]. rewrite Hload.
  destruct (load B env ld p fs) as [[[docs|] ld'] fs']; [|done].
  destruct (can_create B (result_path p)); [|done].
  specialize (IH ld' (<[result_path p:=Json.dumps (joined docs)]>
                        (<[result_path p:=[]]> fs'))).
  unfold components, prepend in *. cbn [r_outcome r_loader r_fs r_rest
                                        r_events] in *.
  injection IH as -> -> -> -> ->. done.
Qed.

End WorkerFacts.

(** * The workers of a run of the main program *)

Module SystemFacts.
Import Dispatcher DispatcherFacts Worker WorkerFacts.

Lemma concat_fmap_sublist {A C} (f g : A → list C) (l : list A) :
  (∀ x, x ∈ l → f x `sublist_of` g x) →
  concat (f <$> l) `sublist_of` concat (g <$> l).
Proof.
  induction l as [|x l IH]; intros H; [done|].
  rewrite !fmap_cons, !concat_cons. apply sublist_app.
  - apply H. apply elem_of_cons. by left.
  - apply IH. intros y Hy. apply H. apply elem_of_cons. by right.
Qed.

Lemma omap_id_channel (items : list (list N)) :
  omap id ((Some <$> items) ++ [None]) = items.
Proof.
  induction items as [|x items IH]; [done|].
  simpl in *. by f_equal.
Qed.

(** Across all the workers of a run, the paths passed to [load] are, worker
    by worker, among the paths of the worker's lane. *)
Lemma runs_loads_sublist (B : Backend) (env fs : gmap (list N) (list N))
    (n : nat) (ds L : list (list N)) :
  length ds = n →
  concat ((λ r, loads_of (r_events B r))
          <$> runs B env fs
                (mkState []
                   ((λ j, (Some <$> lane n j L) ++ [None]) <$> seq 0 n)
                   (seq 0 n) (zip (reverse ds) (seq 0 n))))
  `sublist_of` concat ((λ j, lane n j L) <$> seq 0 n).
Proof.
  intros Hlen. unfold runs. cbn [workers store].
  assert ((λ j, lane n j L) <$> seq 0 n
          = (λ w : list N * nat, lane n w.2 L) <$> zip (reverse ds) (seq 0 n))
    as ->.
  { rewrite <- (snd_zip (reverse ds) (seq 0 n)) at 1
      by (rewrite length_reverse, length_seq; lia).
    by rewrite <- list_fmap_compose. }
  rewrite <- list_fmap_compose.
  apply concat_fmap_sublist. intros [device j] Hw. simpl.
  apply elem_of_zip_r in Hw. apply elem_of_seq in Hw.
  rewrite list_lookup_fmap, lookup_seq_lt by lia. simpl.
  rewrite <- (omap_id_channel (lane n j L)) at 2.
  apply process_pdf_loads_sublist.
Qed.

End SystemFacts.

(** * JSON: decoding what was encoded *)

Module JsonFacts.
Import Json.

#[local] Arguments hex4 : simpl never.
#[local] Arguments unhex4 : simpl never.
#[local] Arguments is_high : simpl never.
#[local] Arguments is_low : simpl never.

Lemma hexval_hexdigit d : (d < 16)%N → hexval (hexdigit d) = Some d.
Proof.
  intros Hd. unfold hexdigit, hexval.
  destruct (N.ltb_spec d 10) as [Hlt|Hge].
  - replace ((48 <=? 48 + d) && (48 + d <=? 57))%N with true.
    + f_equal. lia.
    + symmetry. apply andb_true_intro. split; apply N.leb_le; lia.
  - replace ((48 <=? 87 + d) && (87 + d <=? 57))%N with false.
    + replace ((97 <=? 87 + d) && (87 + d <=? 102))%N with true.
      * f_equal. lia.
      * symmetry. apply andb_true_intro. split; apply N.leb_le; lia.
    + symmetry. apply andb_false_intro2. apply N.leb_gt. lia.
Qed.

Lemma hex_digits_sum n :
  (n < 65536)%N →
  ((n / 4096 mod 16) * 4096 + (n / 256 mod 16) * 256 + (n / 16 mod 16) * 16
   + n mod 16 = n)%N.
Proof.
  intros H.
  replace 4096%N with (16 * 16 * 16)%N by reflexivity.
  replace 256%N with (16 * 16)%N by reflexivity.
  rewrite <- !N.Div0.div_div.
  pose proof (N.div_mod n 16 ltac:(discriminate)) as E1.
  pose proof (N.div_mod (n / 16) 16 ltac:(discriminate)) as E2.
  pose proof (N.div_mod (n / 16 / 16) 16 ltac:(discriminate)) as E3.
  pose proof (N.mod_lt n 16 ltac:(discriminate)).
  pose proof (N.mod_lt (n / 16) 16 ltac:(discriminate)).
  pose proof (N.mod_lt (n / 16 / 16) 16 ltac:(discriminate)).
  assert (n / 16 / 16 / 16 < 16)%N.
  { rewrite !N.Div0.div_div. apply N.Div0.div_lt_upper_bound. simpl. lia. }
  rewrite (N.mod_small (n / 16 / 16 / 16)) by assumption.
  set (a := (n / 16)%N) in *. set (b := (a / 16)%N) in *.
  set (c := (b / 16)%N) in *.
  set (x := (n mod 16)%N) in *. set (y := (a mod 16)%N) in *.
  set (z := (b mod 16)%N) in *.
  lia.
Qed.

(** Four hexadecimal digits read back as the number they were written from. *)
Lemma unhex4_hex4 n :
  (n < 65536)%N →
  unhex4 (hexdigit (n / 4096 mod 16)) (hexdigit (n / 256 mod 16))
         (hexdigit (n / 16 mod 16)) (hexdigit (n mod 16)) = Some n.
Proof.
  intros H. unfold unhex4.
  rewrite !hexval_hexdigit by (apply N.mod_lt; discriminate).
  simpl. f_equal. by apply hex_digits_sum.
Qed.

Lemma lor_disjoint a b : N.land a b = 0%N → N.lor a b = (a + b)%N.
Proof.
  intros H. rewrite <- N.lxor_lor by exact H. symmetry.
  by apply N.add_nocarry_lxor.
Qed.

Lemma land_shiftl_low x y : (y < 1024)%N → N.land (N.shiftl x 10) y = 0%N.
Proof.
  intros H. apply N.bits_inj. intros i. rewrite N.land_spec, N.bits_0.
  destruct (N.ltb_spec i 10).
  - by rewrite N.shiftl_spec_low by assumption.
  - replace y with (y mod 2 ^ 10)%N by (apply N.mod_small; exact H).
    rewrite N.mod_pow2_bits_high by assumption. apply andb_false_r.
Qed.

(** The two halves of a surrogate pair, as numbers. *)
Lemma surrogates n :
  (n < 0x100000)%N →
  N.lor 0xd800 (N.land (N.shiftr n 10) 0x3ff) = (0xd800 + n / 1024)%N
  ∧ N.lor 0xdc00 (N.land n 0x3ff) = (0xdc00 + n mod 1024)%N.
Proof.
  intros H.
  assert (n / 1024 < 1024)%N as Hq
    by (apply N.Div0.div_lt_upper_bound; simpl; lia).
  assert (n mod 1024 < 1024)%N as Hr by (apply N.mod_lt; discriminate).
  change 0x3ff%N with (N.ones 10). rewrite !N.land_ones, N.shiftr_div_pow2.
  change (2 ^ 10)%N with 1024%N. rewrite (N.mod_small (n / 1024)) by done.
  change 0xd800%N with (N.shiftl 54 10). change 0xdc00%N with (N.shiftl 55 10).
  split; apply lor_disjoint; by apply land_shiftl_low.
Qed.

Lemma surrogates_join n :
  (n < 0x100000)%N →
  (0x10000 + N.lor (N.shiftl (0xd800 + n / 1024 - 0xd800) 10)
                   (0xdc00 + n mod 1024 - 0xdc00) = 0x10000 + n)%N.
Proof.
  intros H.
  assert (n mod 1024 < 1024)%N as Hr by (apply N.mod_lt; discriminate).
  rewrite !(N.add_comm _ (n / 1024)), !(N.add_comm _ (n mod 1024)).
  rewrite !N.add_sub.
  rewrite lor_disjoint by (by apply land_shiftl_low).
  rewrite N.shiftl_mul_pow2. change (2 ^ 10)%N with 1024%N.
  pose proof (N.div_mod n 1024 ltac:(discriminate)). lia.
Qed.

(** The three shapes of what the encoder writes for one character, as the
    decoder reads them. *)
Lemma scan_plain c s :
  (c =? 34)%N = false → (c <? 32)%N = false → (c =? 92)%N = false →
  scanstring (c :: s) = prod_map (cons c) id <$> scanstring s.
Proof. intros H1 H2 H3. cbn [scanstring]. by rewrite H1, H2, H3. Qed.

Lemma scan_short e ch s :
  (e =? 117)%N = false → unescape e = Some ch →
  scanstring (92%N :: e :: s) = prod_map (cons ch) id <$> scanstring s.
Proof. intros H1 H2. cbn [scanstring]. simpl. by rewrite H1, H2. Qed.

Lemma scan_u4 h1 h2 h3 h4 uni s :
  unhex4 h1 h2 h3 h4 = Some uni → is_high uni = false →
  scanstring (92%N :: 117%N :: h1 :: h2 :: h3 :: h4 :: s) =
  prod_map (cons uni) id <$> scanstring s.
Proof. intros H1 H2. cbn [scanstring]. simpl. by rewrite H1, H2. Qed.

Lemma scan_pair h1 h2 h3 h4 l1 l2 l3 l4 u1 u2 s :
  unhex4 h1 h2 h3 h4 = Some u1 → is_high u1 = true →
  unhex4 l1 l2 l3 l4 = Some u2 → is_low u2 = true →
  scanstring (92%N :: 117%N :: h1 :: h2 :: h3 :: h4
              :: 92%N :: 117%N :: l1 :: l2 :: l3 :: l4 :: s) =
  prod_map (cons (0x10000 + N.lor (N.shiftl (u1 - 0xd800) 10) (u2 - 0xdc00))%N)
           id <$> scanstring s.
Proof.
  intros H1 H2 H3 H4. cbn [scanstring]. simpl. by rewrite H1, H2, H3, H4.
Qed.

(** What the encoder writes for a scalar value decodes to it. *)
Lemma scan_escape c s :
  scalar c →
  scanstring (escape c ++ s) = prod_map (cons c) id <$> scanstring s.
Proof.
  intros [Hs Hmax]. unfold escape.
  destruct (N.eqb_spec c 92) as [->|H92]; [by apply (scan_short 92 92)|].
  destruct (N.eqb_spec c 34) as [->|H34]; [by apply (scan_short 34 34)|].
  destruct (N.eqb_spec c 8) as [->|H8]; [by apply (scan_short 98 8)|].
  destruct (N.eqb_spec c 12) as [->|H12]; [by apply (scan_short 102 12)|].
  destruct (N.eqb_spec c 10) as [->|H10]; [by apply (scan_short 110 10)|].
  destruct (N.eqb_spec c 13) as [->|H13]; [by apply (scan_short 114 13)|].
  destruct (N.eqb_spec c 9) as [->|H9]; [by apply (scan_short 116 9)|].
  destruct ((32 <=? c) && (c <=? 126))%N eqn:Hp.
  { apply andb_prop in Hp as [Hlo _]. apply N.leb_le in Hlo.
    apply scan_plain.
    - by apply N.eqb_neq.
    - apply N.ltb_ge. lia.
    - by apply N.eqb_neq. }
  destruct (N.ltb_spec c 0x10000) as [Hbmp|Hsup].
  - unfold hex4. cbn [app]. apply scan_u4.
    + apply unhex4_hex4. lia.
    + unfold is_high. destruct Hs as [Hs|Hs].
      * apply andb_false_intro1. apply N.leb_gt. lia.
      * apply andb_false_intro2. apply N.leb_gt. lia.
  - cbv zeta. clear Hp.
    assert (c - 0x10000 < 0x100000)%N as Hn by lia.
    assert (0x10000 + (c - 0x10000) = c)%N as Hc
      by (rewrite N.add_comm; by apply N.sub_add).
    revert Hn Hc. generalize (c - 0x10000)%N. intros n Hn Hc.
    destruct (surrogates n Hn) as [-> ->].
    assert (n / 1024 < 1024)%N as Hq
      by (apply N.Div0.div_lt_upper_bound; simpl; lia).
    assert (n mod 1024 < 1024)%N as Hr by (apply N.mod_lt; discriminate).
    pose proof (surrogates_join n Hn) as Hj. rewrite Hc in Hj.
    revert Hq Hr Hj. generalize (n / 1024)%N (n mod 1024)%N.
    intros hi lo Hq Hr Hj.
    unfold hex4. cbn [app].
    rewrite (scan_pair _ _ _ _ _ _ _ _ (0xd800 + hi) (0xdc00 + lo)).
    + by rewrite Hj.
    + apply unhex4_hex4. lia.
    + unfold is_high. apply andb_true_intro. split; apply N.leb_le; lia.
    + apply unhex4_hex4. lia.
    + unfold is_low. apply andb_true_intro. split; apply N.leb_le; lia.
Qed.

Lemma scan_dumped s rest :
  Forall scalar s →
  scanstring (concat (escape <$> s) ++ 34%N :: rest) = Some (s, rest).
Proof.
  induction 1 as [|c s Hc _ IH]; [done|].
  rewrite fmap_cons, concat_cons, <- app_assoc.
  rewrite (scan_escape c _ Hc), IH. done.
Qed.

(** Decoding the JSON text of a string of scalar values gives the string. *)
Lemma loads_dumps s : Forall scalar s → loads (dumps s) = Some s.
Proof.
  intros Hs. unfold loads, dumps.
  change (skip_ws (34%N :: ?l)) with (34%N :: l). cbn iota beta.
  rewrite N.eqb_refl. by rewrite (scan_dumped s [] Hs).
Qed.

(** A surrogate pair written as two code points does not survive: it
    decodes to the one character it encodes. *)
Example loads_dumps_surrogate_pair :
  loads (dumps [0xd800; 0xdc00]%N) = Some [0x10000%N].
Proof. vm_compute. reflexivity. Qed.

End JsonFacts.

(** * The claims about the device worker *)

Section WorkerClaims.
Import Dispatcher DispatcherFacts Worker WorkerFacts SystemFacts.

(** C3.  In a run of the main program every worker's queue receives the
    paths of its lane and then exactly one sentinel, the last message.  A
    worker on such a queue, whatever follows the sentinel on it, never
    blocks; the messages it gets are the first messages of the queue, all of
    them paths except that, when the worker returns, the last one is the
    sentinel.  The worker returns exactly when it has got the sentinel, and
    it has then got every path of its lane and the sentinel and nothing of
    what follows the sentinel.  A worker whose loader can be constructed and
    that gets through the paths of its lane does get the sentinel and
    return: its run is the construction, its turns for the paths and the
    [get] of the sentinel, and what follows the sentinel stays on the
    queue. *)
Theorem sentinel_is_last (B : Backend) (inp : input)
    (names ds : list (list N)) (env fs : gmap (list N) (list N)) :
  listdir inp = Some names →
  parse_command (int inp) (on inp) = Ok (Some ds) →
  ∃ st, main inp = (Ok (), st)
    ∧ ∀ i, i < length ds →
        ∃ device items,
          workers st !! i = Some (device, i)
          ∧ items = lane (length ds) i (select (exists_ inp) names)
          ∧ store st !! i = Some ((Some <$> items) ++ [None])
          ∧ ∀ post,
              let env' := <[CUDA_VISIBLE_DEVICES := device]> env in
              let q := (Some <$> items) ++ None :: post in
              let r := process_pdf B device q env fs in
              r_outcome B r ≠ Blocked
              ∧ q = gets (r_events B r) ++ r_rest B r
              ∧ (∃ taken,
                   gets (r_events B r) =
                   (Some <$> taken)
                   ++ match r_outcome B r with
                      | Returned => [None]
                      | _ => []
                      end)
              ∧ (r_outcome B r = Returned ↔ None ∈ gets (r_events B r))
              ∧ (r_outcome B r = Returned →
                 gets (r_events B r) = (Some <$> items) ++ [None]
                 ∧ r_rest B r = post)
              ∧ (∀ loader fs0 loader1 fs1 evs1,
                   construct B env' first_file_path device fs
                     = (Some loader, fs0) →
                   loop B env' loader fs0 (Some <$> items) =
                     mkRun B Blocked (Some loader1) fs1 [] evs1 →
                   r = mkRun B Returned (Some loader1) fs1 post
                         (EvSetenv CUDA_VISIBLE_DEVICES device
                          :: EvConstruct (Some device)
                          :: evs1 ++ [EvGet None])).
Proof.
  intros Hl Hp. eexists. split; [by apply main_ok|].
  intros i Hi. cbn [workers store].
  destruct (reverse ds !! i) as [device|] eqn:Hd.
  2:{ apply lookup_ge_None in Hd. rewrite length_reverse in Hd. lia. }
  exists device, (lane (length ds) i (select (exists_ inp) names)).
  split.
  { apply lookup_zip_Some. split; [done|]. by apply lookup_seq_lt. }
  split; [done|]. split.
  { rewrite list_lookup_fmap. by rewrite lookup_seq_lt by done. }
  assert (environ_error device = None) as Henv.
  { apply parse_command_devices in Hp. rewrite Forall_forall in Hp.
    destruct (Hp device) as [z ->]; [|apply environ_error_str_int].
    apply elem_of_reverse. by eapply list_elem_of_lookup_2. }
  intros post.
  set (items := lane (length ds) i (select (exists_ inp) names)).
  cbn zeta. unfold process_pdf. rewrite Henv.
  destruct (construct B _ _ _ _) as [[loader|] fs0].
  - set (env' := <[CUDA_VISIBLE_DEVICES:=device]> env).
    pose proof (loop_sentinel B env' items post loader fs0) as Hs.
    pose proof (loop_gets B env' ((Some <$> items) ++ None :: post) loader fs0)
      as (Hq & taken & Ht & _).
    pose proof (loop_returned_iff B env' ((Some <$> items) ++ None :: post)
                  loader fs0) as Hiff.
    cbn zeta in Hs. unfold prepend. cbn [r_outcome r_events r_rest].
    rewrite gets_app. change (gets [_; _]) with (@nil (option (list N))).
    cbn [app].
    split; [intros Hb; by rewrite Hb in Hs|].
    split; [exact Hq|]. split; [by exists taken|]. split; [exact Hiff|].
    split.
    + intros H. rewrite H in Hs. by destruct Hs as (? & ? & _).
    + intros loader' fs0' loader1 fs1 evs1 [= <- <-] Hloop.
      rewrite (loop_through B _ _ post _ _ _ _ _ Hloop).
      cbn [r_outcome r_loader r_fs r_rest r_events app].
      unfold env'. by rewrite lookup_insert_eq.
  - cbn [r_outcome r_events r_rest].
    split; [done|]. split; [done|]. split; [by exists []|].
    split; [split; [done|by intros ?%elem_of_nil]|].
    split; [done|]. by intros ? ? ? ? ? [=].
Qed.

Lemma sentinel_is_last_witness :
  let x := Py.lit "/pdfs/x.pdf" in
  let z := Py.lit "/pdfs/z.pdf" in
  let late := Py.lit "/pdfs/late.pdf" in
  ∃ st, main Demo.scenario = (Ok (), st)
    ∧ workers st !! 0 = Some (Py.lit "1", 0)
    ∧ store st !! 0 = Some [Some x; Some z; None]
    ∧ let r := process_pdf Demo.backend (Py.lit "1")
                 [Some x; Some z; None; Some late] ∅ ∅ in
      r_outcome Demo.backend r = Returned
      ∧ gets (r_events Demo.backend r) = [Some x; Some z; None]
      ∧ r_rest Demo.backend r = [Some late].
Proof.
  cbn zeta.
  destruct (sentinel_is_last Demo.backend Demo.scenario
              [Py.lit "x.pdf"; Py.lit "y.pdf"; Py.lit "z.pdf"]
              [Py.lit "0"; Py.lit "1"] ∅ ∅ eq_refl eq_refl)
    as (st & Hm & H).
  exists st. split; [exact Hm|].
  destruct (H 0 ltac:(simpl; lia)) as (device & items & Hw & Hi & Hs & Hpost).
  rewrite (main_ok Demo.scenario _ _ eq_refl eq_refl) in Hm.
  injection Hm as <-.
  vm_compute in Hw. injection Hw as <-.
  subst items.
  split; [reflexivity|]. split; [exact Hs|].
  destruct (Hpost [Some (Py.lit "/pdfs/late.pdf")])
    as (_ & _ & _ & _ & Hret & Hthrough).
  specialize (Hthrough 0 ∅ 2
    (<[Py.lit "ocr_results/z.pdf.json" :=
         Json.dumps (Py.lit "Hello" ++ Py.nlnl ++ Py.lit "World" ++ Py.nlnl)]>
     (<[Py.lit "ocr_results/x.pdf.json" :=
         Json.dumps (Py.lit "Hello" ++ Py.nlnl ++ Py.lit "World" ++ Py.nlnl)]>
      ∅))
    (r_events Demo.backend
       (loop Demo.backend (<[CUDA_VISIBLE_DEVICES:=Py.lit "1"]> ∅) 0 ∅
          [Some (Py.lit "/pdfs/x.pdf"); Some (Py.lit "/pdfs/z.pdf")]))
    ltac:(vm_compute; reflexivity) ltac:(vm_compute; reflexivity)).
  assert (r_outcome Demo.backend
            (process_pdf Demo.backend (Py.lit "1")
               [Some (Py.lit "/pdfs/x.pdf"); Some (Py.lit "/pdfs/z.pdf");
                None; Some (Py.lit "/pdfs/late.pdf")] ∅ ∅) = Returned)
    as Hr by exact (f_equal (r_outcome Demo.backend) Hthrough).
  split; [exact Hr|]. exact (Hret Hr).
Defined.

(** C7.  A worker sets [CUDA_VISIBLE_DEVICES] to its device, leaving the
    rest of the environment as it is, before it constructs the loader, and
    assigns to the environment only that once; when the assignment raises
    the worker ends there, before any call into the backend.  Every call
    into the backend, the construction first and then every [load], is made
    in that environment: a loader that records the environments it is
    called in has recorded it once at its construction and once per [load]
    and nothing else, such a loader exists whenever the construction
    succeeds, and the run is the same for two backends that agree in that
    environment, whatever they do in any other. *)
Theorem device_bound_before_backend (B : Backend) (device : list N)
    (q : list (option (list N))) (env fs : gmap (list N) (list N)) :
  let env' := <[CUDA_VISIBLE_DEVICES := device]> env in
  let r := process_pdf B device q env fs in
  let ro := process_pdf (observed B) device q env fs in
  (env' !! CUDA_VISIBLE_DEVICES = Some device
   ∧ ∀ name, name ≠ CUDA_VISIBLE_DEVICES → env' !! name = env !! name)
  ∧ (environ_error device = None →
     ∃ evs,
       r_events B r =
       EvSetenv CUDA_VISIBLE_DEVICES device :: EvConstruct (Some device) :: evs
       ∧ setenvs evs = [])
  ∧ (∀ e, environ_error device = Some e → r = mkRun B (Died e) None fs q [])
  ∧ Forall (λ v, v = Some device) (visibles (r_events B r))
  ∧ (r_outcome _ ro = r_outcome B r
     ∧ r_fs _ ro = r_fs B r
     ∧ r_rest _ ro = r_rest B r
     ∧ r_events _ ro = r_events B r
     ∧ fst <$> r_loader _ ro = r_loader B r)
  ∧ (∀ loader log,
       r_loader _ ro = Some (loader, log) →
       log = replicate (S (length (loads_of (r_events B r)))) env')
  ∧ (environ_error device = None →
     is_Some (construct B env' first_file_path device fs).1 →
     is_Some (r_loader _ ro))
  ∧ (∀ construct2 load2,
       (∀ p d f, construct2 env' p d f = construct B env' p d f) →
       (∀ ld p f, load2 env' ld p f = load B env' ld p f) →
       components _
         (process_pdf (Build_Backend (Loader B) construct2 load2
                                     (can_create B)) device q env fs)
       = components B r).
Proof.
  cbn zeta. split.
  { split; [apply lookup_insert_eq|].
    intros name Hne. by apply lookup_insert_ne. }
  unfold process_pdf. destruct (environ_error device) as [e|] eqn:Henv.
  { cbn [r_events r_outcome r_fs r_rest r_loader].
    split; [done|]. split; [by intros ? [= <-]|]. split; [apply Forall_nil_2|].
    split; [done|]. split; [done|]. split; [done|]. done. }
  rewrite lookup_insert_eq.
  set (env' := <[CUDA_VISIBLE_DEVICES:=device]> env).
  cbn [construct observed].
  destruct (construct B env' first_file_path device fs)
    as [[loader|] fs0] eqn:Hc.
  - destruct (loop_env B env' q loader fs0) as [Hs Hv].
    unfold env' in Hv. rewrite lookup_insert_eq in Hv. fold env' in Hv.
    destruct (loop_observed B env' q loader [env'] fs0)
      as (H1 & H2 & H3 & H4 & H5).
    unfold prepend. cbn [r_events r_outcome r_fs r_rest r_loader].
    split; [intros _; eexists; split; [reflexivity|exact Hs]|].
    split; [done|].
    split.
    { rewrite visibles_app. apply Forall_app. split; [|exact Hv].
      by apply Forall_singleton. }
    split.
    { rewrite H1, H2, H3, H4, H5. repeat split.
      by destruct (r_loader B (loop B env' loader fs0 q)). }
    split.
    { intros ld log. rewrite H5.
      destruct (r_loader B (loop B env' loader fs0 q)); [|done].
      intros [= <- <-]. rewrite loads_of_app. done. }
    split.
    { intros _ _. rewrite H5.
      destruct (loop_loader B env' q loader fs0) as [ld ->]. by eexists. }
    intros construct2 load2 Hc2 Hl2. cbn [construct].
    rewrite Hc2, Hc.
    pose proof (loop_env_only B env' construct2 load2 q Hl2 loader fs0) as He.
    unfold components, prepend in *.
    cbn [r_outcome r_loader r_fs r_rest r_events] in *.
    injection He as -> -> -> -> ->. done.
  - cbn [r_events r_outcome r_fs r_rest r_loader].
    split; [intros _; by exists []|]. split; [done|].
    split; [by apply Forall_singleton|].
    split; [done|]. split; [done|].
    split; [intros _ [x Hx]; done|].
    intros construct2 load2 Hc2 Hl2. cbn [construct].
    by rewrite Hc2, Hc.
Qed.

Lemma device_bound_before_backend_witness :
  let env' := <[CUDA_VISIBLE_DEVICES := Py.lit "0"]> ∅ in
  let q := [Some (Py.lit "/pdfs/a.pdf"); Some (Py.lit "/pdfs/c.pdf"); None] in
  r_loader _ (process_pdf (observed Demo.backend) (Py.lit "0") q ∅ ∅)
  = Some (2, [env'; env'; env'])
  ∧ components _
      (process_pdf
         (Build_Backend nat
            (λ env p d f,
               if decide (env !! CUDA_VISIBLE_DEVICES = Some (Py.lit "0"))
               then construct Demo.backend env p d f else (None, ∅))
            (λ env ld p f,
               if decide (env !! CUDA_VISIBLE_DEVICES = Some (Py.lit "0"))
               then load Demo.backend env ld p f else (None, 0, ∅))
            (can_create Demo.backend))
         (Py.lit "0") q ∅ ∅)
    = components Demo.backend (process_pdf Demo.backend (Py.lit "0") q ∅ ∅).
Proof.
  cbn zeta.
  destruct (device_bound_before_backend Demo.backend (Py.lit "0")
              [Some (Py.lit "/pdfs/a.pdf"); Some (Py.lit "/pdfs/c.pdf"); None]
              ∅ ∅) as (_ & _ & _ & _ & (_ & _ & _ & _ & Hfst) & Hlog & Hsome
                       & Hsame).
  split.
  - destruct (Hsome ltac:(vm_compute; reflexivity)
                    ltac:(vm_compute; eauto)) as [[ld log] Hro].
    rewrite Hro in Hfst |- *. rewrite (Hlog ld log Hro).
    vm_compute in Hfst. injection Hfst as ->.
    f_equal.
  - apply Hsame.
    + intros p d f. rewrite lookup_insert_eq. by rewrite decide_True.
    + intros ld p f. rewrite lookup_insert_eq. by rewrite decide_True.
Defined.

(** C4.  When [load] returns the documents [docs] for a path and the result
    file can be created, the turn of the loop writes exactly one file,
    [ocr_results/<last component of the path>.json], whose content is the
    JSON text of the one string made of every page text followed by a blank
    line; the loop then goes on with the next message.  When the string has
    no surrogate code point the content decodes to it, and for the page
    texts [Hello] and [World] the content decodes to
    [Hello\n\nWorld\n\n]. *)
Theorem result_file_written (B : Backend) (env : gmap (list N) (list N))
    (loader loader' : Loader B) (fs fs1 : gmap (list N) (list N))
    (file_path : list N) (docs : list Document) :
  load B env loader file_path fs = (Some docs, loader', fs1) →
  can_create B (result_path file_path) = true →
  let path := Py.lit "ocr_results/" ++ Py.basename file_path ++ Py.lit ".json" in
  let s := concat ((λ d, page_content d ++ Py.nlnl) <$> docs) in
  let evs := [EvLoad file_path (env !! CUDA_VISIBLE_DEVICES);
              EvDump path (Json.dumps s)] in
  process_item B env loader fs file_path =
    (Ok (), loader', <[path := Json.dumps s]> fs1, evs)
  ∧ (<[path := Json.dumps s]> fs1) !! path = Some (Json.dumps s)
  ∧ (∀ p, p ≠ path → (<[path := Json.dumps s]> fs1) !! p = fs1 !! p)
  ∧ (∀ rest,
       loop B env loader fs (Some file_path :: rest) =
       prepend B (EvGet (Some file_path) :: evs)
               (loop B env loader' (<[path := Json.dumps s]> fs1) rest))
  ∧ (Forall Json.scalar s → Json.loads (Json.dumps s) = Some s)
  ∧ (page_content <$> docs = [Py.lit "Hello"; Py.lit "World"] →
     Json.loads (Json.dumps s) =
     Some (Py.lit "Hello" ++ Py.nlnl ++ Py.lit "World" ++ Py.nlnl)).
Proof.
  intros Hl Hc. cbn zeta.
  pose proof (process_item_ok B env loader loader' fs fs1 file_path docs Hl Hc)
    as Hp.
  rewrite joined_eq, result_path_eq in Hp.
  split; [exact Hp|]. split; [apply lookup_insert_eq|].
  split; [by intros p Hne; apply lookup_insert_ne|].
  split; [intros rest; cbn [loop]; by rewrite Hp|].
  split; [apply JsonFacts.loads_dumps|].
  - intros Hd. destruct docs as [|d1 [|d2 [|d3 docs]]]; try discriminate.
    simpl in Hd. injection Hd as H1 H2.
    rewrite !fmap_cons, fmap_nil. cbn [concat]. rewrite H1, H2.
    vm_compute. reflexivity.
Qed.

Lemma result_file_written_witness :
  let path := Py.lit "ocr_results/a.pdf.json" in
  let content := Json.dumps (Py.lit "Hello" ++ Py.nlnl ++ Py.lit "World" ++ Py.nlnl) in
  process_item Demo.backend ∅ 0 (<[Py.lit "a_page_0.png" := Py.lit "old"]> ∅)
               (Py.lit "/pdfs/a.pdf") =
    (Ok (), 1, <[path := content]> ∅,
     [EvLoad (Py.lit "/pdfs/a.pdf") None; EvDump path content])
  ∧ Json.loads content =
    Some (Py.lit "Hello" ++ Py.nlnl ++ Py.lit "World" ++ Py.nlnl).
Proof.
  pose proof (result_file_written Demo.backend ∅ 0 1
                (<[Py.lit "a_page_0.png" := Py.lit "old"]> ∅) ∅
                (Py.lit "/pdfs/a.pdf")
                [mkDocument (Py.lit "Hello") (Py.lit "/pdfs/a.pdf") 1;
                 mkDocument (Py.lit "World") (Py.lit "/pdfs/a.pdf") 2]
                ltac:(vm_compute; reflexivity) eq_refl)
    as (H1 & _ & _ & _ & _ & H5).
  split; [exact H1|]. exact (H5 eq_refl).
Defined.

(** C6.  A worker that got through the paths [pre] and whose [load] raises
    on the next path ends there with that exception: the files are as that
    [load] left them (the worker writes nothing for the failing path), the
    path was passed to [load] once, and the messages behind it stay on the
    queue, neither taken nor loaded.  Across all the workers of a run of
    the main program no path is passed to [load] twice. *)
Theorem extraction_failure_ends_worker (B : Backend) (device : list N)
    (env fs fs0 fs1 fs2 : gmap (list N) (list N))
    (loader loader1 loader2 : Loader B)
    (evs1 : list event) (pre : list (list N)) (file_path : list N)
    (rest : list (option (list N))) :
  let env' := <[CUDA_VISIBLE_DEVICES := device]> env in
  environ_error device = None →
  construct B env' first_file_path device fs = (Some loader, fs0) →
  loop B env' loader fs0 (Some <$> pre) =
    mkRun B Blocked (Some loader1) fs1 [] evs1 →
  load B env' loader1 file_path fs1 = (None, loader2, fs2) →
  let r :=
    process_pdf B device ((Some <$> pre) ++ Some file_path :: rest) env fs in
  r_outcome B r = Died BackendError
  ∧ r_fs B r = fs2
  ∧ r_rest B r = rest
  ∧ gets (r_events B r) = Some <$> (pre ++ [file_path])
  ∧ loads_of (r_events B r) = pre ++ [file_path]
  ∧ dumps_of (r_events B r) = dumps_of evs1
  ∧ (∀ inp names ds,
       listdir inp = Some names →
       Forall (λ f, Py.slash ∉ f) names → NoDup names →
       parse_command (int inp) (on inp) = Ok (Some ds) →
       ∃ st, main inp = (Ok (), st)
         ∧ NoDup (concat ((λ r, loads_of (r_events B r))
                          <$> runs B env fs st))).
Proof.
  cbn zeta. intros Henv Hc Hloop Hload.
  unfold process_pdf. rewrite Henv, Hc, (loop_app B _ _ _ _ _ _ _ _ Hloop).
  cbn [loop]. rewrite (process_item_load_fails B _ _ _ _ _ _ Hload).
  unfold prepend. cbn [r_outcome r_fs r_rest r_events].
  apply (loop_blocked B) in Hloop as [Hg Hl].
  repeat split.
  - rewrite !gets_app, Hg. by rewrite fmap_app.
  - rewrite !loads_of_app, Hl. done.
  - rewrite !dumps_of_app. simpl. by rewrite app_nil_r.
  - intros inp names ds Hdir Hslash Hnd Hp. eexists.
    split; [by apply main_ok|].
    apply parse_command_Some in Hp as (_ & _ & _ & Hpos).
    eapply sublist_NoDup; [|by apply runs_loads_sublist].
    unfold lane. rewrite (lanes_plain_permutation (length ds) 0 _ Hpos).
    rewrite select_eq by done.
    apply NoDup_fmap_2; [apply _|]. by apply NoDup_filter.
Qed.

Lemma extraction_failure_ends_worker_witness :
  let q := [Some (Py.lit "/pdfs/a.pdf"); Some (Py.lit "/pdfs/bad.pdf");
            Some (Py.lit "/pdfs/c.pdf"); None] in
  let r := process_pdf Demo.backend (Py.lit "0") q ∅ ∅ in
  r_outcome Demo.backend r = Died BackendError
  ∧ r_rest Demo.backend r = [Some (Py.lit "/pdfs/c.pdf"); None]
  ∧ loads_of (r_events Demo.backend r) =
    [Py.lit "/pdfs/a.pdf"; Py.lit "/pdfs/bad.pdf"]
  ∧ dom (r_fs Demo.backend r) =
    {[Py.lit "bad_page_0.png"; Py.lit "ocr_results/a.pdf.json"]}.
Proof.
  cbn zeta.
  pose proof (extraction_failure_ends_worker Demo.backend (Py.lit "0") ∅ ∅ ∅
    (<[Py.lit "ocr_results/a.pdf.json" :=
         Json.dumps (Py.lit "Hello" ++ Py.nlnl ++ Py.lit "World" ++ Py.nlnl)]> ∅)
    (<[Py.lit "bad_page_0.png" := Py.lit "PNG"]>
     (<[Py.lit "ocr_results/a.pdf.json" :=
         Json.dumps (Py.lit "Hello" ++ Py.nlnl ++ Py.lit "World" ++ Py.nlnl)]>
      ∅))
    0 1 2
    [EvGet (Some (Py.lit "/pdfs/a.pdf"));
     EvLoad (Py.lit "/pdfs/a.pdf") (Some (Py.lit "0"));
     EvDump (Py.lit "ocr_results/a.pdf.json")
       (Json.dumps (Py.lit "Hello" ++ Py.nlnl ++ Py.lit "World" ++ Py.nlnl))]
    [Py.lit "/pdfs/a.pdf"] (Py.lit "/pdfs/bad.pdf")
    [Some (Py.lit "/pdfs/c.pdf"); None]
    ltac:(vm_compute; reflexivity) ltac:(vm_compute; reflexivity)
    ltac:(vm_compute; reflexivity) ltac:(vm_compute; reflexivity))
    as (H1 & H2 & H3 & _ & H5 & _).
  split; [exact H1|]. split; [exact H3|]. split; [exact H5|].
  cbn zeta in H2. simpl app in H2. rewrite H2.
  rewrite !dom_insert_L, dom_empty_L. by rewrite (right_id_L ∅ (∪)).
Defined.

End WorkerClaims.

(** * More about strings and paths *)

Module PyStrFacts.
Import IntFacts.
Import Py PyStr.

Lemma split_cons_sep sep s : split sep (sep :: s) = [] :: split sep s.
Proof. simpl. by rewrite decide_True. Qed.

Lemma split_cons_other sep c s :
  c ≠ sep →
  ∃ w ws, split sep s = w :: ws ∧ split sep (c :: s) = (c :: w) :: ws.
Proof.
  intros Hc. simpl. rewrite decide_False by done.
  destruct (split sep s) as [|w ws] eqn:Hs.
  - by apply DispatcherFacts.split_not_nil in Hs.
  - by exists w, ws.
Qed.

Lemma join_split sep s : join sep (split sep s) = s.
Proof.
  induction s as [|c s IH]; [done|].
  destruct (decide (c = sep)) as [->|Hc].
  - rewrite split_cons_sep.
    destruct (split sep s) as [|w ws] eqn:Hs.
    + by apply DispatcherFacts.split_not_nil in Hs.
    + cbn [join] in *. by rewrite IH.
  - destruct (split_cons_other sep c s Hc) as (w & ws & Hs & ->).
    rewrite Hs in IH. destruct ws as [|w' ws]; cbn [join] in *.
    + by rewrite IH.
    + by rewrite <- IH.
Qed.

Lemma split_pieces sep s : Forall (λ w, sep ∉ w) (split sep s).
Proof.
  induction s as [|c s IH].
  - apply Forall_singleton. apply not_elem_of_nil.
  - destruct (decide (c = sep)) as [->|Hc].
    + rewrite split_cons_sep. apply Forall_cons. split; [|done].
      apply not_elem_of_nil.
    + destruct (split_cons_other sep c s Hc) as (w & ws & Hs & ->).
      rewrite Hs in IH. apply Forall_cons in IH as [Hw Hws].
      apply Forall_cons. split; [|done].
      apply not_elem_of_cons. split; [congruence|done].
Qed.

Lemma length_split sep s : length (split sep s) = S (count sep s).
Proof.
  unfold count. induction s as [|c s IH]; [done|].
  rewrite filter_cons. destruct (decide (c = sep)) as [->|Hc].
  - rewrite split_cons_sep, decide_True by done. simpl. by rewrite IH.
  - destruct (split_cons_other sep c s Hc) as (w & ws & Hs & ->).
    rewrite decide_False by congruence. by rewrite <- IH, Hs.
Qed.

Lemma split_no_sep sep x : sep ∉ x → split sep x = [x].
Proof.
  induction x as [|c x IH]; intros Hx; [done|].
  apply not_elem_of_cons in Hx as [Hc Hx].
  destruct (split_cons_other sep c x) as (w & ws & Hs & ->); [congruence|].
  rewrite (IH Hx) in Hs. by injection Hs as <- <-.
Qed.

Lemma split_app_sep sep x r :
  sep ∉ x → split sep (x ++ sep :: r) = x :: split sep r.
Proof.
  induction x as [|c x IH]; intros Hx.
  - apply split_cons_sep.
  - apply not_elem_of_cons in Hx as [Hc Hx].
    destruct (split_cons_other sep c (x ++ sep :: r))
      as (w & ws & Hs & Hcs); [congruence|].
    rewrite <- app_comm_cons, Hcs. rewrite (IH Hx) in Hs.
    by injection Hs as <- <-.
Qed.

Lemma split_join sep l :
  l ≠ [] → Forall (λ w, sep ∉ w) l → split sep (join sep l) = l.
Proof.
  intros Hne Hl. induction Hl as [|x l Hx Hl IH]; [done|].
  destruct l as [|y l]; cbn [join].
  - by apply split_no_sep.
  - rewrite split_app_sep by done. f_equal. by apply IH.
Qed.

(** ** Printing integers *)

Lemma N_of_ascii_inj a b : N_of_ascii a = N_of_ascii b → a = b.
Proof.
  intros H. rewrite <- (ascii_N_embedding a), <- (ascii_N_embedding b).
  by rewrite H.
Qed.

Lemma list_ascii_of_string_inj s t :
  list_ascii_of_string s = list_ascii_of_string t → s = t.
Proof.
  intros H. rewrite <- (string_of_list_ascii_of_string s).
  rewrite <- (string_of_list_ascii_of_string t). by rewrite H.
Qed.

Lemma lit_inj s t : lit s = lit t → s = t.
Proof.
  unfold lit. intros H. apply list_ascii_of_string_inj.
  revert H. generalize (list_ascii_of_string s) (list_ascii_of_string t).
  intros l. induction l as [|a l IH]; intros [|b k] H; try done.
  rewrite !fmap_cons in H. injection H as H1 H2.
  f_equal; [by apply N_of_ascii_inj|by apply IH].
Qed.

Lemma to_int_normal z : Z.to_int z ≠ Decimal.Pos Decimal.Nil
                        ∧ Z.to_int z ≠ Decimal.Neg Decimal.Nil.
Proof.
  pose proof (DecimalZ.to_of (Z.to_int z)) as H.
  rewrite DecimalZ.of_to in H. split; intros E; rewrite E in H; discriminate.
Qed.

Lemma str_int_inj z z' : str_int z = str_int z' → z = z'.
Proof.
  unfold str_int. intros H%lit_inj. apply DecimalZ.to_int_inj.
  destruct (to_int_normal z) as [H1 H2]. destruct (to_int_normal z') as [H3 H4].
  pose proof (NilZero.isi _ H1 H2) as E. pose proof (NilZero.isi _ H3 H4) as E'.
  rewrite H in E. rewrite E in E'. by injection E'.
Qed.

(** ** [splitext] *)

Lemma rfind_lt c s i : rfind c s = Some i → i < length s.
Proof.
  intros (H & _)%PyFacts.rfind_Some. by apply lookup_lt_Some in H.
Qed.

Lemma splitext_parts p :
  (splitext p).1 ++ (splitext p).2 = p
  ∧ ((splitext p).2 = []
     ∨ ∃ e, (splitext p).2 = (dot :: e) ∧ (dot ∉ e) ∧ (slash ∉ e)).
Proof.
  unfold splitext. destruct (rfind dot p) as [i|] eqn:Hi.
  2:{ split; [apply app_nil_r|by left]. }
  destruct ((bool_decide (rfind1 slash p ≤ i))
            && (has_nondot (i - rfind1 slash p) (drop (rfind1 slash p) p)))
    eqn:Hc.
  2:{ split; [apply app_nil_r|by left]. }
  cbn [fst snd]. split; [apply take_drop|]. right.
  apply andb_prop in Hc as [Hle _]. apply bool_decide_eq_true in Hle.
  apply PyFacts.rfind_Some in Hi as [Hd He].
  exists (drop (S i) p). split; [by apply drop_S|]. split; [done|].
  pose proof (PyFacts.basename_no_slash p) as Hb. unfold basename in Hb.
  intros Hin. apply Hb.
  replace (S i) with (rfind1 slash p + (S i - rfind1 slash p)) in Hin by lia.
  rewrite <- drop_drop in Hin.
  exact (subseteq_drop _ _ _ Hin).
Qed.

(** The characters of a printed integer are digits and the minus sign. *)
Lemma str_int_no_slash z : slash ∉ str_int z.
Proof.
  intros H. pose proof (str_int_chars z) as Hc.
  rewrite Forall_forall in Hc. apply Hc in H. unfold slash in H. lia.
Qed.

End PyStrFacts.

Section StringExtras.
Import Py PyStr PyStrFacts.

(** X1.  [split] and [join] are inverse to each other: joining the pieces of
    a string with the separator gives the string back, no piece holds the
    separator, there is one piece more than there are separators in the
    string, and splitting the join of a non-empty list of separator-free
    pieces gives the list back. *)
Theorem split_join_inverse (sep : N) (s : list N) :
  join sep (split sep s) = s
  ∧ Forall (λ w, sep ∉ w) (split sep s)
  ∧ length (split sep s) = S (count sep s)
  ∧ (∀ l, l ≠ [] → Forall (λ w, sep ∉ w) l → split sep (join sep l) = l).
Proof.
  split; [apply join_split|]. split; [apply split_pieces|].
  split; [apply length_split|]. intros l. apply split_join.
Qed.

(** X2.  The page images of a document get pairwise distinct names, one per
    page index, and no name holds a slash: the images are written to the
    working directory whatever directory the document is in.  The stem of
    the names is the last component of the path without its extension, the
    extension being empty or a period followed by characters other than the
    period and the slash. *)
Theorem page_image_names (file_path : list N) :
  let name := Pix2Text.pdf_name_of file_path in
  (∀ i j, Pix2Text.png_name name i = Pix2Text.png_name name j → i = j)
  ∧ (∀ i, slash ∉ Pix2Text.png_name name i)
  ∧ ∃ ext, basename file_path = name ++ ext
           ∧ (ext = [] ∨ ∃ e, ext = dot :: e ∧ (dot ∉ e) ∧ (slash ∉ e)).
Proof.
  cbn zeta. unfold Pix2Text.pdf_name_of.
  destruct (splitext_parts (basename file_path)) as [Hparts Hext].
  assert (slash ∉ (splitext (basename file_path)).1) as Hname.
  { intros Hin. apply (PyFacts.basename_no_slash file_path).
    rewrite <- Hparts. apply elem_of_app. by left. }
  split; [|split].
  - intros i j H. unfold Pix2Text.png_name in H.
    apply app_inv_tail, app_inv_head, str_int_inj in H. lia.
  - intros i. unfold Pix2Text.png_name. rewrite !elem_of_app.
    intros [[[H|H]|H]|H].
    + done.
    + vm_compute in H. by repeat (apply elem_of_cons in H as [?|H];
                                  [done|]); apply elem_of_nil in H.
    + by apply str_int_no_slash in H.
    + vm_compute in H. by repeat (apply elem_of_cons in H as [?|H];
                                  [done|]); apply elem_of_nil in H.
  - exists (splitext (basename file_path)).2. by split.
Qed.

End StringExtras.

(** * More about the dispatcher *)

Module BalanceFacts.
Import Dispatcher DispatcherFacts.

Lemma length_by_lookup {A} (l : list A) (m : nat) :
  (∀ k, is_Some (l !! k) ↔ k < m) → length l = m.
Proof.
  intros H. destruct (Nat.lt_trichotomy (length l) m) as [Hlt|[Heq|Hgt]].
  - apply H in Hlt. apply lookup_lt_is_Some in Hlt. lia.
  - done.
  - apply lookup_lt_is_Some in Hgt. apply H in Hgt. lia.
Qed.

Lemma lt_div_iff a n k : 0 < n → k < a / n ↔ n * S k ≤ a.
Proof.
  intros Hn. split.
  - intros Hk. pose proof (Nat.Div0.mul_div_le a n) as Hle.
    assert (n * S k ≤ n * (a / n)) by (apply Nat.mul_le_mono_l; lia). lia.
  - intros Hk. apply (Nat.div_le_lower_bound a n (S k)); lia.
Qed.

(** The number of items round-robin hands to channel [j]. *)
Lemma length_lane n j l :
  j < n → length (lane n j l) = (length l + (n - 1 - j)) / n.
Proof.
  intros Hj. apply length_by_lookup. intros k.
  rewrite lane_lookup by done. rewrite lookup_lt_is_Some.
  rewrite lt_div_iff by lia. rewrite Nat.mul_succ_r, (Nat.mul_comm n k). lia.
Qed.

End BalanceFacts.

Section DispatcherExtras.
Import Dispatcher DispatcherFacts BalanceFacts.

(** X3.  The distribution loop is balanced in the number of items: after
    the spawn loop for [n >= 1] devices and the distribution of the items
    [L], queue [j] holds [(len + n - 1 - j) / n] of the [len] items, so an
    earlier queue never holds fewer items than a later one and never more
    than one item more, and the queues together hold [len] items. *)
Theorem round_robin_balance (ds L : list (list N)) :
  1 ≤ length ds →
  let n := length ds in
  let st := (spawn n (mkState ds [] [] [])).2 in
  let h := distribute (store st) (cycle (q_list st)) L in
  (∀ j, j < n →
     ∃ ch, h !! j = Some ch ∧ length ch = (length L + (n - 1 - j)) / n)
  ∧ (∀ j j' ch ch', j ≤ j' → h !! j = Some ch → h !! j' = Some ch' →
       length ch' ≤ length ch ∧ length ch ≤ S (length ch'))
  ∧ length (concat h) = length L.
Proof.
  intros Hn. simpl. rewrite spawn_all. simpl. rewrite distribute_fresh.
  set (n := length ds) in *.
  assert (∀ j ch,
            ((λ j, Some <$> lane n j L) <$> seq 0 n) !! j = Some ch →
            j < n ∧ length ch = (length L + (n - 1 - j)) / n) as Hch.
  { intros j ch Hj. rewrite list_lookup_fmap in Hj.
    destruct (seq 0 n !! j) as [j0|] eqn:Hs; [|done].
    apply lookup_seq in Hs as [-> Hlt]. simpl in Hj. injection Hj as <-.
    split; [done|]. rewrite length_fmap. by apply length_lane. }
  split; [|split].
  - intros j Hj. exists (Some <$> lane n j L). split.
    + rewrite list_lookup_fmap. by rewrite lookup_seq_lt by done.
    + rewrite length_fmap. by apply length_lane.
  - intros j j' ch ch' Hle Hj Hj'.
    apply Hch in Hj as [Hlt ->]. apply Hch in Hj' as [Hlt' ->]. split.
    + apply Nat.Div0.div_le_mono. lia.
    + replace (S ((length L + (n - 1 - j')) / n))
        with ((length L + (n - 1 - j') + 1 * n) / n).
      * apply Nat.Div0.div_le_mono. lia.
      * rewrite Nat.div_add by lia. lia.
  - etrans; [|apply (length_fmap Some L)].
    apply Permutation_length. unfold lane. apply lanes_permutation. lia.
Qed.

Lemma round_robin_balance_witness :
  let ds := [Py.lit "0"; Py.lit "1"; Py.lit "2"] in
  let st := (spawn 3 (mkState ds [] [] [])).2 in
  let h := distribute (store st) (cycle (q_list st))
             (replicate 7 (Py.lit "f")) in
  length <$> h = [3; 2; 2].
Proof.
  cbn zeta.
  destruct (round_robin_balance [Py.lit "0"; Py.lit "1"; Py.lit "2"]
              (replicate 7 (Py.lit "f")) ltac:(simpl; lia))
    as (H & _ & _).
  destruct (H 0 ltac:(simpl; lia)) as (c0 & E0 & L0).
  destruct (H 1 ltac:(simpl; lia)) as (c1 & E1 & L1).
  destruct (H 2 ltac:(simpl; lia)) as (c2 & E2 & L2).
  vm_compute in E0, E1, E2. injection E0 as <-. injection E1 as <-.
  injection E2 as <-. reflexivity.
Defined.

(** X4.  The ways the main program can end.  It ends normally exactly when
    the directory can be listed, [--on] is given and [int] accepts every
    comma-separated piece of it; the devices are then the accepted integers
    printed back, one worker is started per device and the device list is
    used up.  Otherwise it ends with [OSError] (listing failed), [TypeError]
    ([--on] absent) or [SystemExit] (a piece rejected), in each case before
    any queue or worker exists.  The [pop] of the spawn loop never fails. *)
Theorem main_outcomes (inp : input) :
  match main inp with
  | (Ok _, st) =>
      ∃ names s ds,
        listdir inp = Some names ∧ on inp = Some s
        ∧ Forall2 (λ piece d, ∃ z, int inp piece = Some z ∧ d = Py.str_int z)
                  (Py.split Py.comma s) ds
        ∧ (workers st).*1 = reverse ds
        ∧ devices st = []
  | (Raise e, st) =>
      st = initial
      ∧ ((e = OSError ∧ listdir inp = None)
         ∨ (e = TypeError ∧ is_Some (listdir inp) ∧ on inp = None)
         ∨ (e = SystemExit ∧ is_Some (listdir inp)
            ∧ ∃ s, on inp = Some s
                   ∧ Exists (λ piece, int inp piece = None)
                            (Py.split Py.comma s)))
  end.
Proof.
  destruct (listdir inp) as [names|] eqn:Hl.
  2:{ unfold main. rewrite Hl. split; [done|]. by left. }
  destruct (parse_command (int inp) (on inp)) as [[ds|]|e] eqn:Hp.
  - rewrite (main_ok inp names ds Hl Hp).
    unfold parse_command in Hp. destruct (on inp) as [s|]; [|done].
    destruct (mapM _ _) as [l|] eqn:Hm; [|done]. injection Hp as ->.
    exists names, s, ds. split; [done|]. split; [done|]. split.
    + apply mapM_Some_1 in Hm. eapply Forall2_impl; [exact Hm|].
      intros piece d Hd. cbv beta in Hd.
      destruct (int inp piece) as [z|]; [|done].
      exists z. split; [done|]. simpl in Hd. by injection Hd as <-.
    + split; [|done]. cbn [workers]. apply fst_zip.
      rewrite length_reverse, length_seq. lia.
  - unfold main. rewrite Hl, Hp. split; [done|]. right. left.
    repeat split; [by eexists|]. unfold parse_command in Hp.
    destruct (on inp) as [s|]; [|done]. by destruct (mapM _ _).
  - unfold main. rewrite Hl, Hp. split; [done|]. right. right.
    unfold parse_command in Hp. destruct (on inp) as [s|]; [|done].
    destruct (mapM _ _) as [l|] eqn:Hm; [done|]. injection Hp as <-.
    repeat split; [by eexists|]. exists s. split; [done|].
    apply mapM_None_1 in Hm. eapply Exists_impl; [exact Hm|].
    intros piece Hd. cbv beta in Hd. by destruct (int inp piece).
Qed.

End DispatcherExtras.

Section ResumeExtras.
Import Dispatcher DispatcherFacts Worker WorkerFacts.

(** X5.  The result file of a path depends on the last component of the path
    only: two paths have the same result file exactly when their last
    components are equal.  The files selected from a listing without
    repeated names therefore have pairwise distinct result files. *)
Theorem result_files_by_name (file_path file_path' : list N) :
  (result_path file_path = result_path file_path'
   ↔ Py.basename file_path = Py.basename file_path')
  ∧ (∀ ex names,
       Forall (λ f, Py.slash ∉ f) names → NoDup names →
       NoDup (result_path <$> select ex names)).
Proof.
  split.
  - rewrite !result_path_eq. split.
    + by intros H%app_inv_head%app_inv_tail.
    + by intros ->.
  - intros ex names Hs Hnd. rewrite select_eq by done.
    rewrite <- list_fmap_compose.
    apply NoDup_fmap_2_strong; [|by apply NoDup_filter].
    intros f g Hf Hg Heq. unfold compose in Heq.
    apply list_elem_of_filter in Hf as [_ Hf].
    apply list_elem_of_filter in Hg as [_ Hg].
    rewrite Forall_forall in Hs.
    destruct (join_pdf_directory f (Hs f Hf)) as [_ Ef].
    destruct (join_pdf_directory g (Hs g Hg)) as [_ Eg].
    rewrite Ef, Eg in Heq. by apply app_inv_head, app_inv_tail in Heq.
Qed.

(** X6.  A file a worker has processed is not selected again.  When the
    turn of the loop for the path of a listed name has written its result,
    the result file exists, and on any file system on which that result
    file exists the name is not selected; and the writing of the result
    changes the selection of no other listed name: it is the same as on the
    files as [load] left them. *)
Theorem processed_not_selected_again (B : Backend)
    (env : gmap (list N) (list N)) (loader loader' : Loader B)
    (fs fs1 : gmap (list N) (list N)) (docs : list Document)
    (names : list (list N)) (f : list N) :
  Forall (λ f, Py.slash ∉ f) names → f ∈ names →
  load B env loader (pdf_directory ++ f) fs = (Some docs, loader', fs1) →
  can_create B (result_path (pdf_directory ++ f)) = true →
  ∃ fs' evs,
    process_item B env loader fs (pdf_directory ++ f)
      = (Ok (), loader', fs', evs)
    ∧ is_Some (fs' !! result_path (pdf_directory ++ f))
    ∧ (∀ fs'', is_Some (fs'' !! result_path (pdf_directory ++ f)) →
         pdf_directory ++ f ∉ select (path_exists fs'') names)
    ∧ (∀ g, g ∈ names → g ≠ f →
         pdf_directory ++ g ∈ select (path_exists fs') names
         ↔ pdf_directory ++ g ∈ select (path_exists fs1) names).
Proof.
  intros Hs Hf Hl Hc. eexists _, _.
  split; [by eapply process_item_ok|].
  split; [rewrite lookup_insert_eq; by eexists|].
  rewrite Forall_forall in Hs.
  destruct (join_pdf_directory f (Hs f Hf)) as [_ Ef]. rewrite Ef.
  assert (∀ ex g, g ∈ names →
            pdf_directory ++ g ∈ select ex names ↔ eligible ex g) as Hsel.
  { intros ex g Hg. rewrite select_eq by (by apply Forall_forall).
    rewrite list_elem_of_fmap. split.
    - intros (g' & ->%app_inv_head & Hin).
      by apply list_elem_of_filter in Hin as [? _].
    - intros He. exists g. split; [done|]. by apply list_elem_of_filter. }
  split.
  - intros fs'' Hex. rewrite Hsel by done. intros [_ Hne]. apply Hne.
    unfold path_exists. by apply bool_decide_pack.
  - intros g Hg Hne. rewrite !Hsel by done. unfold eligible, path_exists.
    rewrite lookup_insert_ne; [done|].
    by intros H%app_inv_head%app_inv_tail.
Qed.

Lemma processed_not_selected_again_witness :
  ∃ fs' evs,
    process_item Demo.backend ∅ 0 ∅ (pdf_directory ++ Py.lit "a.pdf") =
      (Ok (), 1, fs', evs)
    ∧ is_Some (fs' !! result_path (pdf_directory ++ Py.lit "a.pdf"))
    ∧ (∀ fs'', is_Some (fs'' !! result_path (pdf_directory ++ Py.lit "a.pdf")) →
         pdf_directory ++ Py.lit "a.pdf"
         ∉ select (path_exists fs'') [Py.lit "a.pdf"; Py.lit "b.pdf"])
    ∧ (∀ g, g ∈ [Py.lit "a.pdf"; Py.lit "b.pdf"] → g ≠ Py.lit "a.pdf" →
         pdf_directory ++ g
           ∈ select (path_exists fs') [Py.lit "a.pdf"; Py.lit "b.pdf"]
         ↔ pdf_directory ++ g
           ∈ select (path_exists ∅) [Py.lit "a.pdf"; Py.lit "b.pdf"]).
Proof.
  apply (processed_not_selected_again Demo.backend ∅ 0 1 ∅ ∅
           [mkDocument (Py.lit "Hello") (Py.lit "/pdfs/a.pdf") 1;
            mkDocument (Py.lit "World") (Py.lit "/pdfs/a.pdf") 2]).
  - assert (∀ f : list N, bool_decide (Py.slash ∉ f) = true → Py.slash ∉ f)
      as Hdec by (intros f; apply bool_decide_eq_true_1).
    apply Forall_cons; split; [apply Hdec; vm_compute; reflexivity|].
    apply Forall_cons; split; [apply Hdec; vm_compute; reflexivity|].
    apply Forall_nil_2.
  - apply elem_of_cons. by left.
  - vm_compute. reflexivity.
  - reflexivity.
Defined.

End ResumeExtras.

(** * More about the device worker *)

Module WorkerRunFacts.
Import Worker WorkerFacts.


Section WithBackend.
Context (B : Backend).


Lemma process_item_open_fails (env : gmap (list N) (list N))
    (loader loader' : Loader B) (fs fs1 : gmap (list N) (list N))
    (file_path : list N) (docs : list Document) :
  load B env loader file_path fs = (Some docs, loader', fs1) →
  can_create B (result_path file_path) = false →
  process_item B env loader fs file_path =
  (Raise OSError, loader', fs1,
   [EvLoad file_path (env !! CUDA_VISIBLE_DEVICES)]).
Proof. intros Hl Hc. unfold process_item. by rewrite Hl, Hc. Qed.



End WithBackend.

End WorkerRunFacts.

Section WorkerExtras.
Import Worker WorkerFacts WorkerRunFacts.



(** X8.  When the result file of a path cannot be opened for writing, the
    worker that got through the paths [pre] ends with [OSError] at that
    path after its [load] has returned: the loader and the files are as
    that [load] left them, nothing is dumped for the path, and the messages
    behind it stay on the queue. *)
Theorem open_failure_ends_worker (B : Backend) (device : list N)
    (env fs fs0 fs1 fs2 : gmap (list N) (list N))
    (loader loader1 loader2 : Loader B)
    (evs1 : list event) (pre : list (list N)) (file_path : list N)
    (docs : list Document) (rest : list (option (list N))) :
  let env' := <[CUDA_VISIBLE_DEVICES := device]> env in
  environ_error device = None →
  construct B env' first_file_path device fs = (Some loader, fs0) →
  loop B env' loader fs0 (Some <$> pre) =
    mkRun B Blocked (Some loader1) fs1 [] evs1 →
  load B env' loader1 file_path fs1 = (Some docs, loader2, fs2) →
  can_create B (result_path file_path) = false →
  let r :=
    process_pdf B device ((Some <$> pre) ++ Some file_path :: rest) env fs in
  r_outcome B r = Died OSError
  ∧ r_loader B r = Some loader2
  ∧ r_fs B r = fs2
  ∧ r_rest B r = rest
  ∧ loads_of (r_events B r) = pre ++ [file_path]
  ∧ dumps_of (r_events B r) = dumps_of evs1.
Proof.
  cbn zeta. intros Henv Hc Hloop Hload Hopen.
  unfold process_pdf. rewrite Henv, Hc, (loop_app B _ _ _ _ _ _ _ _ Hloop).
  cbn [loop].
  rewrite (process_item_open_fails B _ _ _ _ _ _ _ Hload Hopen).
  unfold prepend. cbn [r_outcome r_loader r_fs r_rest r_events].
  apply (loop_blocked B) in Hloop as [Hg Hl].
  repeat split.
  - rewrite !loads_of_app, Hl. done.
  - rewrite !dumps_of_app. simpl. by rewrite app_nil_r.
Qed.

Lemma open_failure_ends_worker_witness :
  let r := process_pdf Demo2.no_room (Py.lit "0")
             [Some (Py.lit "/pdfs/a.pdf"); Some (Py.lit "/pdfs/b.pdf");
              Some (Py.lit "/pdfs/c.pdf"); None] ∅
             (<[Py.lit "b_page_0.png" := Py.lit "old"]> ∅) in
  r_outcome Demo2.no_room r = Died OSError
  ∧ r_loader Demo2.no_room r = Some 2
  ∧ dom (r_fs Demo2.no_room r) = {[Py.lit "ocr_results/a.pdf.json"]}
  ∧ r_rest Demo2.no_room r = [Some (Py.lit "/pdfs/c.pdf"); None]
  ∧ loads_of (r_events Demo2.no_room r) =
    [Py.lit "/pdfs/a.pdf"; Py.lit "/pdfs/b.pdf"].
Proof.
  cbn zeta.
  pose proof (open_failure_ends_worker Demo2.no_room (Py.lit "0") ∅
    (<[Py.lit "b_page_0.png" := Py.lit "old"]> ∅)
    (<[Py.lit "b_page_0.png" := Py.lit "old"]> ∅)
    (<[Py.lit "ocr_results/a.pdf.json" :=
         Json.dumps (Py.lit "Hello" ++ Py.nlnl ++ Py.lit "World" ++ Py.nlnl)]>
     (<[Py.lit "b_page_0.png" := Py.lit "old"]> ∅))
    (<[Py.lit "ocr_results/a.pdf.json" :=
         Json.dumps (Py.lit "Hello" ++ Py.nlnl ++ Py.lit "World" ++ Py.nlnl)]> ∅)
    0 1 2
    [EvGet (Some (Py.lit "/pdfs/a.pdf"));
     EvLoad (Py.lit "/pdfs/a.pdf") (Some (Py.lit "0"));
     EvDump (Py.lit "ocr_results/a.pdf.json")
       (Json.dumps (Py.lit "Hello" ++ Py.nlnl ++ Py.lit "World" ++ Py.nlnl))]
    [Py.lit "/pdfs/a.pdf"] (Py.lit "/pdfs/b.pdf")
    [mkDocument (Py.lit "Hello") (Py.lit "/pdfs/b.pdf") 1;
     mkDocument (Py.lit "World") (Py.lit "/pdfs/b.pdf") 2]
    [Some (Py.lit "/pdfs/c.pdf"); None]
    ltac:(vm_compute; reflexivity) ltac:(vm_compute; reflexivity)
    ltac:(vm_compute; reflexivity) ltac:(vm_compute; reflexivity)
    ltac:(vm_compute; reflexivity)) as (H1 & H2 & H3 & H4 & H5 & _).
  split; [exact H1|]. split; [exact H2|]. split.
  - cbn zeta in H3. simpl app in H3. rewrite H3.
    rewrite dom_insert_L, dom_empty_L. apply (right_id_L ∅ (∪)).
  - split; [exact H4|exact H5].
Defined.

End WorkerExtras.

(** * More about the Pix2Text parser *)

Module ParseFacts.
Import Pix2Text.

Section WithLibs.
Context (L : Libs).

(** A turn of the loop reaches its [yield] exactly when the page renders,
    the image file can be created and the recogniser returns. *)
Lemma page_step_Ok_iff (blob : Blob) (pdf_name : list N) (idx : nat)
    (page : Page L) (fs : gmap (list N) (fdata (Pixmap L))) (d : Document) :
  (∃ fs', page_step L blob pdf_name idx page fs = (Ok d, fs'))
  ↔ ∃ pix outs,
      get_pixmap L page = Some pix
      ∧ can_create L (png_name pdf_name idx) = true
      ∧ p2t L pix = Some outs
      ∧ d = mkDocument (only_text outs) (blob_source blob) (idx + 1).
Proof.
  unfold page_step. split.
  - intros [fs' H].
    destruct (get_pixmap L page) as [pix|]; [|discriminate].
    destruct (can_create L (png_name pdf_name idx)); [|discriminate].
    rewrite lookup_insert_eq in H.
    destruct (p2t L pix) as [outs|] eqn:Hp; [|discriminate].
    injection H as <- _. by exists pix, outs.
  - intros (pix & outs & -> & -> & Hp & ->).
    rewrite lookup_insert_eq, Hp. by eexists.
Qed.

Lemma run_pages_docs (blob : Blob) (pdf_name : list N) :
  ∀ (pages : list (Page L)) (idx : nat)
    (fs fs' : gmap (list N) (fdata (Pixmap L))) (ds : list Document),
  run_pages L blob pdf_name idx pages fs = (Ok ds, fs') →
  length ds = length pages
  ∧ ∀ i page, pages !! i = Some page →
      ∃ pix outs,
        get_pixmap L page = Some pix
        ∧ can_create L (png_name pdf_name (idx + i)) = true
        ∧ p2t L pix = Some outs
        ∧ ds !! i = Some (mkDocument (only_text outs) (blob_source blob)
                                     (idx + i + 1)).
Proof.
  induction pages as [|page rest IH]; intros idx fs fs' ds H.
  - simpl in H. injection H as <- _. split; [done|]. by intros i page ?.
  - simpl in H.
    destruct (page_step L blob pdf_name idx page fs) as [[d|e] fs1] eqn:Hs;
      [|discriminate].
    destruct (run_pages L blob pdf_name (S idx) rest fs1)
      as [[ds1|e] fs2] eqn:Hr; [|discriminate].
    injection H as <- _.
    apply IH in Hr as [Hlen Hds].
    assert (∃ fs', page_step L blob pdf_name idx page fs = (Ok d, fs'))
      as Hd by eauto.
    apply page_step_Ok_iff in Hd as (pix & outs & H1 & H2 & H3 & ->).
    split; [simpl; by rewrite Hlen|].
    intros [|i] page' Hp; simpl in Hp.
    + injection Hp as <-. exists pix, outs. rewrite Nat.add_0_r. done.
    + destruct (Hds i page' Hp) as (pix' & outs' & G1 & G2 & G3 & G4).
      exists pix', outs'. rewrite Nat.add_succ_r. done.
Qed.

Lemma run_pages_total (blob : Blob) (pdf_name : list N) :
  ∀ (pages : list (Page L)) (idx : nat)
    (fs : gmap (list N) (fdata (Pixmap L))),
  (∀ i page, pages !! i = Some page →
     ∃ pix, get_pixmap L page = Some pix
            ∧ can_create L (png_name pdf_name (idx + i)) = true
            ∧ is_Some (p2t L pix)) →
  ∃ ds fs', run_pages L blob pdf_name idx pages fs = (Ok ds, fs').
Proof.
  induction pages as [|page rest IH]; intros idx fs H.
  - by exists [], fs.
  - destruct (H 0 page eq_refl) as (pix & H1 & H2 & [outs H3]).
    rewrite Nat.add_0_r in H2.
    destruct (proj2 (page_step_Ok_iff blob pdf_name idx page fs
                (mkDocument (only_text outs) (blob_source blob) (idx + 1))))
      as [fs1 Hs]; [by exists pix, outs|].
    destruct (IH (S idx) fs1) as (ds & fs2 & Hr).
    { intros i page' Hp. destruct (H (S i) page' Hp) as (pix' & G).
      exists pix'. by rewrite Nat.add_succ_r in G. }
    simpl. rewrite Hs, Hr. by eexists _, _.
Qed.

Lemma run_pages_app (blob : Blob) (pdf_name : list N) :
  ∀ (a b : list (Page L)) (idx : nat)
    (fs fs1 : gmap (list N) (fdata (Pixmap L))) (ds : list Document),
  run_pages L blob pdf_name idx a fs = (Ok ds, fs1) →
  run_pages L blob pdf_name idx (a ++ b) fs =
  match run_pages L blob pdf_name (idx + length a) b fs1 with
  | (Ok ds', fs2) => (Ok (ds ++ ds'), fs2)
  | (Raise e, fs2) => (Raise e, fs2)
  end.
Proof.
  induction a as [|page a IH]; intros b idx fs fs1 ds H.
  - simpl in H. injection H as <- <-. simpl. rewrite Nat.add_0_r.
    by destruct (run_pages L blob pdf_name idx b fs) as [[?|?] ?].
  - simpl in H |- *.
    destruct (page_step L blob pdf_name idx page fs) as [[d|e] fs0] eqn:Hs;
      [|discriminate].
    destruct (run_pages L blob pdf_name (S idx) a fs0)
      as [[ds0|e] fs2] eqn:Hr; [|discriminate].
    injection H as <- <-. rewrite (IH b _ _ _ _ Hr).
    replace (S idx + length a) with (idx + S (length a)) by lia.
    by destruct (run_pages L blob pdf_name (idx + S (length a)) b fs2)
      as [[?|?] ?].
Qed.

(** The documents of the first pages, taken one by one. *)
Lemma nexts_prefix (blob : Blob) (pdf_name : list N) :
  ∀ (a b : list (Page L)) (idx : nat)
    (fs fs1 : gmap (list N) (fdata (Pixmap L))) (ds : list Document),
  run_pages L blob pdf_name idx a fs = (Ok ds, fs1) →
  nexts L (length a) (GPages L blob pdf_name idx (a ++ b)) fs =
  Some (ds, GPages L blob pdf_name (idx + length a) b, fs1).
Proof.
  induction a as [|page a IH]; intros b idx fs fs1 ds H.
  - simpl in H. injection H as <- <-. simpl. by rewrite Nat.add_0_r.
  - simpl in H |- *.
    destruct (page_step L blob pdf_name idx page fs) as [[d|e] fs0] eqn:Hs;
      [|discriminate].
    destruct (run_pages L blob pdf_name (S idx) a fs0)
      as [[ds0|e] fs2] eqn:Hr; [|discriminate].
    injection H as <- <-. rewrite (IH b _ _ _ _ Hr).
    by rewrite Nat.add_succ_r.
Qed.

End WithLibs.

End ParseFacts.

Section ParseExtras.
Import Pix2Text ParseFacts.

(** X9.  [list(lazy_parse(blob))] returns exactly when the document opens
    and every page renders, has its image file created and is recognised.
    It then returns one document per page, in page order, the [i]-th with the
    text of the [i]-th page, the blob's source and the page number [i + 1]. *)
Theorem pix2text_documents (L : Libs) (blob : Blob)
    (fs : gmap (list N) (fdata (Pixmap L))) :
  let name := pdf_name_of (blob_path blob) in
  ((∃ ds fs', to_list L (lazy_parse L blob) fs = (Ok ds, fs'))
   ↔ ∃ pages,
       fitz_open L (blob_path blob) = Some pages
       ∧ ∀ i page, pages !! i = Some page →
           ∃ pix, get_pixmap L page = Some pix
                  ∧ can_create L (png_name name i) = true
                  ∧ is_Some (p2t L pix))
  ∧ (∀ ds fs',
       to_list L (lazy_parse L blob) fs = (Ok ds, fs') →
       ∃ pages,
         fitz_open L (blob_path blob) = Some pages
         ∧ length ds = length pages
         ∧ ∀ i page, pages !! i = Some page →
             ∃ pix outs,
               get_pixmap L page = Some pix
               ∧ p2t L pix = Some outs
               ∧ ds !! i = Some (mkDocument (only_text outs)
                                            (blob_source blob) (i + 1))).
Proof.
  cbn zeta. simpl to_list.
  destruct (fitz_open L (blob_path blob)) as [pages|].
  2:{ split; [split|]; [by intros (? & ? & ?)|by intros (? & ? & _)|done]. }
  split; [split|].
  - intros (ds & fs' & H). exists pages. split; [done|].
    apply run_pages_docs in H as [_ H]. intros i page Hp.
    destruct (H i page Hp) as (pix & outs & H1 & H2 & H3 & _).
    exists pix. by rewrite H3.
  - intros (pages' & [= <-] & H). by apply run_pages_total.
  - intros ds fs' H. exists pages. split; [done|].
    apply run_pages_docs in H as [Hlen H]. split; [done|].
    intros i page Hp.
    destruct (H i page Hp) as (pix & outs & H1 & _ & H3 & H4).
    by exists pix, outs.
Qed.

(** X10.  When the recogniser raises on a page after the pages before it went
    through, [list(lazy_parse(blob))] raises and returns no document, the
    images of the earlier pages are gone, and the image of the failing page
    is left on disk.  A consumer that takes the documents one by one has
    received the documents of the earlier pages before the exception. *)
Theorem recogniser_failure_leaves_image (L : Libs) (blob : Blob)
    (fs fs1 : gmap (list N) (fdata (Pixmap L)))
    (pre rest : list (Page L)) (page : Page L) (pix : Pixmap L)
    (ds : list Document) :
  let name := pdf_name_of (blob_path blob) in
  fitz_open L (blob_path blob) = Some (pre ++ page :: rest) →
  run_pages L blob name 0 pre fs = (Ok ds, fs1) →
  get_pixmap L page = Some pix →
  can_create L (png_name name (length pre)) = true →
  p2t L pix = None →
  let leaked := <[png_name name (length pre) := FPng pix]> fs1 in
  to_list L (lazy_parse L blob) fs = (Raise BackendError, leaked)
  ∧ leaked !! png_name name (length pre) = Some (FPng pix)
  ∧ (∀ i, i < length pre → fs1 !! png_name name i = None)
  ∧ ∃ g, nexts L (length pre) (lazy_parse L blob) fs = Some (ds, g, fs1)
         ∧ next L g fs1 = (Raised BackendError, GDone L, leaked).
Proof.
  cbn zeta. intros Ho Hpre Hpix Hcan Hrec.
  pose proof (TempFiles.page_step_recogniser_fails L blob
                (pdf_name_of (blob_path blob)) (length pre) page pix fs1
                Hpix Hcan Hrec) as Hstep.
  split.
  { simpl. rewrite Ho, (run_pages_app L blob _ pre _ 0 fs fs1 ds Hpre).
    simpl. by rewrite Hstep. }
  split; [apply lookup_insert_eq|].
  split.
  { intros i Hi.
    apply TempFiles.run_pages_nexts in Hpre as [Hn Hlen].
    apply TempFiles.nexts_pages in Hn as (_ & _ & Hin & _).
    apply Hin. unfold temps. apply list_elem_of_fmap. exists i.
    split; [done|]. apply elem_of_seq. lia. }
  pose proof (nexts_prefix L blob _ pre (page :: rest) 0 fs fs1 ds Hpre)
    as Hn.
  destruct pre as [|p0 pre].
  - simpl in Hpre. injection Hpre as <- <-. exists (lazy_parse L blob).
    split; [done|]. simpl. rewrite Ho. simpl. simpl in Hstep.
    by rewrite Hstep.
  - eexists. split.
    + simpl length. rewrite (TempFiles.nexts_start L _ _ _ _ Ho). exact Hn.
    + rewrite Nat.add_0_l. cbn [next resume]. by rewrite Hstep.
Qed.

Lemma recogniser_failure_leaves_image_witness :
  let name := pdf_name_of (blob_path Demo.blob) in
  let leaked : gmap (list N) (fdata (Pixmap Demo2.flaky)) :=
    <[png_name name 1 := FPng []]> Demo.files in
  to_list Demo2.flaky (lazy_parse Demo2.flaky Demo.blob) Demo.files =
    (Raise BackendError, leaked)
  ∧ leaked !! png_name name 1 = Some (FPng [])
  ∧ (∀ i, i < 1 → Demo.files !! png_name name i = None)
  ∧ ∃ g, nexts Demo2.flaky 1 (lazy_parse Demo2.flaky Demo.blob) Demo.files =
           Some ([Demo.doc0], g, Demo.files)
         ∧ next Demo2.flaky g Demo.files =
           (Raised BackendError, GDone Demo2.flaky, leaked).
Proof.
  apply (recogniser_failure_leaves_image Demo2.flaky Demo.blob Demo.files
           Demo.files [Demo.page0] [] [] [] [Demo.doc0]).
  - reflexivity.
  - vm_compute. reflexivity.
  - reflexivity.
  - reflexivity.
  - reflexivity.
Defined.

End ParseExtras.

(** * More about the JSON text *)

Module JsonAsciiFacts.
Import Json PyStr.

Lemma hexdigit_printable d : (d < 16)%N → printable (hexdigit d).
Proof.
  intros Hd. unfold printable, hexdigit.
  destruct (N.ltb_spec d 10); lia.
Qed.

Lemma hex4_printable n : Forall printable (hex4 n).
Proof.
  unfold hex4.
  repeat (apply Forall_cons; split;
          [apply hexdigit_printable, N.mod_lt; discriminate|]).
  apply Forall_nil_2.
Qed.

Lemma escape_printable c : Forall printable (escape c).
Proof.
  assert (∀ a b : N, printable a → printable b → Forall printable [a; b])
    as Htwo.
  { intros a b Ha Hb. apply Forall_cons. split; [done|].
    by apply Forall_singleton. }
  assert (∀ n, Forall printable (92%N :: 117%N :: hex4 n)) as Hu.
  { intros n. apply Forall_cons. split; [unfold printable; lia|].
    apply Forall_cons. split; [unfold printable; lia|].
    apply hex4_printable. }
  unfold escape.
  destruct (N.eqb_spec c 92); [apply Htwo; unfold printable; lia|].
  destruct (N.eqb_spec c 34); [apply Htwo; unfold printable; lia|].
  destruct (N.eqb_spec c 8); [apply Htwo; unfold printable; lia|].
  destruct (N.eqb_spec c 12); [apply Htwo; unfold printable; lia|].
  destruct (N.eqb_spec c 10); [apply Htwo; unfold printable; lia|].
  destruct (N.eqb_spec c 13); [apply Htwo; unfold printable; lia|].
  destruct (N.eqb_spec c 9); [apply Htwo; unfold printable; lia|].
  destruct ((32 <=? c) && (c <=? 126))%N eqn:Hp.
  { apply andb_prop in Hp as [Hlo Hhi].
    apply N.leb_le in Hlo. apply N.leb_le in Hhi.
    apply Forall_singleton. by split. }
  destruct (N.ltb_spec c 0x10000); [apply Hu|].
  cbv zeta. apply Forall_app. split; apply Hu.
Qed.

Lemma dumps_printable s : Forall printable (dumps s).
Proof.
  unfold dumps. apply Forall_cons. split; [unfold printable; lia|].
  apply Forall_app. split; [|apply Forall_singleton; unfold printable; lia].
  induction s as [|c s IH]; [apply Forall_nil_2|].
  rewrite fmap_cons, concat_cons. apply Forall_app. split; [|done].
  apply escape_printable.
Qed.

End JsonAsciiFacts.

Section JsonExtras.
Import Json.

(** X11.  The JSON text written for a string consists of printable ASCII
    characters only, whatever code points the string holds: every character
    outside that range is written as an escape. *)
Theorem dumps_is_ascii (s : list N) :
  Forall (λ c, (32 ≤ c ≤ 126)%N) (dumps s)
  ∧ head (dumps s) = Some 34%N ∧ last (dumps s) = Some 34%N.
Proof.
  split; [apply JsonAsciiFacts.dumps_printable|]. split; [done|].
  unfold dumps. rewrite app_comm_cons. apply last_snoc.
Qed.

(** X12.  Decoding inverts encoding on strings without surrogate code
    points: [loads (dumps s)] is [s], so two such strings with the same JSON
    text are equal. *)
Theorem json_round_trip (s : list N) :
  Forall scalar s →
  loads (dumps s) = Some s
  ∧ ∀ t, Forall scalar t → dumps s = dumps t → s = t.
Proof.
  intros Hs. split; [by apply JsonFacts.loads_dumps|].
  intros t Ht Heq.
  pose proof (JsonFacts.loads_dumps s Hs) as H1.
  pose proof (JsonFacts.loads_dumps t Ht) as H2.
  rewrite Heq, H2 in H1. by injection H1.
Qed.

Lemma json_round_trip_witness :
  loads (dumps [72; 233; 0x4e2d; 0x1F600; 10; 34; 92]%N) =
  Some [72; 233; 0x4e2d; 0x1F600; 10; 34; 92]%N.
Proof.
  refine (proj1 (json_round_trip [72; 233; 0x4e2d; 0x1F600; 10; 34; 92]%N _)).
  repeat (apply Forall_cons; split; [unfold scalar; lia|]).
  apply Forall_nil_2.
Defined.

End JsonExtras.

(** * The parsers that yield from a list *)

Module EagerFacts.
Import Parsers.

Lemma eager_nexts_rest (build : option (list Doc)) (k : nat) :
  ∀ (rest ds : list Doc) (g : egen),
  eager_nexts build k (ERest rest) = Some (ds, g) →
  k ≤ length rest ∧ ds = take k rest ∧ g = ERest (drop k rest).
Proof.
  induction k as [|k IH]; intros rest ds g H.
  - simpl in H. injection H as <- <-. split; [lia|]. by rewrite drop_0.
  - simpl in H. destruct rest as [|d rest]; [discriminate|]. simpl in H.
    destruct (eager_nexts build k (ERest rest)) as [[ds' g']|] eqn:Hk;
      [|discriminate].
    injection H as <- <-. apply IH in Hk as (Hle & -> & ->).
    simpl. split; [lia|done].
Qed.

(** Any document the generator yields comes from the complete list. *)
Lemma eager_nexts_start (build : option (list Doc)) (k : nat)
    (ds : list Doc) (g : egen) :
  0 < k →
  eager_nexts build k EStart = Some (ds, g) →
  ∃ all, build = Some all ∧ k ≤ length all ∧ ds = take k all.
Proof.
  intros Hk H. destruct k as [|k]; [lia|]. simpl in H.
  destruct build as [all|]; [|discriminate]. exists all. split; [done|].
  destruct all as [|d all]; [discriminate|]. simpl in H.
  destruct (eager_nexts (Some (d :: all)) k (ERest all)) as [[ds' g']|] eqn:E;
    [|discriminate].
  injection H as <- <-. apply eager_nexts_rest in E as (Hle & -> & _).
  simpl. split; [lia|done].
Qed.

Lemma mapM_id_imap_Some {A} (f : nat → A → option Doc)
    (l : list A) (ds : list Doc) :
  mapM id (imap f l) = Some ds →
  length ds = length l
  ∧ ∀ i x, l !! i = Some x → ∃ d, f i x = Some d ∧ ds !! i = Some d.
Proof.
  intros H. apply mapM_Some in H. split.
  - apply Forall2_length in H. by rewrite length_imap in H.
  - intros i x Hx.
    assert (imap f l !! i = Some (f i x)) as Hi
      by (by rewrite list_lookup_imap, Hx).
    destruct (Forall2_lookup_l _ _ _ _ _ H Hi) as (d & Hd & Hf).
    by exists d.
Qed.

End EagerFacts.

Section EagerExtras.
Import Parsers EagerFacts.

(** X13.  [PyPDFParser.lazy_parse] is all or nothing: if it yields even one
    document then the reader opened and the text of every page of the PDF
    was extracted, because the list of all documents is built before the
    first is yielded.  The [i]-th document yielded has the text of page [i]
    and the metadata [source] and [page = i], counted from zero. *)
Theorem pypdf_all_or_nothing {Page : Type} (open_pdf : option (list Page))
    (extract : Page → option (list N)) (source : pyval)
    (k : nat) (ds : list Doc) (g : egen) :
  0 < k →
  eager_nexts (pypdf_build open_pdf extract source) k EStart = Some (ds, g) →
  ∃ pages,
    open_pdf = Some pages
    ∧ k ≤ length pages ∧ length ds = k
    ∧ (∀ i page, pages !! i = Some page → is_Some (extract page))
    ∧ ∀ i d, ds !! i = Some d →
        ∃ page text,
          pages !! i = Some page ∧ extract page = Some text
          ∧ doc_content d = text
          ∧ doc_metadata d !! Py.lit "source" = Some source
          ∧ doc_metadata d !! Py.lit "page" = Some (VInt (Z.of_nat i))
          ∧ dom (doc_metadata d) = {[Py.lit "source"; Py.lit "page"]}.
Proof.
  intros Hk H. apply eager_nexts_start in H as (all & Hb & Hle & ->); [|done].
  unfold pypdf_build in Hb. destruct open_pdf as [pages|]; [|done].
  simpl in Hb. apply mapM_id_imap_Some in Hb as [Hlen Hall].
  exists pages. split; [done|]. rewrite <- Hlen. split; [done|].
  split; [by rewrite length_take; lia|]. split.
  - intros i page Hp. destruct (Hall i page Hp) as (d & Hd & _).
    unfold pypdf_doc in Hd. by destruct (extract page).
  - intros i d Hd. apply lookup_take_Some in Hd as [Hd Hi].
    destruct (pages !! i) as [page|] eqn:Hp.
    2:{ apply lookup_ge_None in Hp. apply lookup_lt_Some in Hd. lia. }
    destruct (Hall i page Hp) as (d' & Hd' & Hd'').
    rewrite Hd in Hd''. injection Hd'' as <-.
    unfold pypdf_doc in Hd'. destruct (extract page) as [text|] eqn:He;
      [|done].
    simpl in Hd'. injection Hd' as <-. exists page, text.
    split; [done|]. split; [done|]. split; [done|]. cbn [doc_metadata].
    split; [apply lookup_insert_eq|]. split.
    + rewrite lookup_insert_ne by (by intros ?%PyStrFacts.lit_inj).
      apply lookup_insert_eq.
    + rewrite !dom_insert_L, dom_empty_L. set_solver.
Qed.

Lemma pypdf_all_or_nothing_witness :
  let open_pdf := Some [Py.lit "one"; Py.lit "two"; Py.lit "three"] in
  ∃ pages,
    open_pdf = Some pages
    ∧ 2 ≤ length pages
    ∧ (∀ i page, pages !! i = Some page → is_Some (Some page)).
Proof.
  cbn zeta.
  destruct (pypdf_all_or_nothing
              (Some [Py.lit "one"; Py.lit "two"; Py.lit "three"])
              Some (VStr (Py.lit "a.pdf")) 2
              [mkDoc (Py.lit "one")
                 (<[Py.lit "source" := VStr (Py.lit "a.pdf")]>
                  (<[Py.lit "page" := VInt 0]> ∅));
               mkDoc (Py.lit "two")
                 (<[Py.lit "source" := VStr (Py.lit "a.pdf")]>
                  (<[Py.lit "page" := VInt 1]> ∅))]
              (ERest [mkDoc (Py.lit "three")
                 (<[Py.lit "source" := VStr (Py.lit "a.pdf")]>
                  (<[Py.lit "page" := VInt 2]> ∅))])
              ltac:(lia) eq_refl)
    as (pages & H1 & H2 & _ & H4 & _).
  exists pages. split; [exact H1|]. split; [exact H2|exact H4].
Defined.

(** X14.  The metadata of the documents of [PyMuPDFParser] and
    [PDFPlumberParser].  There is one document per page, and its metadata is
    the PDF's own metadata restricted to string and integer values, on top of
    [source], [file_path], [page] and [total_pages]: an entry of the PDF's
    metadata with a string or integer value wins over these four keys, an
    entry of another type is dropped, and under a key the PDF's metadata does
    not so define the four keys hold the source, the source, the page's
    number and the number of pages, and every other key is absent. *)
Theorem mupdf_metadata {Page : Type} (open_pdf : option (PdfDoc Page))
    (number : Page → Z) (get_text : Page → option (list N))
    (source : pyval) (ds : list Doc) :
  mupdf_build open_pdf number get_text source = Some ds →
  ∃ doc,
    open_pdf = Some doc
    ∧ length ds = length (pdf_pages doc)
    ∧ ∀ i d, ds !! i = Some d →
        ∃ page text,
          pdf_pages doc !! i = Some page ∧ get_text page = Some text
          ∧ doc_content d = text
          ∧ (∀ k v, pdf_metadata doc !! k = Some v → str_or_int v = true →
                    doc_metadata d !! k = Some v)
          ∧ (∀ k, (∀ v, pdf_metadata doc !! k = Some v →
                        str_or_int v = false) →
                  doc_metadata d !! k =
                  if decide (k = Py.lit "source") then Some source
                  else if decide (k = Py.lit "file_path") then Some source
                  else if decide (k = Py.lit "page")
                       then Some (VInt (number page))
                  else if decide (k = Py.lit "total_pages")
                       then Some (VInt (Z.of_nat (length (pdf_pages doc))))
                  else None).
Proof.
  unfold mupdf_build. intros H. destruct open_pdf as [doc|]; [|done].
  simpl in H. exists doc. split; [done|].
  apply mapM_Some in H. split; [symmetry; by eapply Forall2_length|].
  intros i d Hd.
  destruct (Forall2_lookup_r _ _ _ _ _ H Hd) as (page & Hp & Hdoc).
  unfold mupdf_doc in Hdoc. destruct (get_text page) as [text|] eqn:Ht;
    [|done].
  simpl in Hdoc. injection Hdoc as <-. exists page, text.
  split; [done|]. split; [done|]. split; [done|].
  cbn [doc_metadata]. unfold merged_metadata. split.
  - intros k v Hk Hv. apply lookup_union_Some_l.
    apply map_lookup_filter_Some. split; [done|]. simpl. by rewrite Hv.
  - intros k Hk. rewrite lookup_union_r.
    + destruct (decide (k = Py.lit "source")) as [->|N1];
        [by rewrite lookup_insert_eq|].
      rewrite lookup_insert_ne by done.
      destruct (decide (k = Py.lit "file_path")) as [->|N2];
        [by rewrite lookup_insert_eq|].
      rewrite lookup_insert_ne by done.
      destruct (decide (k = Py.lit "page")) as [->|N3];
        [by rewrite lookup_insert_eq|].
      rewrite lookup_insert_ne by done.
      destruct (decide (k = Py.lit "total_pages")) as [->|N4];
        [by rewrite lookup_insert_eq|].
      rewrite lookup_insert_ne by done. apply lookup_empty.
    + apply map_lookup_filter_None. right. intros v Hv Hs.
      apply Hk in Hv. simpl in Hs. by rewrite Hv in Hs.
Qed.

Lemma mupdf_metadata_witness :
  let source := VStr (Py.lit "a.pdf") in
  let number := λ page : list N, if decide (page = Py.lit "first") then 0%Z
                                 else 1%Z in
  ∃ d d', mupdf_build (Some Demo3.titled) number Some source = Some [d; d']
       ∧ doc_metadata d !! Py.lit "page" = Some (VStr (Py.lit "cover"))
       ∧ doc_metadata d !! Py.lit "title" = Some (VStr (Py.lit "T"))
       ∧ doc_metadata d !! Py.lit "total_pages" = Some (VInt 2)
       ∧ doc_metadata d !! Py.lit "encryption" = None.
Proof.
  cbn zeta.
  set (number := λ page : list N,
         if decide (page = Py.lit "first") then 0%Z else 1%Z).
  set (source := VStr (Py.lit "a.pdf")).
  set (meta := pdf_metadata Demo3.titled).
  set (d0 := mkDoc (Py.lit "first") (merged_metadata source 0 2 meta)).
  set (d1 := mkDoc (Py.lit "second") (merged_metadata source 1 2 meta)).
  assert (mupdf_build (Some Demo3.titled) number Some source = Some [d0; d1])
    as Hb by reflexivity.
  destruct (mupdf_metadata (Some Demo3.titled) number Some source [d0; d1] Hb)
    as (doc & Hdoc & _ & H).
  injection Hdoc as <-.
  destruct (H 0 d0 eq_refl) as (page & text & _ & _ & _ & Hwin & Hbase).
  exists d0, d1. split; [exact Hb|].
  split; [by apply Hwin|]. split; [by apply Hwin|]. split.
  - rewrite Hbase; [reflexivity|]. intros v Hv. vm_compute in Hv.
    discriminate.
  - rewrite Hbase; [reflexivity|]. intros v Hv. vm_compute in Hv.
    by injection Hv as <-.
Defined.

End EagerExtras.

(** * The handles of the PyPDFium2 parser *)

Module PdfiumFacts.
Import Pdfium.

Lemma after_app (h : handles) (evs evs' : list event) :
  after h (evs ++ evs') = after h evs ≫= λ h', after h' evs'.
Proof.
  unfold after. rewrite foldl_app.
  destruct (foldl _ (Some h) evs) as [h'|]; [reflexivity|].
  simpl. induction evs' as [|e evs' IH]; [reflexivity|exact IH].
Qed.

(** Between two operations: nothing open before the first [next], only the
    [with] block and the document at a [yield], neither of them at the
    end. *)
Definition settled (g : gen) (h : handles) : Prop :=
  match g with
  | GStart => h = none_open
  | GSuspended _ _ => h = mkHandles true true ∅ ∅
  | GDone => in_with h = false ∧ doc_open h = false
  end.

(** No page and no text page is open. *)
Definition clean (h : handles) : Prop :=
  pages_open h = ∅ ∧ text_pages_open h = ∅.

Ltac decide_sets :=
  repeat (first
    [ rewrite bool_decide_eq_true_2 by (set_unfold; intuition)
    | rewrite bool_decide_eq_false_2 by (set_unfold; intuition) ]).

Lemma resume_settled (source : Parsers.pyval) (idx : nat)
    (rest : list page_behaviour) (s : Parsers.signal) (g : gen)
    (evs : list event) :
  resume source idx rest = (s, g, evs) →
  ∃ h, after (mkHandles true true ∅ ∅) evs = Some h ∧ settled g h ∧
       ((∀ e, s ≠ Parsers.Raised e) → clean h).
Proof.
  intros Hr. destruct rest as [|[text| | |] rest]; simpl in Hr;
    injection Hr as <- <- <-.
  - eexists. split; [reflexivity|]. split; [split; reflexivity|].
    intros _. split; reflexivity.
  - exists (mkHandles true true ∅ ∅). split.
    + unfold after. simpl. decide_sets. simpl. decide_sets. simpl.
      decide_sets. simpl. decide_sets. simpl. f_equal.
      f_equal; apply set_eq; intros x; set_unfold; tauto.
    + split; [reflexivity|]. intros _. split; reflexivity.
  - eexists. split; [reflexivity|]. split; [split; reflexivity|].
    intros H. destruct (H BackendError eq_refl).
  - eexists. split.
    + unfold after. simpl. decide_sets. simpl. reflexivity.
    + split; [split; reflexivity|].
      intros H. destruct (H BackendError eq_refl).
  - eexists. split.
    + unfold after. simpl. decide_sets. simpl. decide_sets. simpl.
      reflexivity.
    + split; [split; reflexivity|].
      intros H. destruct (H BackendError eq_refl).
Qed.

Lemma next_settled (open_pdf : option (list page_behaviour))
    (source : Parsers.pyval) (g : gen) (h : handles) (s : Parsers.signal)
    (g' : gen) (evs : list event) :
  settled g h →
  next open_pdf source g = (s, g', evs) →
  ∃ h', after h evs = Some h' ∧ settled g' h' ∧
        ((∀ e, s ≠ Parsers.Raised e) → clean h → clean h').
Proof.
  intros Hs Hn. destruct g as [|idx rest|]; simpl in Hs, Hn.
  - subst h. destruct open_pdf as [pages|].
    + destruct (resume source 0 pages) as [[s0 g0] evs0] eqn:Hr.
      injection Hn as <- <- <-.
      destruct (resume_settled _ _ _ _ _ _ Hr) as (h' & Ha & Hs' & Hc).
      exists h'. split; [exact Ha|]. split; [exact Hs'|]. tauto.
    + injection Hn as <- <- <-. eexists. split; [reflexivity|].
      split; [split; reflexivity|].
      intros H. destruct (H BackendError eq_refl).
  - subst h.
    destruct (resume_settled _ _ _ _ _ _ Hn) as (h' & Ha & Hs' & Hc).
    exists h'. split; [exact Ha|]. split; [exact Hs'|]. tauto.
  - injection Hn as <- <- <-. exists h. split; [reflexivity|].
    split; [exact Hs|]. tauto.
Qed.

Lemma close_settled (g : gen) (h : handles) (g' : gen) (evs : list event) :
  settled g h →
  close g = (g', evs) →
  ∃ h', after h evs = Some h' ∧ settled g' h' ∧ (clean h → clean h').
Proof.
  intros Hs Hc. destruct g as [|idx rest|]; simpl in Hs, Hc;
    injection Hc as <- <-.
  - subst h. eexists. split; [reflexivity|].
    split; [split; reflexivity|]. tauto.
  - subst h. eexists. split; [reflexivity|].
    split; [split; reflexivity|]. tauto.
  - exists h. split; [reflexivity|]. split; [exact Hs|]. tauto.
Qed.

Lemma run_settled (open_pdf : option (list page_behaviour))
    (source : Parsers.pyval) (ops : list op) (g : gen) (h : handles)
    (g' : gen) (evs : list event) (sigs : list Parsers.signal) :
  settled g h →
  run open_pdf source ops g = (g', evs, sigs) →
  ∃ h', after h evs = Some h' ∧ settled g' h' ∧
        (no_raise sigs → clean h → clean h').
Proof.
  revert g h g' evs sigs.
  induction ops as [|[|] ops IH]; intros g h g' evs sigs Hs Hr; simpl in Hr.
  - injection Hr as <- <- <-. exists h. split; [reflexivity|].
    split; [exact Hs|]. tauto.
  - destruct (next open_pdf source g) as [[s g1] evs1] eqn:Hn.
    destruct (run open_pdf source ops g1) as [[g2 evs2] sigs2] eqn:Hr2.
    injection Hr as <- <- <-.
    destruct (next_settled _ _ _ _ _ _ _ Hs Hn) as (h1 & Ha1 & Hs1 & Hc1).
    destruct (IH _ _ _ _ _ Hs1 Hr2) as (h2 & Ha2 & Hs2 & Hc2).
    exists h2. split; [rewrite after_app, Ha1; exact Ha2|].
    split; [exact Hs2|].
    intros Hno Hc. apply Hc2.
    + intros e He. apply (Hno e). right. exact He.
    + apply Hc1; [|exact Hc].
      intros e ->. apply (Hno e). left.
  - destruct (close g) as [g1 evs1] eqn:Hn.
    destruct (run open_pdf source ops g1) as [[g2 evs2] sigs2] eqn:Hr2.
    injection Hr as <- <- <-.
    destruct (close_settled _ _ _ _ Hs Hn) as (h1 & Ha1 & Hs1 & Hc1).
    destruct (IH _ _ _ _ _ Hs1 Hr2) as (h2 & Ha2 & Hs2 & Hc2).
    exists h2. split; [rewrite after_app, Ha1; exact Ha2|].
    split; [exact Hs2|]. tauto.
Qed.

Lemma good_pages (open_pdf : option (list page_behaviour))
    (source : Parsers.pyval) (texts : list (list N)) :
  ∀ (idx : nat) (rest : list page_behaviour) (ops : list op),
  ∃ evs0,
    after (mkHandles true true ∅ ∅) evs0 = Some (mkHandles true true ∅ ∅) ∧
    ∀ (g : gen) (evs : list event) (sigs : list Parsers.signal),
      run open_pdf source ops (GSuspended (idx + length texts) rest)
        = (g, evs, sigs) →
      run open_pdf source (replicate (length texts) Next ++ ops)
          (GSuspended idx ((Good <$> texts) ++ rest))
        = (g, evs0 ++ evs,
           imap (λ i t, Parsers.Yield (page_doc source (idx + i) t)) texts
           ++ sigs).
Proof.
  induction texts as [|t texts IH]; intros idx rest ops.
  - exists []. split; [reflexivity|]. intros g evs sigs Hr.
    simpl in *. rewrite Nat.add_0_r in Hr. exact Hr.
  - destruct (IH (S idx) rest ops) as (evs0 & Ha & Hrun).
    exists ([EvOpenPage idx; EvOpenTextPage idx; EvCloseTextPage idx;
             EvClosePage idx] ++ evs0).
    split.
    + rewrite after_app.
      assert (after (mkHandles true true ∅ ∅)
                [EvOpenPage idx; EvOpenTextPage idx; EvCloseTextPage idx;
                 EvClosePage idx] = Some (mkHandles true true ∅ ∅)) as ->.
      { unfold after. simpl. decide_sets. simpl. decide_sets. simpl.
        decide_sets. simpl. decide_sets. simpl. f_equal.
        f_equal; apply set_eq; intros x; set_unfold; tauto. }
      exact Ha.
    + intros g evs sigs Hr.
      replace (idx + length (t :: texts)) with (S idx + length texts) in Hr
        by (simpl; lia).
      specialize (Hrun g evs sigs Hr).
      change (replicate (length (t :: texts)) Next ++ ops)
        with (Next :: (replicate (length texts) Next ++ ops)).
      rewrite fmap_cons. cbn [run next resume app]. rewrite Hrun.
      rewrite imap_cons, Nat.add_0_r. cbn [app].
      rewrite (imap_ext
                 ((λ i t, Parsers.Yield (page_doc source (idx + i) t)) ∘ S)
                 (λ i t, Parsers.Yield (page_doc source (S idx + i) t))
                 texts); [reflexivity|].
      intros i x _. simpl. do 3 f_equal. lia.
Qed.

Lemma run_first_next (pages : list page_behaviour) (source : Parsers.pyval)
    (ops : list op) (g : gen) (evs : list event)
    (sigs : list Parsers.signal) :
  run (Some pages) source (Next :: ops) (GSuspended 0 pages)
    = (g, evs, sigs) →
  run (Some pages) source (Next :: ops) GStart
    = (g, EvEnter :: EvOpenDoc :: evs, sigs).
Proof.
  cbn [run next].
  destruct (resume source 0 pages) as [[s g1] evs1].
  destruct (run (Some pages) source ops g1) as [[g2 evs2] sigs2].
  intros H. injection H as <- <- <-. reflexivity.
Qed.

End PdfiumFacts.

Section PdfiumExtras.
Import Pdfium.

Variable open_pdf : option (list page_behaviour).
Variable source : Parsers.pyval.

(** X15.  Whatever the consumer does with the generator of
    [PyPDFium2Parser.lazy_parse] (any sequence of [next] and [close]), the
    handles are opened and closed in order: nothing is opened twice or
    closed when not open, no page or text page is touched once the document
    is closed, a text page is closed before its page, and the document
    before the [with] block is left.  While the generator is suspended at a
    [yield] exactly the [with] block and the document are open; once it has
    finished, for whatever reason, both are closed. *)
Theorem pdfium_handles_in_order (ops : list op) (g : gen)
    (evs : list event) (sigs : list Parsers.signal) :
  run open_pdf source ops GStart = (g, evs, sigs) →
  ∃ h, after none_open evs = Some h ∧
       (g = GStart → h = none_open) ∧
       (∀ idx rest, g = GSuspended idx rest → h = mkHandles true true ∅ ∅) ∧
       (g = GDone → in_with h = false ∧ doc_open h = false).
Proof.
  intros Hr.
  destruct (PdfiumFacts.run_settled open_pdf source ops GStart none_open
              g evs sigs eq_refl Hr) as (h & Ha & Hs & _).
  exists h. split; [exact Ha|].
  repeat split; intros; subst g; simpl in Hs; tauto || exact Hs.
Qed.

(** X16.  As long as no [next] raises, no page and no text page of
    [PyPDFium2Parser.lazy_parse] is left open between two operations of the
    consumer. *)
Theorem pdfium_no_leak (ops : list op) (g : gen)
    (evs : list event) (sigs : list Parsers.signal) :
  run open_pdf source ops GStart = (g, evs, sigs) →
  no_raise sigs →
  ∃ h, after none_open evs = Some h ∧
       pages_open h = ∅ ∧ text_pages_open h = ∅.
Proof.
  intros Hr Hno.
  destruct (PdfiumFacts.run_settled open_pdf source ops GStart none_open
              g evs sigs eq_refl Hr) as (h & Ha & _ & Hc).
  exists h. split; [exact Ha|]. apply Hc; [exact Hno|].
  split; reflexivity.
Qed.

End PdfiumExtras.

Lemma pdfium_handles_in_order_witness :
  ∃ h, Pdfium.after Pdfium.none_open
         [Pdfium.EvEnter; Pdfium.EvOpenDoc;
          Pdfium.EvOpenPage 0; Pdfium.EvOpenTextPage 0;
          Pdfium.EvCloseTextPage 0; Pdfium.EvClosePage 0;
          Pdfium.EvCloseDoc; Pdfium.EvExit] = Some h ∧
       (Pdfium.GDone = Pdfium.GStart → h = Pdfium.none_open) ∧
       (∀ idx rest, Pdfium.GDone = Pdfium.GSuspended idx rest →
                    h = Pdfium.mkHandles true true ∅ ∅) ∧
       (Pdfium.GDone = Pdfium.GDone →
        Pdfium.in_with h = false ∧ Pdfium.doc_open h = false).
Proof.
  apply (pdfium_handles_in_order
           (Some [Pdfium.Good (Py.lit "a"); Pdfium.Good (Py.lit "b")])
           (Parsers.VStr [])
           [Pdfium.Next; Pdfium.Close; Pdfium.Next]
           Pdfium.GDone _
           [Parsers.Yield (Pdfium.page_doc (Parsers.VStr []) 0 (Py.lit "a"));
            Parsers.StopIteration]).
  reflexivity.
Defined.

Lemma pdfium_no_leak_witness :
  ∃ h, Pdfium.after Pdfium.none_open
         [Pdfium.EvEnter; Pdfium.EvOpenDoc;
          Pdfium.EvOpenPage 0; Pdfium.EvOpenTextPage 0;
          Pdfium.EvCloseTextPage 0; Pdfium.EvClosePage 0;
          Pdfium.EvOpenPage 1; Pdfium.EvOpenTextPage 1;
          Pdfium.EvCloseTextPage 1; Pdfium.EvClosePage 1;
          Pdfium.EvCloseDoc; Pdfium.EvExit] = Some h ∧
       Pdfium.pages_open h = ∅ ∧ Pdfium.text_pages_open h = ∅.
Proof.
  apply (pdfium_no_leak
           (Some [Pdfium.Good (Py.lit "a"); Pdfium.Good (Py.lit "b")])
           (Parsers.VStr [])
           [Pdfium.Next; Pdfium.Next; Pdfium.Next]
           Pdfium.GDone _
           [Parsers.Yield (Pdfium.page_doc (Parsers.VStr []) 0 (Py.lit "a"));
            Parsers.Yield (Pdfium.page_doc (Parsers.VStr []) 1 (Py.lit "b"));
            Parsers.StopIteration]).
  - reflexivity.
  - intros e He. repeat (apply elem_of_cons in He as [He|He];
      [discriminate He|]). apply elem_of_nil in He. exact He.
Defined.

Section PdfiumFailure.
Import Pdfium.

Variable source : Parsers.pyval.

(** X17.  When [text_page.get_text_range()] raises on a page of
    [PyPDFium2Parser.lazy_parse], after the pages before it were yielded
    with their texts and their indices as page numbers, the exception
    reaches the consumer, the [finally] clause closes the document and the
    [with] block is left, but the page and its text page are never closed:
    they are the handles still open at the end. *)
Theorem pdfium_text_failure_leaks_page (texts : list (list N))
    (rest : list page_behaviour) :
  ∃ evs,
    run (Some ((Good <$> texts) ++ NoRange :: rest)) source
        (replicate (S (length texts)) Next) GStart
      = (GDone, evs,
         imap (λ i t, Parsers.Yield (page_doc source i t)) texts
         ++ [Parsers.Raised BackendError]) ∧
    after none_open evs
      = Some (mkHandles false false {[length texts]} {[length texts]}).
Proof.
  destruct (PdfiumFacts.good_pages
              (Some ((Good <$> texts) ++ NoRange :: rest)) source texts
              0 (NoRange :: rest) [Next]) as (evs0 & Ha & Hrun).
  specialize (Hrun GDone
    ([EvOpenPage (length texts); EvOpenTextPage (length texts);
      EvCloseDoc; EvExit] ++ [])
    [Parsers.Raised BackendError] eq_refl).
  exists (EvEnter :: EvOpenDoc :: evs0
          ++ [EvOpenPage (length texts); EvOpenTextPage (length texts);
              EvCloseDoc; EvExit] ++ []).
  split.
  - rewrite <- replicate_S_end in Hrun.
    exact (PdfiumFacts.run_first_next _ _ _ _ _ _ Hrun).
  - change (EvEnter :: EvOpenDoc :: evs0 ++ ?l)
      with ([EvEnter; EvOpenDoc] ++ evs0 ++ l).
    rewrite PdfiumFacts.after_app.
    change (after none_open [EvEnter; EvOpenDoc])
      with (Some (mkHandles true true ∅ ∅)).
    cbn [mbind option_bind]. rewrite PdfiumFacts.after_app, Ha.
    cbn [mbind option_bind]. unfold after. simpl.
    PdfiumFacts.decide_sets. simpl. PdfiumFacts.decide_sets. simpl.
    f_equal. f_equal; apply set_eq; intros x; set_unfold; tauto.
Qed.

End PdfiumFailure.
